(** * SpeechService: the sequential speech playback engine

    A shallow embedding of [SpeechService] (web client, services/SpeechService.ts)
    as state-passing functions over an explicit [World].  The world holds the
    private fields of the singleton, the two audio elements, the on-device
    adapter, the browser's timer queue and media session, and the trace of
    everything the engine tells its collaborators.

    JavaScript numbers used as line indices are integers ([Z]); the clock is
    in milliseconds ([N]).  A closure that captures [(index, configs)] is
    represented by that pair: invoking it runs the body the source gives. *)

From Stdlib Require Import List ZArith NArith QArith Bool String Lia.
From Stdlib Require Import Sorted Permutation.
From Stdlib Require Import DecimalString DecimalPos DecimalZ.
Import ListNotations.

Local Open Scope string_scope.
Local Open Scope list_scope.
Local Open Scope Z_scope.

(* ------------------------------------------------------------------ *)
(** ** Data model *)

(** [type VoiceType = 'system' | 'cloud'] *)
Inductive VoiceType : Type := system | cloud.

Record VoiceOption : Type := mkVoice {
  vtype : VoiceType;
  vid : string;
  displayName : string;
  enabled : bool
}.

(** [SpeechConfigs].  At run time a field can be [undefined] (the guard in
    [play] exists for that), hence the options. *)
Record SpeechConfigs : Type := mkConfigs {
  bookId : option string;
  lines : list string;
  lang : string;
  rate : option Q;
  totalLines : option Z;
  selectedVoice : option VoiceOption
}.

(** What a completion callback or a scheduled callback captures. *)
Record Closure : Type := mkClosure {
  cl_index : Z;
  cl_configs : SpeechConfigs
}.

(** Everything the engine does to the outside, in program order: the four
    caller callbacks (each [this.onX?.(v)] is recorded as [onX v], which is
    what an installed handler receives; the reader page installs handlers
    that only set its own state and do not call back into the service), the
    commands sent to the three audio collaborators, and console output.
    [onBookCompleted] carries the clock reading that [getNowISOString] (shared
    package, not part of these sources) renders as an ISO string. *)
Inductive Action : Type :=
| onIsPlayingChange (isPlaying : bool)
| onLineEnd (lineIndex : Z)
| onLoadMoreLines (lineIndex : Z)
| onBookCompleted (at_ms : N)
| SilentPlay
| SilentPause
| CloudPause
| CloudSrc (url : string)
| CloudPlaybackRate (r : Q)
| CloudOnended (h : option Closure)
| CloudPlay
| CloudRemoveSrc
| CloudLoad
| TtsStop
| TtsSpeak (text : option string) (voice : string) (c : Closure)
| ConsoleError (msg : string)
| ConsoleLog (msg : string).

(** The persistent [HTMLAudioElement] behind the cloud voice. *)
Record CloudAudio : Type := mkCloud {
  src : option string;
  playing : bool;
  playbackRate : Q;
  onended : option Closure
}.

(** Modelled from the spec: [TTSNative] (services/TTSNative.ts) is absent from
    the sources.  Per section 4.2 it holds at most one utterance: [speak]
    cancels the utterance in flight and starts a new one with its two
    callbacks, [stop] cancels it and drops the reference, and the backend's
    "end" / "error" signal invokes [onEnd] / [onError] of the utterance held.
    The keep-alive pulse is internal to the adapter and not represented. *)
Record Utterance : Type := mkUtterance {
  u_text : option string;
  u_voice : string;
  u_closure : Closure
}.

Inductive PlaybackState : Type := ps_none | ps_paused | ps_playing.

Record PositionState : Type := mkPosition {
  duration : option Z;
  pos_rate : Q;
  position : Z
}.

(** [navigator.mediaSession]: its four action handlers are the closures
    installed by [updateActionHandlers]. *)
Record MediaSession : Type := mkMs {
  ms_playbackState : PlaybackState;
  ms_metadata_writes : nat;
  ms_hasSetPositionState : bool;
  ms_setPositionState_throws : bool;
  ms_positionState : option PositionState;
  h_play : option Closure;
  h_pause : bool;
  h_nexttrack : option Closure;
  h_previoustrack : option Closure
}.

(** A pending [setTimeout]. *)
Record Timer : Type := mkTimer {
  t_id : nat;
  t_due : N;
  t_closure : Closure
}.

Record World : Type := mkWorld {
  (* private fields of SpeechService *)
  silentAudio : bool;
  cloudAudio : CloudAudio;
  ttsNative : option Utterance;
  isRestarting : bool;
  timer : option nat;
  currentBookId : option string;
  (* the platform *)
  mediaSession : option MediaSession;
  pending : list Timer;
  next_id : nat;
  clock : N;
  (* observation *)
  trace : list Action
}.

Definition Cmd : Type := World -> World.

Definition seq (c1 c2 : Cmd) : Cmd := fun w => c2 (c1 w).
Definition skip : Cmd := fun w => w.

Declare Scope cmd_scope.
Delimit Scope cmd_scope with cmd.
Notation "c1 ;; c2" := (seq c1 c2) (at level 61, right associativity) : cmd_scope.
Local Open Scope cmd_scope.

(* ------------------------------------------------------------------ *)
(** ** Field updates *)

Definition emit (a : Action) : Cmd := fun w =>
  mkWorld (silentAudio w) (cloudAudio w) (ttsNative w) (isRestarting w)
          (timer w) (currentBookId w) (mediaSession w) (pending w)
          (next_id w) (clock w) (trace w ++ [a]).

Definition set_silentAudio (b : bool) : Cmd := fun w =>
  mkWorld b (cloudAudio w) (ttsNative w) (isRestarting w)
          (timer w) (currentBookId w) (mediaSession w) (pending w)
          (next_id w) (clock w) (trace w).

Definition set_cloudAudio (c : CloudAudio) : Cmd := fun w =>
  mkWorld (silentAudio w) c (ttsNative w) (isRestarting w)
          (timer w) (currentBookId w) (mediaSession w) (pending w)
          (next_id w) (clock w) (trace w).

Definition set_ttsNative (u : option Utterance) : Cmd := fun w =>
  mkWorld (silentAudio w) (cloudAudio w) u (isRestarting w)
          (timer w) (currentBookId w) (mediaSession w) (pending w)
          (next_id w) (clock w) (trace w).

Definition set_isRestarting (b : bool) : Cmd := fun w =>
  mkWorld (silentAudio w) (cloudAudio w) (ttsNative w) b
          (timer w) (currentBookId w) (mediaSession w) (pending w)
          (next_id w) (clock w) (trace w).

Definition set_timer (t : option nat) : Cmd := fun w =>
  mkWorld (silentAudio w) (cloudAudio w) (ttsNative w) (isRestarting w)
          t (currentBookId w) (mediaSession w) (pending w)
          (next_id w) (clock w) (trace w).

Definition set_currentBookId (b : option string) : Cmd := fun w =>
  mkWorld (silentAudio w) (cloudAudio w) (ttsNative w) (isRestarting w)
          (timer w) b (mediaSession w) (pending w)
          (next_id w) (clock w) (trace w).

Definition set_mediaSession (m : option MediaSession) : Cmd := fun w =>
  mkWorld (silentAudio w) (cloudAudio w) (ttsNative w) (isRestarting w)
          (timer w) (currentBookId w) m (pending w)
          (next_id w) (clock w) (trace w).

Definition set_pending (p : list Timer) : Cmd := fun w =>
  mkWorld (silentAudio w) (cloudAudio w) (ttsNative w) (isRestarting w)
          (timer w) (currentBookId w) (mediaSession w) p
          (next_id w) (clock w) (trace w).

Definition set_next_id (n : nat) : Cmd := fun w =>
  mkWorld (silentAudio w) (cloudAudio w) (ttsNative w) (isRestarting w)
          (timer w) (currentBookId w) (mediaSession w) (pending w)
          n (clock w) (trace w).

Definition set_clock (t : N) : Cmd := fun w =>
  mkWorld (silentAudio w) (cloudAudio w) (ttsNative w) (isRestarting w)
          (timer w) (currentBookId w) (mediaSession w) (pending w)
          (next_id w) t (trace w).

(** Update the media session when the capability exists. *)
Definition with_ms (f : MediaSession -> MediaSession) : Cmd := fun w =>
  match mediaSession w with
  | Some m => set_mediaSession (Some (f m)) w
  | None => w
  end.

Definition ms_set_playbackState (s : PlaybackState) (m : MediaSession) : MediaSession :=
  mkMs s (ms_metadata_writes m) (ms_hasSetPositionState m)
       (ms_setPositionState_throws m) (ms_positionState m)
       (h_play m) (h_pause m) (h_nexttrack m) (h_previoustrack m).

Definition ms_write_metadata (m : MediaSession) : MediaSession :=
  mkMs (ms_playbackState m) (S (ms_metadata_writes m)) (ms_hasSetPositionState m)
       (ms_setPositionState_throws m) (ms_positionState m)
       (h_play m) (h_pause m) (h_nexttrack m) (h_previoustrack m).

Definition ms_set_positionState (p : PositionState) (m : MediaSession) : MediaSession :=
  mkMs (ms_playbackState m) (ms_metadata_writes m) (ms_hasSetPositionState m)
       (ms_setPositionState_throws m) (Some p)
       (h_play m) (h_pause m) (h_nexttrack m) (h_previoustrack m).

Definition ms_set_handlers (hp : option Closure) (hpa : bool)
    (hn hpr : option Closure) (m : MediaSession) : MediaSession :=
  mkMs (ms_playbackState m) (ms_metadata_writes m) (ms_hasSetPositionState m)
       (ms_setPositionState_throws m) (ms_positionState m)
       hp hpa hn hpr.

(* ------------------------------------------------------------------ *)
(** ** JavaScript helpers *)

(** Truthiness of a string-or-undefined and of a number-or-undefined. *)
Definition truthy_string (s : option string) : bool :=
  match s with
  | Some x => negb (String.eqb x "")
  | None => false
  end.

Definition truthy_number (n : option Z) : bool :=
  match n with
  | Some z => negb (Z.eqb z 0)
  | None => false
  end.

Definition truthy_voice (v : option VoiceOption) : bool :=
  match v with
  | Some _ => true
  | None => false
  end.

(** [configs.rate || 1.0] *)
Definition rate_or_default (r : option Q) : Q :=
  match r with
  | Some q => if Qeq_bool q 0 then 1%Q else q
  | None => 1%Q
  end.

(** An integer inside a template literal: its decimal digits. *)
Definition string_of_Z (z : Z) : string := NilZero.string_of_int (Z.to_int z).

(** A string-or-undefined inside a template literal. *)
Definition template (s : option string) : string :=
  match s with
  | Some x => x
  | None => "undefined"
  end.

(** [configs.lines[index]] *)
Definition line_at (cfg : SpeechConfigs) (index : Z) : option string :=
  if Z.ltb index 0 then None else nth_error (lines cfg) (Z.to_nat index).

(** [clearTimeout(id)]: the timer with that handle is dropped from the queue;
    a handle that is no longer pending clears nothing. *)
Definition clearTimeout (id : nat) : Cmd := fun w =>
  set_pending (filter (fun t => negb (Nat.eqb (t_id t) id)) (pending w)) w.

(** [if (this.timer) clearTimeout(this.timer)]; the field keeps the handle. *)
Definition clear_timer_field : Cmd := fun w =>
  match timer w with
  | Some id => clearTimeout id w
  | None => w
  end.

(** [this.timer = setTimeout(cb, delay)] *)
Definition setTimeout_into_timer (c : Closure) (delay : N) : Cmd := fun w =>
  let id := next_id w in
  (set_pending (pending w ++ [mkTimer id (clock w + delay)%N c]) ;;
   set_next_id (S id) ;;
   set_timer (Some id)) w.

(** [this.currentBookId !== configs.bookId]: the field is a string or [null],
    the argument a string or [undefined]; [null !== undefined] holds. *)
Definition strict_neq (cur arg : option string) : bool :=
  match cur, arg with
  | Some x, Some y => negb (String.eqb x y)
  | _, _ => true
  end.

(* ------------------------------------------------------------------ *)
(** ** The collaborators' commands *)

Definition silent_play : Cmd := emit SilentPlay ;; set_silentAudio true.
Definition silent_pause : Cmd := emit SilentPause ;; set_silentAudio false.

Definition cloud_pause : Cmd := fun w =>
  let a := cloudAudio w in
  (emit CloudPause ;;
   set_cloudAudio (mkCloud (src a) false (playbackRate a) (onended a))) w.

Definition cloud_set_src (url : string) : Cmd := fun w =>
  let a := cloudAudio w in
  (emit (CloudSrc url) ;;
   set_cloudAudio (mkCloud (Some url) (playing a) (playbackRate a) (onended a))) w.

Definition cloud_set_playbackRate (r : Q) : Cmd := fun w =>
  let a := cloudAudio w in
  (emit (CloudPlaybackRate r) ;;
   set_cloudAudio (mkCloud (src a) (playing a) r (onended a))) w.

Definition cloud_set_onended (h : option Closure) : Cmd := fun w =>
  let a := cloudAudio w in
  (emit (CloudOnended h) ;;
   set_cloudAudio (mkCloud (src a) (playing a) (playbackRate a) h)) w.

Definition cloud_play : Cmd := fun w =>
  let a := cloudAudio w in
  (emit CloudPlay ;;
   set_cloudAudio (mkCloud (src a) true (playbackRate a) (onended a))) w.

Definition cloud_removeSrc : Cmd := fun w =>
  let a := cloudAudio w in
  (emit CloudRemoveSrc ;;
   set_cloudAudio (mkCloud None (playing a) (playbackRate a) (onended a))) w.

Definition cloud_load : Cmd := fun w =>
  let a := cloudAudio w in
  (emit CloudLoad ;;
   set_cloudAudio (mkCloud (src a) false (playbackRate a) (onended a))) w.

(** Modelled from the spec: [TTSNative.stop] drops the utterance held. *)
Definition tts_stop : Cmd := emit TtsStop ;; set_ttsNative None.

(** Modelled from the spec: [TTSNative.speak] replaces the utterance held by
    the new one, together with the callbacks it was given. *)
Definition tts_speak (text : option string) (voice : string) (c : Closure) : Cmd :=
  emit (TtsSpeak text voice c) ;;
  set_ttsNative (Some (mkUtterance text voice c)).

(* ------------------------------------------------------------------ *)
(** ** SpeechService *)

Definition stopCloud : Cmd :=
  cloud_pause ;;
  cloud_set_onended None ;;
  cloud_removeSrc ;;
  cloud_load.

Definition pause : Cmd :=
  clear_timer_field ;;
  silent_pause ;;
  stopCloud ;;
  tts_stop ;;
  with_ms (ms_set_playbackState ps_paused).

Definition clearMediaSession : Cmd :=
  with_ms (ms_set_handlers None false None None).

Definition stop : Cmd :=
  set_isRestarting false ;;
  clear_timer_field ;;
  silent_pause ;;
  stopCloud ;;
  tts_stop ;;
  with_ms (ms_set_playbackState ps_none) ;;
  clearMediaSession ;;
  emit (onIsPlayingChange false).

Definition updateActionHandlers (index : Z) (configs : SpeechConfigs) : Cmd :=
  let c := mkClosure index configs in
  with_ms (ms_set_handlers (Some c) true (Some c) (Some c)).

Definition setPositionState (index : Z) (configs : SpeechConfigs) : Cmd := fun w =>
  match mediaSession w with
  | Some m =>
      if ms_hasSetPositionState m then
        if ms_setPositionState_throws m
        then emit (ConsoleError "Error updating position state:") w
        else with_ms (ms_set_positionState
                        (mkPosition (totalLines configs)
                                    (rate_or_default (rate configs)) index)) w
      else w
  | None => w
  end.

Definition setupMediaSession (index : Z) (configs : SpeechConfigs) : Cmd := fun w =>
  match mediaSession w with
  | None => w
  | Some _ =>
      ((if strict_neq (currentBookId w) (bookId configs)
        then set_currentBookId (bookId configs) ;; with_ms ms_write_metadata
        else skip) ;;
       setPositionState index configs ;;
       updateActionHandlers index configs) w
  end.

Definition voice_id (configs : SpeechConfigs) : string :=
  match selectedVoice configs with
  | Some v => vid v
  | None => "undefined"
  end.

Definition cloudSrc (index : Z) (configs : SpeechConfigs) : string :=
  ("/api/books/" ++ template (bookId configs) ++ "/audio/" ++ string_of_Z index
   ++ "?voice=" ++ voice_id configs)%string.

Definition startCloudSpeech (index : Z) (configs : SpeechConfigs) : Cmd :=
  cloud_pause ;;
  cloud_set_src (cloudSrc index configs) ;;
  cloud_set_playbackRate (rate_or_default (rate configs)) ;;
  cloud_set_onended (Some (mkClosure index configs)) ;;
  cloud_play.

Definition startSystemSpeech (index : Z) (configs : SpeechConfigs) : Cmd :=
  tts_speak (line_at configs index) (voice_id configs) (mkClosure index configs).

(** The guard of [play]:
    [!configs.bookId || !configs.totalLines || !configs.selectedVoice]. *)
Definition missing (configs : SpeechConfigs) : bool :=
  negb (truthy_string (bookId configs))
  || negb (truthy_number (totalLines configs))
  || negb (truthy_voice (selectedVoice configs)).

Definition play (index : Z) (configs : SpeechConfigs) : Cmd := fun w =>
  if missing configs then w
  else
    match totalLines configs, selectedVoice configs with
    | Some total, Some voice =>
        if Z.ltb index 0 || Z.geb index total then
          (emit (onIsPlayingChange false) ;;
           emit (onBookCompleted (clock w))) w
        else if Z.geb index (Z.of_nat (List.length (lines configs))) then
          (pause ;;
           emit (onLoadMoreLines index)) w
        else
          (silent_play ;;
           setupMediaSession index configs ;;
           with_ms (ms_set_playbackState ps_playing) ;;
           (match vtype voice with
            | cloud => tts_stop ;; startCloudSpeech index configs
            | system => skip
            end) ;;
           (match vtype voice with
            | system => stopCloud ;; startSystemSpeech index configs
            | cloud => skip
            end)) w
    | _, _ => w
    end.

Definition start (index : Z) (configs : SpeechConfigs) : Cmd :=
  emit (onIsPlayingChange true) ;;
  play index configs.

(** The delay of the debounced resume, in milliseconds. *)
Definition RESUME_DELAY : N := 1000.

Definition resume (index : Z) (configs : SpeechConfigs) : Cmd :=
  clear_timer_field ;;
  pause ;;
  set_isRestarting true ;;
  setTimeout_into_timer (mkClosure index configs) RESUME_DELAY.

(* ------------------------------------------------------------------ *)
(** ** Callback bodies registered by the engine *)

(** [cloudAudio.onended] as set by [startCloudSpeech], and the [onEnd]
    argument of [ttsNative.speak]: the same body. *)
Definition on_line_ended (c : Closure) : Cmd :=
  let next := cl_index c + 1 in
  emit (onLineEnd next) ;;
  start next (cl_configs c).

(** [cloudAudio.onerror], installed by the constructor. *)
Definition cloud_onerror : Cmd := emit (onIsPlayingChange false).

(** The [catch] on [cloudAudio.play()]; [name] is [e.name]. *)
Definition cloud_play_catch (name : string) : Cmd :=
  if negb (String.eqb name "AbortError")
  then emit (ConsoleError "Cloud playback error:")
  else emit (ConsoleLog "Cloud playback was interrupted by a new request").

(** The [catch] on [silentAudio.play()]. *)
Definition silent_play_catch : Cmd := emit (ConsoleError "Audio play failed:").

(** The [onError] argument of [ttsNative.speak]. *)
Definition system_onError : Cmd := fun w =>
  if negb (isRestarting w) then emit (onIsPlayingChange false) w else w.

(** The callback given to [setTimeout] by [resume]. *)
Definition timer_callback (c : Closure) : Cmd :=
  play (cl_index c) (cl_configs c) ;;
  set_isRestarting false.

(** The media-session action handlers of [updateActionHandlers]. *)
Definition action_play (c : Closure) : Cmd := start (cl_index c) (cl_configs c).

Definition action_nexttrack (c : Closure) : Cmd :=
  let next := Z.min (cl_index c + 1) (Z.of_nat (List.length (lines (cl_configs c))) - 1) in
  emit (onLineEnd next) ;;
  resume next (cl_configs c).

Definition action_previoustrack (c : Closure) : Cmd :=
  let prev := Z.max (cl_index c - 1) 0 in
  emit (onLineEnd prev) ;;
  resume prev (cl_configs c).

(* ------------------------------------------------------------------ *)
(** ** The event loop

    Everything runs on one loop: between two public calls the platform may
    deliver an event to a handler the engine registered, or let time pass. *)

Inductive MediaSessionAction : Type :=
| act_play | act_pause | act_nexttrack | act_previoustrack.

Inductive Stimulus : Type :=
| call_start (index : Z) (configs : SpeechConfigs)
| call_pause
| call_stop
| call_resume (index : Z) (configs : SpeechConfigs)
| ev_cloud_ended
| ev_cloud_error
| ev_cloud_play_rejected (name : string)
| ev_silent_play_rejected
| ev_tts_end
| ev_tts_error
| ev_media_action (a : MediaSessionAction)
| ev_time (dt : N).

(** The cloud element is no longer playing. *)
Definition cloud_finished : Cmd := fun w =>
  let a := cloudAudio w in
  set_cloudAudio (mkCloud (src a) false (playbackRate a) (onended a)) w.

(** An ['ended'] event reaches the cloud element: the handler looked up is the
    one in the [onended] attribute at that moment.  No assumption is made on
    when the platform delivers it (it may be late). *)
Definition dispatch_cloud_ended : Cmd := fun w =>
  match onended (cloudAudio w) with
  | Some c => on_line_ended c (cloud_finished w)
  | None => cloud_finished w
  end.

(** Modelled from the spec: the on-device backend signals "end" or "error"
    for the utterance the adapter holds, once; the adapter then invokes the
    callback it was given with that utterance. *)
Definition dispatch_tts_end : Cmd := fun w =>
  match ttsNative w with
  | Some u => (set_ttsNative None ;; on_line_ended (u_closure u)) w
  | None => w
  end.

Definition dispatch_tts_error : Cmd := fun w =>
  match ttsNative w with
  | Some u => (set_ttsNative None ;; system_onError) w
  | None => w
  end.

Definition dispatch_media_action (a : MediaSessionAction) : Cmd := fun w =>
  match mediaSession w with
  | None => w
  | Some m =>
      match a with
      | act_play =>
          match h_play m with Some c => action_play c w | None => w end
      | act_pause => if h_pause m then pause w else w
      | act_nexttrack =>
          match h_nexttrack m with Some c => action_nexttrack c w | None => w end
      | act_previoustrack =>
          match h_previoustrack m with Some c => action_previoustrack c w | None => w end
      end
  end.

(** The first pending timer that is due at [target].  Timers are queued in
    creation order, which is due order: the delay is one constant. *)
Definition due_timer (target : N) (w : World) : option Timer :=
  find (fun t => (t_due t <=? target)%N) (pending w).

(** A timer fires: it leaves the queue, the clock stands at its due time, and
    its callback runs. *)
Definition fire (t : Timer) : Cmd :=
  clearTimeout (t_id t) ;;
  (fun w => set_clock (N.max (clock w) (t_due t)) w) ;;
  timer_callback (t_closure t).

Fixpoint run_due (fuel : nat) (target : N) (w : World) : World :=
  match fuel with
  | O => w
  | S k =>
      match due_timer target w with
      | Some t => run_due k target (fire t w)
      | None => w
      end
  end.

(** [dt] milliseconds pass. *)
Definition advance (dt : N) : Cmd := fun w =>
  let target := (clock w + dt)%N in
  set_clock target (run_due (List.length (pending w)) target w).

Definition step (s : Stimulus) : Cmd :=
  match s with
  | call_start i c => start i c
  | call_pause => pause
  | call_stop => stop
  | call_resume i c => resume i c
  | ev_cloud_ended => dispatch_cloud_ended
  | ev_cloud_error => cloud_onerror
  | ev_cloud_play_rejected name => cloud_play_catch name
  | ev_silent_play_rejected => silent_play_catch
  | ev_tts_end => dispatch_tts_end
  | ev_tts_error => dispatch_tts_error
  | ev_media_action a => dispatch_media_action a
  | ev_time dt => advance dt
  end.

Definition run (l : list Stimulus) (w : World) : World :=
  fold_left (fun acc s => step s acc) l w.

(** The state [getInstance] builds: nothing plays, no handler but [onerror]
    is installed, no timer exists.  [ms] is the platform's media session, or
    [None] where the browser has none. *)
Definition init (ms : option MediaSession) : World :=
  mkWorld false (mkCloud None false 1%Q None) None false None None ms [] 1%nat 0%N [].

Definition fresh_ms : MediaSession :=
  mkMs ps_none 0 true false None None false None None.

Definition reachable (w : World) : Prop :=
  exists ms l, w = run l (init ms).

(** Proofs go through the equations below, not through unfolding. *)
Arguments with_ms : simpl never.
Arguments clearTimeout : simpl never.
Arguments clear_timer_field : simpl never.
Arguments setTimeout_into_timer : simpl never.
Arguments silent_play : simpl never.
Arguments silent_pause : simpl never.
Arguments cloud_pause : simpl never.
Arguments cloud_set_src : simpl never.
Arguments cloud_set_playbackRate : simpl never.
Arguments cloud_set_onended : simpl never.
Arguments cloud_play : simpl never.
Arguments cloud_removeSrc : simpl never.
Arguments cloud_load : simpl never.
Arguments tts_stop : simpl never.
Arguments tts_speak : simpl never.
Arguments stopCloud : simpl never.
Arguments pause : simpl never.
Arguments clearMediaSession : simpl never.
Arguments stop : simpl never.
Arguments updateActionHandlers : simpl never.
Arguments setPositionState : simpl never.
Arguments setupMediaSession : simpl never.
Arguments startCloudSpeech : simpl never.
Arguments startSystemSpeech : simpl never.
Arguments play : simpl never.
Arguments start : simpl never.
Arguments resume : simpl never.
Arguments on_line_ended : simpl never.
Arguments cloud_onerror : simpl never.
Arguments cloud_play_catch : simpl never.
Arguments silent_play_catch : simpl never.
Arguments system_onError : simpl never.
Arguments timer_callback : simpl never.
Arguments action_play : simpl never.
Arguments action_nexttrack : simpl never.
Arguments action_previoustrack : simpl never.
Arguments dispatch_cloud_ended : simpl never.
Arguments dispatch_tts_end : simpl never.
Arguments dispatch_tts_error : simpl never.
Arguments dispatch_media_action : simpl never.
Arguments fire : simpl never.
Arguments run_due : simpl never.
Arguments advance : simpl never.

(** The part of the trace that [c] appends. *)
Definition emitted (c : Cmd) (w : World) : list Action :=
  skipn (List.length (trace w)) (trace (c w)).

Definition starts_adapter (a : Action) : bool :=
  match a with
  | CloudPlay => true
  | TtsSpeak _ _ _ => true
  | _ => false
  end.

Definition is_caller_event (a : Action) : bool :=
  match a with
  | onIsPlayingChange _ | onLineEnd _ | onLoadMoreLines _ | onBookCompleted _ => true
  | _ => false
  end.

(* ------------------------------------------------------------------ *)
(** ** Sample configurations (those of the unit tests) *)

Definition voice1 : VoiceOption := mkVoice system "voice1" "Voice 1" true.
Definition google1 : VoiceOption := mkVoice cloud "google-1" "Google Voice 1" true.

Definition ten_lines : list string :=
  ["Line 1"; "Line 2"; "Line 3"; "Line 4"; "Line 5";
   "Line 6"; "Line 7"; "Line 8"; "Line 9"; "Line 10"].

Definition mockConfigs : SpeechConfigs :=
  mkConfigs (Some "123") ten_lines "en-US" (Some 1%Q) (Some 10) (Some voice1).

Definition cloudConfigs : SpeechConfigs :=
  mkConfigs (Some "123") ten_lines "en-US" (Some 1%Q) (Some 10) (Some google1).

Definition w0 : World := init (Some fresh_ms).

Definition missingConfigs : SpeechConfigs :=
  mkConfigs None ten_lines "en-US" (Some 1%Q) (Some 10) (Some voice1).

Definition emptyBook : SpeechConfigs :=
  mkConfigs (Some "123") [] "en-US" (Some 1%Q) (Some 0) (Some voice1).

Definition noBookId : SpeechConfigs :=
  mkConfigs (Some "") ten_lines "en-US" (Some 1%Q) (Some 10) (Some voice1).

(** What [setupMediaSession] may write on the console: the [catch] around
    [setPositionState]. *)
Definition position_log (w : World) : list Action :=
  match mediaSession w with
  | Some m =>
      if ms_hasSetPositionState m && ms_setPositionState_throws m
      then [ConsoleError "Error updating position state:"]
      else []
  | None => []
  end.

(** The commands [play] sends to the two adapters for a loaded line. *)
Definition adapter_commands (index : Z) (configs : SpeechConfigs)
    (voice : VoiceOption) : list Action :=
  match vtype voice with
  | cloud =>
      [TtsStop; CloudPause; CloudSrc (cloudSrc index configs);
       CloudPlaybackRate (rate_or_default (rate configs));
       CloudOnended (Some (mkClosure index configs)); CloudPlay]
  | system =>
      [CloudPause; CloudOnended None; CloudRemoveSrc; CloudLoad;
       TtsSpeak (line_at configs index) (vid voice) (mkClosure index configs)]
  end.

(** What [pause] and [stopCloud] send. *)
Definition stopCloud_commands : list Action :=
  [CloudPause; CloudOnended None; CloudRemoveSrc; CloudLoad].

Definition pause_commands : list Action :=
  SilentPause :: stopCloud_commands ++ [TtsStop].

Definition is_lineEnd (a : Action) : bool :=
  match a with
  | onLineEnd _ => true
  | _ => false
  end.

(** The timer discipline of the engine: the queue holds at most one timer,
    it is the one [this.timer] names, and the restart guard is up. *)
Definition timer_inv (w : World) : Prop :=
  match pending w with
  | [] => True
  | [t] => timer w = Some (t_id t) /\ isRestarting w = true
  | _ :: _ :: _ => False
  end.

(* ------------------------------------------------------------------ *)
(** ** Vocabulary of the proofs *)

Definition keeps_sched (c : Cmd) : Prop :=
  forall w,
    pending (c w) = pending w /\ timer (c w) = timer w /\
    isRestarting (c w) = isRestarting w /\
    next_id (c w) = next_id w /\ clock (c w) = clock w.

Create HintDb sched.

(** After the timer field is cleared, what [pause] does next. *)
Definition pause_rest : Cmd :=
  silent_pause ;; stopCloud ;; tts_stop ;; with_ms (ms_set_playbackState ps_paused).

(** What [stop] does once the guard is down and the timer cleared. *)
Definition stop_rest : Cmd :=
  silent_pause ;; stopCloud ;; tts_stop ;;
  with_ms (ms_set_playbackState ps_none) ;; clearMediaSession ;;
  emit (onIsPlayingChange false).

Create Rewrite HintDb audio.

(** The adapters after [play] has dispatched a loaded line. *)
Definition cloud_after_play (index : Z) (configs : SpeechConfigs)
    (voice : VoiceOption) (before : CloudAudio) : CloudAudio :=
  match vtype voice with
  | cloud =>
      mkCloud (Some (cloudSrc index configs)) true
              (rate_or_default (rate configs)) (Some (mkClosure index configs))
  | system => mkCloud None false (playbackRate before) None
  end.

Definition tts_after_play (index : Z) (configs : SpeechConfigs)
    (voice : VoiceOption) : option Utterance :=
  match vtype voice with
  | cloud => None
  | system =>
      Some (mkUtterance (line_at configs index) (vid voice) (mkClosure index configs))
  end.

Definition partlyLoaded : SpeechConfigs :=
  mkConfigs (Some "123") ["Line 1"; "Line 2"] "en-US" (Some 1%Q) (Some 10) (Some voice1).

Definition otherBook : SpeechConfigs :=
  mkConfigs (Some "999") ten_lines "en-US" (Some 1%Q) (Some 10) (Some voice1).

(** A field of the media session, where the platform has one. *)
Definition ms_field {A : Type} (f : MediaSession -> A) (w : World) : option A :=
  option_map f (mediaSession w).

Definition is_speak (a : Action) : bool :=
  match a with
  | TtsSpeak _ _ _ => true
  | _ => false
  end.

(** Does every adapter start in [l] come after a write to the cloud element's
    [onended]?  [seen] tells whether such a write has been met already. *)
Fixpoint handler_set_before_start (seen : bool) (l : list Action) : bool :=
  match l with
  | [] => true
  | CloudOnended _ :: l' => handler_set_before_start true l'
  | a :: l' =>
      if starts_adapter a
      then seen && handler_set_before_start seen l'
      else handler_set_before_start seen l'
  end.

(** The completion event of the adapter that serves [voice]. *)
Definition natural_end (voice : VoiceOption) : Stimulus :=
  match vtype voice with
  | cloud => ev_cloud_ended
  | system => ev_tts_end
  end.

(** The failure signals an adapter can raise. *)
Definition is_failure (s : Stimulus) : bool :=
  match s with
  | ev_cloud_play_rejected _ | ev_cloud_error | ev_tts_error => true
  | _ => false
  end.

(* ------------------------------------------------------------------ *)
(** ** Vocabulary of the further properties *)

Create Rewrite HintDb silent.
Create Rewrite HintDb msdb.

(** At most one adapter is active, and the keep-alive cue runs under it. *)
Definition one_active (w : World) : Prop :=
  (playing (cloudAudio w) = true -> ttsNative w = None)
  /\ (playing (cloudAudio w) = true \/ ttsNative w <> None ->
      silentAudio w = true).

(** The media session [setupMediaSession] leaves behind: metadata rewritten
    when the book changed, position state set unless the platform lacks or
    refuses it, the four action handlers rebound. *)
Definition ms_after_setup (index : Z) (configs : SpeechConfigs)
    (cur : option string) (m : MediaSession) : MediaSession :=
  let m1 := if strict_neq cur (bookId configs) then ms_write_metadata m else m in
  let m2 :=
    if ms_hasSetPositionState m1 then
      if ms_setPositionState_throws m1 then m1
      else ms_set_positionState
             (mkPosition (totalLines configs) (rate_or_default (rate configs)) index) m1
    else m1 in
  ms_set_handlers (Some (mkClosure index configs)) true
                  (Some (mkClosure index configs)) (Some (mkClosure index configs)) m2.

(** What [stop] leaves of the media session. *)
Definition ms_after_stop (m : MediaSession) : MediaSession :=
  ms_set_handlers None false None None (ms_set_playbackState ps_none m).


(** Equality of two worlds but for what was traced. *)
Definition same_state (w w' : World) : Prop :=
  silentAudio w = silentAudio w' /\ cloudAudio w = cloudAudio w' /\
  ttsNative w = ttsNative w' /\ isRestarting w = isRestarting w' /\
  timer w = timer w' /\ currentBookId w = currentBookId w' /\
  mediaSession w = mediaSession w' /\ pending w = pending w' /\
  next_id w = next_id w' /\ clock w = clock w'.

(** [play index configs] gets as far as an adapter: the guard passes and the
    index names a loaded line of the book. *)
Definition playable (index : Z) (configs : SpeechConfigs) : bool :=
  negb (missing configs)
  && match totalLines configs with
     | Some total =>
         Z.leb 0 index && Z.ltb index total
         && Z.ltb index (Z.of_nat (List.length (lines configs)))
     | None => false
     end.

Definition cloudNoRate : SpeechConfigs :=
  mkConfigs (Some "123") ten_lines "en-US" None (Some 10) (Some google1).

(** A platform whose [setPositionState] throws. *)
Definition throwing_ms : MediaSession :=
  mkMs ps_none 0 true true None None false None None.

(** A command that only ever adds to the trace. *)
Definition appends (c : Cmd) : Prop :=
  forall w, exists l, trace (c w) = trace w ++ l.

Definition is_completed (a : Action) : bool :=
  match a with
  | onBookCompleted _ => true
  | _ => false
  end.

(** The line ends reported while reading [n] lines on from line [from]. *)
Definition line_ends (from : Z) (n : nat) : list Action :=
  map (fun d => onLineEnd (from + Z.of_nat d)) (List.seq 1%nat n).

(** A command that, on a platform without media session, leaves it absent
    and the cached book id alone. *)
Definition keeps_absent (c : Cmd) : Prop :=
  forall w, mediaSession w = None ->
    mediaSession (c w) = None /\ currentBookId (c w) = currentBookId w.

(* ------------------------------------------------------------------ *)
(** ** useDebounceCallback (client, common/useDebounceCallback.tsx)

    The hook keeps three refs: the handle of the pending timeout, the
    arguments of the latest call, and the latest callback.  [A] is the type of
    an argument tuple, [C] stands for a callback; a call
    [callbackRef.current(...args)] is recorded in [calls] as the pair of the
    callback and the arguments. *)

Record HTimer (A : Type) : Type := mkHTimer {
  ht_id : nat;
  ht_due : N;
  ht_args : A
}.
Arguments mkHTimer {A}.
Arguments ht_id {A}.
Arguments ht_due {A}.
Arguments ht_args {A}.

Record Hook (A C : Type) : Type := mkHook {
  timeoutRef : option nat;
  argsRef : option A;
  callbackRef : C;
  hk_pending : list (HTimer A);
  hk_next_id : nat;
  hk_clock : N;
  calls : list (C * A)
}.
Arguments mkHook {A C}.
Arguments timeoutRef {A C}.
Arguments argsRef {A C}.
Arguments callbackRef {A C}.
Arguments hk_pending {A C}.
Arguments hk_next_id {A C}.
Arguments hk_clock {A C}.
Arguments calls {A C}.

(** [delay = 2000] *)
Definition DEFAULT_DELAY : N := 2000.

(** The first render: [useRef(null)], [useRef(null)], [useRef(callback)]. *)
Definition useDebounceCallback {A C : Type} (callback : C) : Hook A C :=
  mkHook None None callback [] 1%nat 0%N [].

(** The effect [callbackRef.current = callback], run when the callback
    changes. *)
Definition rerender {A C : Type} (callback : C) (h : Hook A C) : Hook A C :=
  mkHook (timeoutRef h) (argsRef h) callback (hk_pending h)
         (hk_next_id h) (hk_clock h) (calls h).

Definition hk_clearTimeout {A C : Type} (id : nat) (h : Hook A C) : Hook A C :=
  mkHook (timeoutRef h) (argsRef h) (callbackRef h)
         (filter (fun t => negb (Nat.eqb (ht_id t) id)) (hk_pending h))
         (hk_next_id h) (hk_clock h) (calls h).

(** [callbackRef.current(...args)] *)
Definition invoke {A C : Type} (args : A) (h : Hook A C) : Hook A C :=
  mkHook (timeoutRef h) (argsRef h) (callbackRef h) (hk_pending h)
         (hk_next_id h) (hk_clock h) (calls h ++ [(callbackRef h, args)]).

Definition flush {A C : Type} (h : Hook A C) : Hook A C :=
  match timeoutRef h with
  | Some id =>
      let h1 := hk_clearTimeout id h in
      let h2 := mkHook None (argsRef h1) (callbackRef h1) (hk_pending h1)
                       (hk_next_id h1) (hk_clock h1) (calls h1) in
      match argsRef h2 with
      | Some args =>
          let h3 := invoke args h2 in
          mkHook (timeoutRef h3) None (callbackRef h3) (hk_pending h3)
                 (hk_next_id h3) (hk_clock h3) (calls h3)
      | None => h2
      end
  | None => h
  end.

(** [run]: the debounced function, for the delay the hook was rendered
    with. *)
Definition debouncedFn {A C : Type} (delay : N) (args : A) (h : Hook A C) : Hook A C :=
  let h1 := mkHook (timeoutRef h) (Some args) (callbackRef h) (hk_pending h)
                   (hk_next_id h) (hk_clock h) (calls h) in
  let h2 := match timeoutRef h1 with
            | Some id => hk_clearTimeout id h1
            | None => h1
            end in
  let id := hk_next_id h2 in
  mkHook (Some id) (argsRef h2) (callbackRef h2)
         (hk_pending h2 ++ [mkHTimer id (hk_clock h2 + delay)%N args])
         (S id) (hk_clock h2) (calls h2).

(** The timeout's callback: both refs are reset, then the latest callback is
    called with the arguments the closure captured. *)
Definition hk_timeout {A C : Type} (args : A) (h : Hook A C) : Hook A C :=
  invoke args
    (mkHook None None (callbackRef h) (hk_pending h)
            (hk_next_id h) (hk_clock h) (calls h)).

Definition hk_fire {A C : Type} (t : HTimer A) (h : Hook A C) : Hook A C :=
  let h1 := hk_clearTimeout (ht_id t) h in
  let h2 := mkHook (timeoutRef h1) (argsRef h1) (callbackRef h1) (hk_pending h1)
                   (hk_next_id h1) (N.max (hk_clock h1) (ht_due t)) (calls h1) in
  hk_timeout (ht_args t) h2.

Definition hk_due {A C : Type} (target : N) (h : Hook A C) : option (HTimer A) :=
  find (fun t => (ht_due t <=? target)%N) (hk_pending h).

Fixpoint hk_run_due {A C : Type} (fuel : nat) (target : N) (h : Hook A C) : Hook A C :=
  match fuel with
  | O => h
  | S k =>
      match hk_due target h with
      | Some t => hk_run_due k target (hk_fire t h)
      | None => h
      end
  end.

(** [dt] milliseconds pass. *)
Definition hk_advance {A C : Type} (dt : N) (h : Hook A C) : Hook A C :=
  let target := (hk_clock h + dt)%N in
  let h' := hk_run_due (List.length (hk_pending h)) target h in
  mkHook (timeoutRef h') (argsRef h') (callbackRef h') (hk_pending h')
         (hk_next_id h') target (calls h').

(** What can happen to a mounted hook. *)
Inductive HookEvent (A C : Type) : Type :=
| hk_run (delay : N) (args : A)
| hk_flush
| hk_rerender (callback : C)
| hk_time (dt : N).
Arguments hk_run {A C}.
Arguments hk_flush {A C}.
Arguments hk_rerender {A C}.
Arguments hk_time {A C}.

Definition hk_step {A C : Type} (e : HookEvent A C) (h : Hook A C) : Hook A C :=
  match e with
  | hk_run d a => debouncedFn d a h
  | hk_flush => flush h
  | hk_rerender cb => rerender cb h
  | hk_time dt => hk_advance dt h
  end.

Definition hk_runs {A C : Type} (l : list (HookEvent A C)) (h : Hook A C) : Hook A C :=
  fold_left (fun acc e => hk_step e acc) l h.

Definition hk_reachable {A C : Type} (h : Hook A C) : Prop :=
  exists cb l, h = hk_runs l (useDebounceCallback cb).

(** The refs agree with the timer queue: nothing pending and both refs
    [null], or one timer pending, named by [timeoutRef], whose arguments are
    the ones in [argsRef]. *)
Definition hk_inv {A C : Type} (h : Hook A C) : Prop :=
  match hk_pending h with
  | [] => timeoutRef h = None /\ argsRef h = None
  | [t] => timeoutRef h = Some (ht_id t) /\ argsRef h = Some (ht_args t)
  | _ :: _ :: _ => False
  end.

(** The arguments passed to the debounced function in a history. *)
Fixpoint requested {A C : Type} (l : list (HookEvent A C)) : list A :=
  match l with
  | [] => []
  | hk_run _ a :: l' => a :: requested l'
  | _ :: l' => requested l'
  end.

(** The hook with nothing pending, its callback called with [a]. *)
Definition settled {A C : Type} (h : Hook A C) (a : A) : Hook A C :=
  mkHook None None (callbackRef h) [] (hk_next_id h) (hk_clock h)
         (calls h ++ [(callbackRef h, a)]).

Definition at_time {A C : Type} (t : N) (h : Hook A C) : Hook A C :=
  mkHook (timeoutRef h) (argsRef h) (callbackRef h) (hk_pending h)
         (hk_next_id h) t (calls h).

(** The accounting of a history: [L] lists the arguments requested so far. *)
Definition accounted {A C : Type} (h : Hook A C) (L : list A) : Prop :=
  hk_inv h
  /\ (List.length (calls h) + List.length (hk_pending h) <= List.length L)%nat
  /\ (forall c a, In (c, a) (calls h) -> In a L)
  /\ (forall t, In t (hk_pending h) -> In (ht_args t) L).

(* ------------------------------------------------------------------ *)
(** ** The reader page (web, pages/BookReader.tsx) *)

(** A bookmark as [toggleBookmark] builds it: [{ index, text }]. *)
Record BookMark : Type := mkBookMark {
  bm_index : Z;
  bm_text : string
}.

Definition BOOKMARK_TEXT_LIMIT : nat := 20.

(** [text.length > LIMIT ? text.slice(0, LIMIT) + '...' : text] *)
Definition truncatedText (text : string) : string :=
  if Nat.ltb BOOKMARK_TEXT_LIMIT (String.length text)
  then (substring 0 BOOKMARK_TEXT_LIMIT text ++ "...")%string
  else text.

(** [Array.prototype.sort] with the comparator [a.index - b.index].  The
    sort is stable, which fixes its result: it is the one of this insertion
    sort, where an element goes in front of the first one that is not
    smaller. *)
Fixpoint insert_bookmark (b : BookMark) (l : list BookMark) : list BookMark :=
  match l with
  | [] => [b]
  | x :: l' =>
      if Z.leb (bm_index b) (bm_index x) then b :: x :: l'
      else x :: insert_bookmark b l'
  end.

Definition sort_bookmarks (l : list BookMark) : list BookMark :=
  fold_right insert_bookmark [] l.

(** The state update of [toggleBookmark(index, text)], applied to the
    previous list. *)
Definition toggleBookmark (index : Z) (text : string) (prev : list BookMark)
    : list BookMark :=
  match find (fun b => Z.eqb (bm_index b) index) prev with
  | Some _ => filter (fun b => negb (Z.eqb (bm_index b) index)) prev
  | None => sort_bookmarks (prev ++ [mkBookMark index (truncatedText text)])
  end.

(** [bookmarks.some((b) => b.index === index)] *)
Definition isBookmarked (index : Z) (l : list BookMark) : bool :=
  existsb (fun b => Z.eqb (bm_index b) index) l.

(** Bookmarks in increasing order of line, one per line at most. *)
Definition ordered (l : list BookMark) : Prop :=
  StronglySorted (fun a b => bm_index a < bm_index b) l.

Definition VOICE_FALLBACK : VoiceOption :=
  mkVoice system "system-default" "System (Browser)" true.

Definition CLOUD_VOICE : VoiceOption :=
  mkVoice cloud "google-neural2" "Google AI (Neural2)" true.

(** [availableVoices], from the names of the voices the on-device adapter
    reports for the language. *)
Definition availableVoices (nativeVoices : list string) : list VoiceOption :=
  let nativeOptions := map (fun name => mkVoice system name name true) nativeVoices in
  let cloudOptions := [CLOUD_VOICE] in
  (if Nat.ltb 0 (List.length nativeOptions) then nativeOptions else [VOICE_FALLBACK])
  ++ cloudOptions.

(** The effect that applies the saved voice: the selection after it ran. *)
Definition restoreVoice (voice : option string) (available : list VoiceOption)
    (selected : VoiceOption) : VoiceOption :=
  if negb (truthy_string voice) || Nat.leb (List.length available) 2 then selected
  else
    match find (fun v => String.eqb (vid v) (template voice)) available with
    | Some found => found
    | None => selected
    end.







(** Bookmarks in non-decreasing order of line. *)
Definition le_sorted (l : list BookMark) : Prop :=
  StronglySorted (fun a b => bm_index a <= bm_index b) l.

(* ------------------------------------------------------------------ *)
(** ** The repository's unit tests of the service, replayed on the model *)

(** 'should play silent audio and system audio when starting' *)
Example test_start_system :
  trace (start 0 mockConfigs w0) =
    [onIsPlayingChange true; SilentPlay;
     CloudPause; CloudOnended None; CloudRemoveSrc; CloudLoad;
     TtsSpeak (Some "Line 1") "voice1" (mkClosure 0 mockConfigs)].
Proof. vm_compute; reflexivity. Qed.

(** 'should reuse cloud audio instance and update src when voice type is cloud' *)
Example test_start_cloud :
  src (cloudAudio (start 0 cloudConfigs w0)) =
    Some "/api/books/123/audio/0?voice=google-1"
  /\ playing (cloudAudio (start 0 cloudConfigs w0)) = true.
Proof. vm_compute; split; reflexivity. Qed.

(** 'should only update MediaMetadata when bookId changes' *)
Example test_metadata_once_per_book :
  ms_field ms_metadata_writes (start 0 mockConfigs w0) = Some 1%nat
  /\ ms_field ms_metadata_writes
       (start 1 mockConfigs (start 0 mockConfigs w0)) = Some 1%nat
  /\ ms_field ms_metadata_writes
       (start 0 otherBook (start 1 mockConfigs (start 0 mockConfigs w0)))
     = Some 2%nat.
Proof. vm_compute; repeat split. Qed.

(** 'should update setPositionState on every play' *)
Example test_position_state :
  ms_field ms_positionState (start 5 mockConfigs w0) =
    Some (Some (mkPosition (Some 10) 1%Q 5)).
Proof. vm_compute; reflexivity. Qed.

(** 'should unload cloud audio correctly in stopCloud' *)
Example test_stop_unloads_cloud :
  cloudAudio (stop (start 0 cloudConfigs w0)) = mkCloud None false 1%Q None
  /\ emitted stop (start 0 cloudConfigs w0) =
       [SilentPause; CloudPause; CloudOnended None; CloudRemoveSrc; CloudLoad;
        TtsStop; onIsPlayingChange false].
Proof. vm_compute; split; reflexivity. Qed.

(** 'should debounce play calls via resume with a timer' *)
Example test_resume_debounced :
  existsb is_speak (trace (resume 1 mockConfigs w0)) = false
  /\ existsb is_speak (trace (advance 999 (resume 1 mockConfigs w0))) = false
  /\ existsb is_speak (trace (advance 1000 (resume 1 mockConfigs w0))) = true.
Proof. vm_compute; repeat split. Qed.

(** Switching from a cloud voice to a system voice in mid-playback through
    [resume]: the cloud element is unloaded at once, and again by the
    scheduled [play] before the on-device adapter speaks. *)
Example scenario_switch_cloud_to_system :
  emitted (resume 0 mockConfigs) (start 0 cloudConfigs w0) =
    [SilentPause; CloudPause; CloudOnended None; CloudRemoveSrc; CloudLoad; TtsStop]
  /\ src (cloudAudio (resume 0 mockConfigs (start 0 cloudConfigs w0))) = None
  /\ emitted (advance 1000) (resume 0 mockConfigs (start 0 cloudConfigs w0)) =
       [SilentPlay; CloudPause; CloudOnended None; CloudRemoveSrc; CloudLoad;
        TtsSpeak (Some "Line 1") "voice1" (mkClosure 0 mockConfigs)].
Proof. vm_compute; repeat split. Qed.

(** The last line of a ten-line book read by a system voice. *)
Example scenario_last_line :
  trace (run [call_start 9 mockConfigs; ev_tts_end] w0) =
    [onIsPlayingChange true; SilentPlay;
     CloudPause; CloudOnended None; CloudRemoveSrc; CloudLoad;
     TtsSpeak (Some "Line 10") "voice1" (mkClosure 9 mockConfigs);
     onLineEnd 10; onIsPlayingChange true; onIsPlayingChange false;
     onBookCompleted 0].
Proof. vm_compute; reflexivity. Qed.

(** Two [resume] calls half a second apart: one [play], for the second. *)
Example scenario_resume_twice :
  filter is_speak
    (trace (run [call_resume 1 mockConfigs; ev_time 500;
                 call_resume 2 mockConfigs; ev_time 5000] w0)) =
    [TtsSpeak (Some "Line 3") "voice1" (mkClosure 2 mockConfigs)].
Proof. vm_compute; reflexivity. Qed.

(* ------------------------------------------------------------------ *)
(** ** Traces *)

Lemma skipn_length_app {A : Type} (l1 l2 : list A) :
  skipn (List.length l1) (l1 ++ l2) = l2.
Proof. induction l1 as [|x l1 IH]; simpl; auto. Qed.

Lemma emitted_of_trace (c : Cmd) (w : World) (l : list Action) :
  trace (c w) = trace w ++ l -> emitted c w = l.
Proof. unfold emitted; intros ->; apply skipn_length_app. Qed.

Lemma emitted_nil (c : Cmd) (w : World) :
  trace (c w) = trace w -> emitted c w = [].
Proof. intros H; apply emitted_of_trace; now rewrite app_nil_r. Qed.

Lemma trace_emit (a : Action) (w : World) : trace (emit a w) = trace w ++ [a].
Proof. reflexivity. Qed.

Lemma emitted_emit (a : Action) (w : World) : emitted (emit a) w = [a].
Proof. now apply emitted_of_trace. Qed.

Lemma trace_with_ms (f : MediaSession -> MediaSession) (w : World) :
  trace (with_ms f w) = trace w.
Proof. unfold with_ms; destruct (mediaSession w); reflexivity. Qed.

Lemma trace_clear_timer_field (w : World) : trace (clear_timer_field w) = trace w.
Proof. unfold clear_timer_field; destruct (timer w); reflexivity. Qed.

Lemma trace_stopCloud (w : World) :
  trace (stopCloud w) = trace w ++ stopCloud_commands.
Proof.
  unfold stopCloud, stopCloud_commands, seq; simpl.
  now rewrite <- !app_assoc.
Qed.

Lemma trace_pause (w : World) : trace (pause w) = trace w ++ pause_commands.
Proof.
  unfold pause, pause_commands, seq.
  rewrite trace_with_ms; unfold tts_stop, seq; simpl.
  rewrite trace_clear_timer_field.
  now rewrite <- !app_assoc.
Qed.

Lemma trace_stop (w : World) :
  trace (stop w) = trace w ++ pause_commands ++ [onIsPlayingChange false].
Proof.
  unfold stop, clearMediaSession, pause_commands, seq.
  rewrite trace_emit, !trace_with_ms; unfold tts_stop, seq; simpl.
  rewrite trace_clear_timer_field; simpl.
  now rewrite <- !app_assoc.
Qed.

(* ------------------------------------------------------------------ *)
(** ** The guard of [play] *)

Lemma play_missing (index : Z) (configs : SpeechConfigs) (w : World) :
  missing configs = true -> play index configs w = w.
Proof. unfold play; now intros ->. Qed.

Lemma missing_false_inv (configs : SpeechConfigs) :
  missing configs = false ->
  exists b total voice,
    bookId configs = Some b /\ b <> "" /\
    totalLines configs = Some total /\ total <> 0 /\
    selectedVoice configs = Some voice.
Proof.
  unfold missing; intros H.
  apply orb_false_iff in H as [H Hv]; apply orb_false_iff in H as [Hb Ht].
  apply negb_false_iff in Hb, Ht, Hv.
  destruct (bookId configs) as [b|] eqn:Eb; simpl in Hb; try discriminate.
  destruct (totalLines configs) as [t|] eqn:Et; simpl in Ht; try discriminate.
  destruct (selectedVoice configs) as [v|] eqn:Ev; simpl in Hv; try discriminate.
  exists b, t, v; repeat split; trivial.
  - apply negb_true_iff, String.eqb_neq in Hb; exact Hb.
  - apply negb_true_iff, Z.eqb_neq in Ht; exact Ht.
Qed.

Lemma play_end_of_book (index : Z) (configs : SpeechConfigs) (total : Z) (w : World) :
  missing configs = false ->
  totalLines configs = Some total ->
  index < 0 \/ index >= total ->
  play index configs w =
    emit (onBookCompleted (clock w)) (emit (onIsPlayingChange false) w).
Proof.
  intros Hm Ht Hi.
  destruct (missing_false_inv _ Hm) as (b & t & v & _ & _ & Ht' & _ & Hv).
  unfold play; rewrite Hm, Ht, Hv.
  replace (Z.ltb index 0 || Z.geb index total) with true; [reflexivity|].
  symmetry; apply orb_true_iff.
  destruct Hi as [Hi|Hi]; [left; now apply Z.ltb_lt | right; rewrite Z.geb_leb; apply Z.leb_le; lia].
Qed.

(* ------------------------------------------------------------------ *)
(** ** The three outcomes of [play] past the guard *)

Lemma trace_setupMediaSession (index : Z) (configs : SpeechConfigs) (w : World) :
  trace (setupMediaSession index configs w) = trace w ++ position_log w.
Proof.
  unfold setupMediaSession, position_log.
  destruct (mediaSession w) as [m|] eqn:Em; [|now rewrite app_nil_r].
  unfold seq, updateActionHandlers; rewrite trace_with_ms.
  unfold setPositionState.
  destruct (strict_neq (currentBookId w) (bookId configs));
    unfold seq, skip, with_ms; simpl; rewrite ?Em; simpl;
    destruct (ms_hasSetPositionState m), (ms_setPositionState_throws m);
    simpl; rewrite ?app_nil_r; reflexivity.
Qed.

Lemma play_loaded_line_trace (index : Z) (configs : SpeechConfigs)
    (total : Z) (voice : VoiceOption) (w : World) :
  missing configs = false ->
  totalLines configs = Some total ->
  selectedVoice configs = Some voice ->
  0 <= index < total ->
  index < Z.of_nat (List.length (lines configs)) ->
  trace (play index configs w) =
    trace w ++ SilentPlay :: position_log w ++ adapter_commands index configs voice.
Proof.
  intros Hm Ht Hv Hi Hl.
  unfold play; rewrite Hm, Ht, Hv.
  replace (Z.ltb index 0 || Z.geb index total) with false
    by (symmetry; apply orb_false_iff; split;
        [apply Z.ltb_ge; lia | rewrite Z.geb_leb; apply Z.leb_gt; lia]).
  replace (Z.geb index (Z.of_nat (List.length (lines configs)))) with false
    by (symmetry; rewrite Z.geb_leb; apply Z.leb_gt; lia).
  unfold adapter_commands, voice_id.
  destruct (vtype voice) eqn:Ety; unfold seq, skip.
  - unfold startSystemSpeech, tts_speak, seq, voice_id; rewrite Hv; simpl.
    rewrite trace_with_ms, trace_setupMediaSession.
    unfold position_log; simpl; rewrite <- !app_assoc; reflexivity.
  - unfold startCloudSpeech, tts_stop, seq; simpl.
    rewrite trace_with_ms, trace_setupMediaSession.
    unfold position_log; simpl; rewrite <- !app_assoc; reflexivity.
Qed.

Lemma play_loading_gap (index : Z) (configs : SpeechConfigs) (total : Z) (w : World) :
  missing configs = false ->
  totalLines configs = Some total ->
  0 <= index < total ->
  index >= Z.of_nat (List.length (lines configs)) ->
  play index configs w = emit (onLoadMoreLines index) (pause w).
Proof.
  intros Hm Ht Hi Hl.
  destruct (missing_false_inv _ Hm) as (b & t & v & _ & _ & _ & _ & Hv).
  unfold play; rewrite Hm, Ht, Hv.
  replace (Z.ltb index 0 || Z.geb index total) with false
    by (symmetry; apply orb_false_iff; split;
        [apply Z.ltb_ge; lia | rewrite Z.geb_leb; apply Z.leb_gt; lia]).
  replace (Z.geb index (Z.of_nat (List.length (lines configs)))) with true
    by (symmetry; rewrite Z.geb_leb; apply Z.leb_le; lia).
  reflexivity.
Qed.

(** Whatever the arguments, [play] only appends to the trace. *)
Lemma play_extends_trace (index : Z) (configs : SpeechConfigs) (w : World) :
  exists l, trace (play index configs w) = trace w ++ l.
Proof.
  destruct (missing configs) eqn:Hm.
  - exists []; rewrite play_missing by assumption; now rewrite app_nil_r.
  - destruct (missing_false_inv _ Hm) as (b & total & v & _ & _ & Ht & _ & Hv).
    destruct (Z_lt_ge_dec index 0) as [Hneg|Hpos].
    + eexists; rewrite (play_end_of_book index configs total) by auto.
      simpl; rewrite <- app_assoc; reflexivity.
    + destruct (Z_lt_ge_dec index total) as [Hin|Hout].
      * destruct (Z_lt_ge_dec index (Z.of_nat (List.length (lines configs)))) as [Hld|Hgap].
        -- eexists; apply (play_loaded_line_trace index configs total v); auto; lia.
        -- eexists; rewrite (play_loading_gap index configs total) by (auto; lia).
           rewrite trace_emit, trace_pause, <- app_assoc; reflexivity.
      * eexists; rewrite (play_end_of_book index configs total) by auto.
        simpl; rewrite <- app_assoc; reflexivity.
Qed.

(* ------------------------------------------------------------------ *)
(** ** Scheduling fields

    Most commands leave the timer queue, the [timer] field, the restart guard
    and the clock alone. *)

Lemma keeps_pending (c : Cmd) (w : World) :
  keeps_sched c -> pending (c w) = pending w.
Proof. intros H; apply (H w). Qed.

Lemma keeps_clock (c : Cmd) (w : World) :
  keeps_sched c -> clock (c w) = clock w.
Proof. intros H; apply (H w). Qed.

Lemma trace_set_clock (t : N) (w : World) : trace (set_clock t w) = trace w.
Proof. reflexivity. Qed.

Lemma keeps_seq (c1 c2 : Cmd) :
  keeps_sched c1 -> keeps_sched c2 -> keeps_sched (c1 ;; c2).
Proof.
  intros H1 H2 w; unfold seq.
  destruct (H1 w) as (a1 & b1 & d1 & e1 & f1).
  destruct (H2 (c1 w)) as (a2 & b2 & d2 & e2 & f2).
  repeat split; congruence.
Qed.

Lemma keeps_skip : keeps_sched skip.
Proof. intro w; repeat split. Qed.

Lemma keeps_emit (a : Action) : keeps_sched (emit a).
Proof. intro w; repeat split. Qed.

Lemma keeps_set_silentAudio (b : bool) : keeps_sched (set_silentAudio b).
Proof. intro w; repeat split. Qed.

Lemma keeps_set_ttsNative (u : option Utterance) : keeps_sched (set_ttsNative u).
Proof. intro w; repeat split. Qed.

Lemma keeps_set_currentBookId (b : option string) : keeps_sched (set_currentBookId b).
Proof. intro w; repeat split. Qed.

Lemma keeps_with_ms (f : MediaSession -> MediaSession) : keeps_sched (with_ms f).
Proof. intro w; unfold with_ms; destruct (mediaSession w); repeat split. Qed.

Lemma keeps_cloud_pause : keeps_sched cloud_pause.
Proof. intro w; repeat split. Qed.

Lemma keeps_cloud_set_src (u : string) : keeps_sched (cloud_set_src u).
Proof. intro w; repeat split. Qed.

Lemma keeps_cloud_set_playbackRate (r : Q) : keeps_sched (cloud_set_playbackRate r).
Proof. intro w; repeat split. Qed.

Lemma keeps_cloud_set_onended (h : option Closure) : keeps_sched (cloud_set_onended h).
Proof. intro w; repeat split. Qed.

Lemma keeps_cloud_play : keeps_sched cloud_play.
Proof. intro w; repeat split. Qed.

Lemma keeps_cloud_removeSrc : keeps_sched cloud_removeSrc.
Proof. intro w; repeat split. Qed.

Lemma keeps_cloud_load : keeps_sched cloud_load.
Proof. intro w; repeat split. Qed.

#[export] Hint Resolve keeps_seq keeps_skip keeps_emit keeps_set_silentAudio
  keeps_set_ttsNative keeps_set_currentBookId keeps_with_ms keeps_cloud_pause
  keeps_cloud_set_src keeps_cloud_set_playbackRate keeps_cloud_set_onended
  keeps_cloud_play keeps_cloud_removeSrc keeps_cloud_load : sched.

Lemma keeps_stopCloud : keeps_sched stopCloud.
Proof. unfold stopCloud; auto 10 with sched. Qed.

Lemma keeps_tts_stop : keeps_sched tts_stop.
Proof. unfold tts_stop; auto with sched. Qed.

Lemma keeps_tts_speak t v c : keeps_sched (tts_speak t v c).
Proof. unfold tts_speak; auto with sched. Qed.

Lemma keeps_silent_play : keeps_sched silent_play.
Proof. unfold silent_play; auto with sched. Qed.

Lemma keeps_silent_pause : keeps_sched silent_pause.
Proof. unfold silent_pause; auto with sched. Qed.

#[export] Hint Resolve keeps_stopCloud keeps_tts_stop keeps_tts_speak
  keeps_silent_play keeps_silent_pause : sched.

Lemma keeps_setPositionState i c : keeps_sched (setPositionState i c).
Proof.
  intro w; unfold setPositionState.
  destruct (mediaSession w) as [m|] eqn:Em; [|repeat split].
  destruct (ms_hasSetPositionState m); [|repeat split].
  destruct (ms_setPositionState_throws m); [repeat split|].
  apply keeps_with_ms.
Qed.

Lemma keeps_updateActionHandlers i c : keeps_sched (updateActionHandlers i c).
Proof. unfold updateActionHandlers; auto with sched. Qed.

#[export] Hint Resolve keeps_setPositionState keeps_updateActionHandlers : sched.

Lemma keeps_setupMediaSession i c : keeps_sched (setupMediaSession i c).
Proof.
  intro w; unfold setupMediaSession.
  destruct (mediaSession w); [|repeat split].
  destruct (strict_neq (currentBookId w) (bookId c));
    apply keeps_seq; auto 10 with sched.
Qed.

Lemma keeps_startCloudSpeech i c : keeps_sched (startCloudSpeech i c).
Proof. unfold startCloudSpeech; auto 10 with sched. Qed.

Lemma keeps_startSystemSpeech i c : keeps_sched (startSystemSpeech i c).
Proof. unfold startSystemSpeech; auto with sched. Qed.

Lemma keeps_clearMediaSession : keeps_sched clearMediaSession.
Proof. unfold clearMediaSession; auto with sched. Qed.

#[export] Hint Resolve keeps_setupMediaSession keeps_startCloudSpeech
  keeps_startSystemSpeech keeps_clearMediaSession : sched.

Lemma keeps_pause_rest : keeps_sched pause_rest.
Proof. unfold pause_rest; auto 10 with sched. Qed.

Lemma pause_unfold (w : World) : pause w = pause_rest (clear_timer_field w).
Proof. unfold pause, pause_rest, seq; reflexivity. Qed.

Lemma clear_timer_field_fields (w : World) :
  timer (clear_timer_field w) = timer w /\
  isRestarting (clear_timer_field w) = isRestarting w /\
  next_id (clear_timer_field w) = next_id w /\
  clock (clear_timer_field w) = clock w.
Proof.
  unfold clear_timer_field; destruct (timer w) eqn:E; simpl; rewrite ?E;
    repeat split.
Qed.

Lemma clear_timer_field_inv (w : World) :
  timer_inv w -> pending (clear_timer_field w) = [].
Proof.
  unfold timer_inv, clear_timer_field.
  destruct (pending w) as [|t [|t' l]] eqn:Ep.
  - intros _; destruct (timer w); simpl; now rewrite ?Ep.
  - intros [Ht _]; rewrite Ht; simpl; rewrite Ep; simpl.
    now rewrite Nat.eqb_refl.
  - intros [].
Qed.

Lemma clear_timer_field_nil (w : World) :
  pending w = [] -> pending (clear_timer_field w) = [].
Proof.
  intros Ep; unfold clear_timer_field; destruct (timer w); simpl; now rewrite ?Ep.
Qed.

Lemma timer_inv_nil (w : World) : pending w = [] -> timer_inv w.
Proof. unfold timer_inv; now intros ->. Qed.

Lemma timer_inv_same (w w' : World) :
  pending w' = pending w -> timer w' = timer w ->
  isRestarting w' = isRestarting w ->
  timer_inv w -> timer_inv w'.
Proof. unfold timer_inv; now intros -> -> ->. Qed.

Lemma timer_inv_keeps (c : Cmd) (w : World) :
  keeps_sched c -> timer_inv w -> timer_inv (c w).
Proof.
  intros H; destruct (H w) as (a & b & d & _); now apply timer_inv_same.
Qed.

Lemma pause_pending (w : World) : timer_inv w -> pending (pause w) = [].
Proof.
  intros Hi; rewrite pause_unfold.
  destruct (keeps_pause_rest (clear_timer_field w)) as (-> & _).
  now apply clear_timer_field_inv.
Qed.

Lemma pause_fields (w : World) :
  timer (pause w) = timer w /\ isRestarting (pause w) = isRestarting w /\
  next_id (pause w) = next_id w /\ clock (pause w) = clock w.
Proof.
  rewrite pause_unfold.
  destruct (keeps_pause_rest (clear_timer_field w)) as (_ & -> & -> & -> & ->).
  apply clear_timer_field_fields.
Qed.

Lemma keeps_dispatch (i : Z) (c : SpeechConfigs) (voice : VoiceOption) :
  keeps_sched
    (silent_play ;;
     setupMediaSession i c ;;
     with_ms (ms_set_playbackState ps_playing) ;;
     (match vtype voice with
      | cloud => tts_stop ;; startCloudSpeech i c
      | system => skip
      end) ;;
     (match vtype voice with
      | system => stopCloud ;; startSystemSpeech i c
      | cloud => skip
      end)).
Proof. destruct (vtype voice); auto 12 with sched. Qed.

(** [play] never creates a timer and never touches the guard: the queue is
    left as it was, or emptied of the timer [this.timer] names. *)
Lemma play_sched (i : Z) (c : SpeechConfigs) (w : World) :
  timer (play i c w) = timer w /\
  isRestarting (play i c w) = isRestarting w /\
  next_id (play i c w) = next_id w /\
  clock (play i c w) = clock w /\
  (pending (play i c w) = pending w \/
   pending (play i c w) = pending (clear_timer_field w)).
Proof.
  unfold play.
  destruct (missing c); [repeat split; now left|].
  destruct (totalLines c) as [total|]; [|repeat split; now left].
  destruct (selectedVoice c) as [voice|]; [|repeat split; now left].
  destruct (Z.ltb i 0 || Z.geb i total); [repeat split; now left|].
  destruct (Z.geb i (Z.of_nat (List.length (lines c)))).
  - unfold seq.
    destruct (keeps_emit (onLoadMoreLines i) (pause w)) as (-> & -> & -> & -> & ->).
    destruct (pause_fields w) as (-> & -> & -> & ->).
    repeat split; right.
    rewrite pause_unfold.
    now destruct (keeps_pause_rest (clear_timer_field w)) as (-> & _).
  - destruct (keeps_dispatch i c voice w) as (-> & -> & -> & -> & ->).
    repeat split; now left.
Qed.

Lemma timer_inv_play (i : Z) (c : SpeechConfigs) (w : World) :
  timer_inv w -> timer_inv (play i c w).
Proof.
  intros Hi.
  destruct (play_sched i c w) as (Ht & Hr & _ & _ & [Hp|Hp]).
  - now apply (timer_inv_same w).
  - apply timer_inv_nil; rewrite Hp; now apply clear_timer_field_inv.
Qed.

Lemma timer_inv_start (i : Z) (c : SpeechConfigs) (w : World) :
  timer_inv w -> timer_inv (start i c w).
Proof. intros Hi; unfold start, seq; now apply timer_inv_play. Qed.

Lemma timer_inv_pause (w : World) : timer_inv w -> timer_inv (pause w).
Proof. intros Hi; now apply timer_inv_nil, pause_pending. Qed.

Lemma keeps_stop_rest : keeps_sched stop_rest.
Proof. unfold stop_rest; auto 12 with sched. Qed.

Lemma stop_unfold (w : World) :
  stop w = stop_rest (clear_timer_field (set_isRestarting false w)).
Proof. unfold stop, stop_rest, seq; reflexivity. Qed.

Lemma stop_sched (w : World) :
  timer_inv w -> pending (stop w) = [] /\ isRestarting (stop w) = false.
Proof.
  intros Hi; rewrite stop_unfold.
  destruct (keeps_stop_rest (clear_timer_field (set_isRestarting false w)))
    as (-> & _ & -> & _).
  split.
  - unfold timer_inv in Hi; unfold clear_timer_field; simpl.
    destruct (pending w) as [|t [|t' l]] eqn:Ep.
    + destruct (timer w); simpl; now rewrite ?Ep.
    + destruct Hi as [-> _]; simpl; rewrite Ep; simpl.
      now rewrite Nat.eqb_refl.
    + destruct Hi.
  - now destruct (clear_timer_field_fields (set_isRestarting false w)) as (_ & -> & _).
Qed.

Lemma timer_inv_stop (w : World) : timer_inv w -> timer_inv (stop w).
Proof. intros Hi; apply timer_inv_nil; now apply stop_sched. Qed.

Lemma resume_unfold (i : Z) (c : SpeechConfigs) (w : World) :
  resume i c w =
    setTimeout_into_timer (mkClosure i c) RESUME_DELAY
      (set_isRestarting true (pause (clear_timer_field w))).
Proof. unfold resume, seq; reflexivity. Qed.

Lemma setTimeout_into_timer_fields (c : Closure) (d : N) (w : World) :
  pending (setTimeout_into_timer c d w) =
    pending w ++ [mkTimer (next_id w) (clock w + d) c] /\
  timer (setTimeout_into_timer c d w) = Some (next_id w) /\
  isRestarting (setTimeout_into_timer c d w) = isRestarting w /\
  next_id (setTimeout_into_timer c d w) = S (next_id w) /\
  clock (setTimeout_into_timer c d w) = clock w.
Proof. repeat split. Qed.

Lemma set_isRestarting_fields (b : bool) (w : World) :
  pending (set_isRestarting b w) = pending w /\
  timer (set_isRestarting b w) = timer w /\
  isRestarting (set_isRestarting b w) = b /\
  next_id (set_isRestarting b w) = next_id w /\
  clock (set_isRestarting b w) = clock w.
Proof. repeat split. Qed.

(** After [resume] exactly the new timer is pending, due one delay from now. *)
Lemma resume_sched (i : Z) (c : SpeechConfigs) (w : World) :
  timer_inv w ->
  pending (resume i c w) =
    [mkTimer (next_id w) (clock w + RESUME_DELAY) (mkClosure i c)] /\
  timer (resume i c w) = Some (next_id w) /\
  isRestarting (resume i c w) = true /\
  next_id (resume i c w) = S (next_id w) /\
  clock (resume i c w) = clock w.
Proof.
  intros Hi; rewrite resume_unfold.
  assert (Hp : pending (pause (clear_timer_field w)) = []).
  { apply pause_pending, timer_inv_nil; now apply clear_timer_field_inv. }
  destruct (pause_fields (clear_timer_field w)) as (_ & _ & Hn & Hc).
  destruct (clear_timer_field_fields w) as (_ & _ & Hn' & Hc').
  match goal with |- context [setTimeout_into_timer ?a ?d ?x] =>
    destruct (setTimeout_into_timer_fields a d x) as (-> & -> & -> & -> & ->) end.
  match goal with |- context [set_isRestarting ?b ?x] =>
    destruct (set_isRestarting_fields b x) as (-> & _ & -> & -> & ->) end.
  rewrite Hp, Hn, Hc, Hn', Hc'; repeat split.
Qed.

Lemma timer_inv_resume (i : Z) (c : SpeechConfigs) (w : World) :
  timer_inv w -> timer_inv (resume i c w).
Proof.
  intros Hi; destruct (resume_sched i c w Hi) as (Hp & Ht & Hr & _).
  unfold timer_inv; rewrite Hp; split; [exact Ht | exact Hr].
Qed.

Lemma timer_inv_on_line_ended (c : Closure) (w : World) :
  timer_inv w -> timer_inv (on_line_ended c w).
Proof.
  intros Hi; unfold on_line_ended, seq.
  apply timer_inv_start; now apply (timer_inv_keeps (emit _)); auto with sched.
Qed.

Lemma timer_inv_media_action (a : MediaSessionAction) (w : World) :
  timer_inv w -> timer_inv (dispatch_media_action a w).
Proof.
  intros Hi; unfold dispatch_media_action.
  destruct (mediaSession w) as [m|]; [|assumption].
  destruct a.
  - destruct (h_play m); [|assumption]. now apply timer_inv_start.
  - destruct (h_pause m); [|assumption]. now apply timer_inv_pause.
  - destruct (h_nexttrack m); [|assumption].
    unfold action_nexttrack, seq; apply timer_inv_resume.
    now apply (timer_inv_keeps (emit _)); auto with sched.
  - destruct (h_previoustrack m); [|assumption].
    unfold action_previoustrack, seq; apply timer_inv_resume.
    now apply (timer_inv_keeps (emit _)); auto with sched.
Qed.

(* ------------------------------------------------------------------ *)
(** ** Time *)

Lemma fire_single (t : Timer) (w : World) :
  pending w = [t] ->
  fire t w =
    set_isRestarting false
      (play (cl_index (t_closure t)) (cl_configs (t_closure t))
         (set_clock (N.max (clock w) (t_due t)) (set_pending [] w))).
Proof.
  intros Ep; unfold fire, timer_callback, clearTimeout, seq.
  rewrite Ep; simpl; now rewrite Nat.eqb_refl.
Qed.

Lemma fire_single_sched (t : Timer) (w : World) :
  pending w = [t] ->
  pending (fire t w) = [] /\ isRestarting (fire t w) = false.
Proof.
  intros Ep; rewrite (fire_single t w Ep); simpl; split; [|reflexivity].
  match goal with |- pending (play ?i ?c ?w') = _ =>
    destruct (play_sched i c w') as (_ & _ & _ & _ & [Hp|Hp]); rewrite Hp
  end.
  - reflexivity.
  - now apply clear_timer_field_nil.
Qed.

Lemma advance_idle (dt : N) (w : World) :
  pending w = [] -> advance dt w = set_clock (clock w + dt) w.
Proof. intros Ep; unfold advance; now rewrite Ep. Qed.

Lemma run_due_single (t : Timer) (target : N) (w : World) :
  pending w = [t] ->
  run_due 1 target w = if (t_due t <=? target)%N then fire t w else w.
Proof.
  intros Ep; unfold run_due, due_timer; rewrite Ep; unfold find.
  destruct (t_due t <=? target)%N; reflexivity.
Qed.

Lemma advance_not_due (dt : N) (t : Timer) (w : World) :
  pending w = [t] -> (clock w + dt < t_due t)%N ->
  advance dt w = set_clock (clock w + dt) w.
Proof.
  intros Ep Hlt; unfold advance; rewrite Ep.
  change (List.length [t]) with 1%nat.
  rewrite (run_due_single t _ w Ep).
  now replace (t_due t <=? clock w + dt)%N with false
    by (symmetry; apply N.leb_gt; lia).
Qed.

Lemma advance_due (dt : N) (t : Timer) (w : World) :
  pending w = [t] -> (t_due t <= clock w + dt)%N ->
  advance dt w = set_clock (clock w + dt) (fire t w).
Proof.
  intros Ep Hle; unfold advance; rewrite Ep.
  change (List.length [t]) with 1%nat.
  rewrite (run_due_single t _ w Ep).
  now replace (t_due t <=? clock w + dt)%N with true
    by (symmetry; apply N.leb_le; lia).
Qed.

Lemma timer_inv_advance (dt : N) (w : World) :
  timer_inv w -> timer_inv (advance dt w).
Proof.
  intros Hi.
  destruct (pending w) as [|t [|t' l]] eqn:Ep.
  - rewrite advance_idle by assumption. now apply (timer_inv_same w).
  - destruct (N.le_gt_cases (t_due t) (clock w + dt)) as [Hle|Hgt].
    + rewrite (advance_due dt t w) by assumption.
      apply timer_inv_nil; simpl. now apply fire_single_sched.
    + rewrite (advance_not_due dt t w) by assumption.
      now apply (timer_inv_same w).
  - unfold timer_inv in Hi; rewrite Ep in Hi; destruct Hi.
Qed.

Lemma timer_inv_step (s : Stimulus) (w : World) :
  timer_inv w -> timer_inv (step s w).
Proof.
  intros Hi; destruct s; simpl.
  - now apply timer_inv_start.
  - now apply timer_inv_pause.
  - now apply timer_inv_stop.
  - now apply timer_inv_resume.
  - unfold dispatch_cloud_ended.
    destruct (onended (cloudAudio w)).
    + apply timer_inv_on_line_ended. now apply (timer_inv_same w).
    + now apply (timer_inv_same w).
  - now apply (timer_inv_same w).
  - unfold cloud_play_catch.
    destruct (negb (String.eqb name "AbortError")); now apply (timer_inv_same w).
  - now apply (timer_inv_same w).
  - unfold dispatch_tts_end. destruct (ttsNative w); [|assumption].
    unfold seq; apply timer_inv_on_line_ended. now apply (timer_inv_same w).
  - unfold dispatch_tts_error. destruct (ttsNative w); [|assumption].
    unfold seq, system_onError; simpl.
    destruct (negb (isRestarting w)); now apply (timer_inv_same w).
  - now apply timer_inv_media_action.
  - now apply timer_inv_advance.
Qed.

Lemma timer_inv_run (l : list Stimulus) (w : World) :
  timer_inv w -> timer_inv (run l w).
Proof.
  revert w; induction l as [|s l IH]; intros w Hi; simpl; [assumption|].
  apply IH; now apply timer_inv_step.
Qed.

Lemma reachable_timer_inv (w : World) : reachable w -> timer_inv w.
Proof.
  intros (ms & l & ->); apply timer_inv_run; exact I.
Qed.

Lemma reachable_init (ms : option MediaSession) : reachable (init ms).
Proof. exists ms, []; reflexivity. Qed.

Lemma reachable_step (s : Stimulus) (w : World) :
  reachable w -> reachable (step s w).
Proof.
  intros (ms & l & ->); exists ms, (l ++ [s]).
  unfold run; now rewrite fold_left_app.
Qed.

(* ------------------------------------------------------------------ *)
(** ** The adapters' state *)

Lemma cloudAudio_emit (a : Action) (w : World) :
  cloudAudio (emit a w) = cloudAudio w.
Proof. reflexivity. Qed.

Lemma ttsNative_emit (a : Action) (w : World) :
  ttsNative (emit a w) = ttsNative w.
Proof. reflexivity. Qed.

#[export] Hint Rewrite cloudAudio_emit ttsNative_emit : audio.

Lemma cloudAudio_set_isRestarting (b : bool) (w : World) :
  cloudAudio (set_isRestarting b w) = cloudAudio w.
Proof. reflexivity. Qed.

Lemma ttsNative_set_isRestarting (b : bool) (w : World) :
  ttsNative (set_isRestarting b w) = ttsNative w.
Proof. reflexivity. Qed.

#[export] Hint Rewrite cloudAudio_set_isRestarting ttsNative_set_isRestarting : audio.

Lemma cloudAudio_set_silentAudio (b : bool) (w : World) :
  cloudAudio (set_silentAudio b w) = cloudAudio w.
Proof. reflexivity. Qed.

Lemma ttsNative_set_silentAudio (b : bool) (w : World) :
  ttsNative (set_silentAudio b w) = ttsNative w.
Proof. reflexivity. Qed.

#[export] Hint Rewrite cloudAudio_set_silentAudio ttsNative_set_silentAudio : audio.

Lemma cloudAudio_set_currentBookId (b : option string) (w : World) :
  cloudAudio (set_currentBookId b w) = cloudAudio w.
Proof. reflexivity. Qed.

Lemma ttsNative_set_currentBookId (b : option string) (w : World) :
  ttsNative (set_currentBookId b w) = ttsNative w.
Proof. reflexivity. Qed.

#[export] Hint Rewrite cloudAudio_set_currentBookId ttsNative_set_currentBookId : audio.

Lemma cloudAudio_set_clock (t : N) (w : World) :
  cloudAudio (set_clock t w) = cloudAudio w.
Proof. reflexivity. Qed.

Lemma ttsNative_set_clock (t : N) (w : World) :
  ttsNative (set_clock t w) = ttsNative w.
Proof. reflexivity. Qed.

#[export] Hint Rewrite cloudAudio_set_clock ttsNative_set_clock : audio.

Lemma cloudAudio_silent_play (w : World) :
  cloudAudio (silent_play w) = cloudAudio w.
Proof. reflexivity. Qed.

Lemma ttsNative_silent_play (w : World) :
  ttsNative (silent_play w) = ttsNative w.
Proof. reflexivity. Qed.

#[export] Hint Rewrite cloudAudio_silent_play ttsNative_silent_play : audio.

Lemma cloudAudio_silent_pause (w : World) :
  cloudAudio (silent_pause w) = cloudAudio w.
Proof. reflexivity. Qed.

Lemma ttsNative_silent_pause (w : World) :
  ttsNative (silent_pause w) = ttsNative w.
Proof. reflexivity. Qed.

#[export] Hint Rewrite cloudAudio_silent_pause ttsNative_silent_pause : audio.

Lemma cloudAudio_with_ms (f : MediaSession -> MediaSession) (w : World) :
  cloudAudio (with_ms f w) = cloudAudio w.
Proof. unfold with_ms; destruct (mediaSession w); reflexivity. Qed.

Lemma ttsNative_with_ms (f : MediaSession -> MediaSession) (w : World) :
  ttsNative (with_ms f w) = ttsNative w.
Proof. unfold with_ms; destruct (mediaSession w); reflexivity. Qed.

#[export] Hint Rewrite cloudAudio_with_ms ttsNative_with_ms : audio.

Lemma cloudAudio_clear_timer_field (w : World) :
  cloudAudio (clear_timer_field w) = cloudAudio w.
Proof. unfold clear_timer_field; destruct (timer w); reflexivity. Qed.

Lemma ttsNative_clear_timer_field (w : World) :
  ttsNative (clear_timer_field w) = ttsNative w.
Proof. unfold clear_timer_field; destruct (timer w); reflexivity. Qed.

#[export] Hint Rewrite cloudAudio_clear_timer_field ttsNative_clear_timer_field : audio.

Lemma cloudAudio_setPositionState (i : Z) (c : SpeechConfigs) (w : World) :
  cloudAudio (setPositionState i c w) = cloudAudio w.
Proof. 
  unfold setPositionState.
  destruct (mediaSession w) as [m|]; [|reflexivity].
  destruct (ms_hasSetPositionState m); [|reflexivity].
  destruct (ms_setPositionState_throws m); [reflexivity|].
  unfold with_ms; destruct (mediaSession w); reflexivity.
 Qed.

Lemma ttsNative_setPositionState (i : Z) (c : SpeechConfigs) (w : World) :
  ttsNative (setPositionState i c w) = ttsNative w.
Proof. 
  unfold setPositionState.
  destruct (mediaSession w) as [m|]; [|reflexivity].
  destruct (ms_hasSetPositionState m); [|reflexivity].
  destruct (ms_setPositionState_throws m); [reflexivity|].
  unfold with_ms; destruct (mediaSession w); reflexivity.
 Qed.

#[export] Hint Rewrite cloudAudio_setPositionState ttsNative_setPositionState : audio.

Lemma cloudAudio_updateActionHandlers (i : Z) (c : SpeechConfigs) (w : World) :
  cloudAudio (updateActionHandlers i c w) = cloudAudio w.
Proof. unfold updateActionHandlers, with_ms; destruct (mediaSession w); reflexivity. Qed.

Lemma ttsNative_updateActionHandlers (i : Z) (c : SpeechConfigs) (w : World) :
  ttsNative (updateActionHandlers i c w) = ttsNative w.
Proof. unfold updateActionHandlers, with_ms; destruct (mediaSession w); reflexivity. Qed.

#[export] Hint Rewrite cloudAudio_updateActionHandlers ttsNative_updateActionHandlers : audio.

Lemma cloudAudio_clearMediaSession (w : World) :
  cloudAudio (clearMediaSession w) = cloudAudio w.
Proof. unfold clearMediaSession, with_ms; destruct (mediaSession w); reflexivity. Qed.

Lemma ttsNative_clearMediaSession (w : World) :
  ttsNative (clearMediaSession w) = ttsNative w.
Proof. unfold clearMediaSession, with_ms; destruct (mediaSession w); reflexivity. Qed.

#[export] Hint Rewrite cloudAudio_clearMediaSession ttsNative_clearMediaSession : audio.

Lemma cloudAudio_setupMediaSession (i : Z) (c : SpeechConfigs) (w : World) :
  cloudAudio (setupMediaSession i c w) = cloudAudio w.
Proof. 
  unfold setupMediaSession.
  destruct (mediaSession w); [|reflexivity].
  destruct (strict_neq (currentBookId w) (bookId c)); unfold seq, skip;
    now autorewrite with audio.
 Qed.

Lemma ttsNative_setupMediaSession (i : Z) (c : SpeechConfigs) (w : World) :
  ttsNative (setupMediaSession i c w) = ttsNative w.
Proof. 
  unfold setupMediaSession.
  destruct (mediaSession w); [|reflexivity].
  destruct (strict_neq (currentBookId w) (bookId c)); unfold seq, skip;
    now autorewrite with audio.
 Qed.

#[export] Hint Rewrite cloudAudio_setupMediaSession ttsNative_setupMediaSession : audio.

Lemma cloudAudio_stopCloud (w : World) :
  cloudAudio (stopCloud w) = mkCloud None false (playbackRate (cloudAudio w)) None.
Proof. reflexivity. Qed.

Lemma ttsNative_stopCloud (w : World) : ttsNative (stopCloud w) = ttsNative w.
Proof. reflexivity. Qed.

Lemma cloudAudio_tts_stop (w : World) : cloudAudio (tts_stop w) = cloudAudio w.
Proof. reflexivity. Qed.

Lemma ttsNative_tts_stop (w : World) : ttsNative (tts_stop w) = None.
Proof. reflexivity. Qed.

Lemma cloudAudio_tts_speak t v c (w : World) :
  cloudAudio (tts_speak t v c w) = cloudAudio w.
Proof. reflexivity. Qed.

Lemma ttsNative_tts_speak t v c (w : World) :
  ttsNative (tts_speak t v c w) = Some (mkUtterance t v c).
Proof. reflexivity. Qed.

Lemma cloudAudio_startCloudSpeech (i : Z) (c : SpeechConfigs) (w : World) :
  cloudAudio (startCloudSpeech i c w) =
    mkCloud (Some (cloudSrc i c)) true (rate_or_default (rate c))
            (Some (mkClosure i c)).
Proof. reflexivity. Qed.

Lemma ttsNative_startCloudSpeech (i : Z) (c : SpeechConfigs) (w : World) :
  ttsNative (startCloudSpeech i c w) = ttsNative w.
Proof. reflexivity. Qed.

#[export] Hint Rewrite cloudAudio_stopCloud ttsNative_stopCloud
  cloudAudio_tts_stop ttsNative_tts_stop cloudAudio_tts_speak
  ttsNative_tts_speak cloudAudio_startCloudSpeech ttsNative_startCloudSpeech
  : audio.

(** [pause] leaves both adapters silent and without a completion handler. *)
Lemma pause_audio (w : World) :
  cloudAudio (pause w) = mkCloud None false (playbackRate (cloudAudio w)) None /\
  ttsNative (pause w) = None.
Proof. unfold pause, seq; autorewrite with audio; split; reflexivity. Qed.

(** So does [stop]. *)
Lemma stop_audio (w : World) :
  cloudAudio (stop w) = mkCloud None false (playbackRate (cloudAudio w)) None /\
  ttsNative (stop w) = None.
Proof. unfold stop, seq; autorewrite with audio; split; reflexivity. Qed.

Lemma play_loaded_line_audio (index : Z) (configs : SpeechConfigs)
    (total : Z) (voice : VoiceOption) (w : World) :
  missing configs = false ->
  totalLines configs = Some total ->
  selectedVoice configs = Some voice ->
  0 <= index < total ->
  index < Z.of_nat (List.length (lines configs)) ->
  cloudAudio (play index configs w) =
    cloud_after_play index configs voice (cloudAudio w) /\
  ttsNative (play index configs w) = tts_after_play index configs voice.
Proof.
  intros Hm Ht Hv Hi Hl.
  unfold play; rewrite Hm, Ht, Hv.
  replace (Z.ltb index 0 || Z.geb index total) with false
    by (symmetry; apply orb_false_iff; split;
        [apply Z.ltb_ge; lia | rewrite Z.geb_leb; apply Z.leb_gt; lia]).
  replace (Z.geb index (Z.of_nat (List.length (lines configs)))) with false
    by (symmetry; rewrite Z.geb_leb; apply Z.leb_gt; lia).
  unfold cloud_after_play, tts_after_play.
  destruct (vtype voice); unfold seq, skip, startSystemSpeech, voice_id;
    rewrite ?Hv; autorewrite with audio; split; reflexivity.
Qed.

(* ------------------------------------------------------------------ *)
(** ** What [start] emits *)

Lemma start_unfold (index : Z) (configs : SpeechConfigs) (w : World) :
  start index configs w = play index configs (emit (onIsPlayingChange true) w).
Proof. reflexivity. Qed.

Lemma emitted_start_missing (index : Z) (configs : SpeechConfigs) (w : World) :
  missing configs = true ->
  emitted (start index configs) w = [onIsPlayingChange true].
Proof.
  intros Hm; apply emitted_of_trace.
  now rewrite start_unfold, play_missing.
Qed.

Lemma emitted_start_end_of_book (index : Z) (configs : SpeechConfigs)
    (total : Z) (w : World) :
  missing configs = false ->
  totalLines configs = Some total ->
  index < 0 \/ index >= total ->
  emitted (start index configs) w =
    [onIsPlayingChange true; onIsPlayingChange false; onBookCompleted (clock w)].
Proof.
  intros Hm Ht Hi; apply emitted_of_trace.
  rewrite start_unfold, (play_end_of_book index configs total) by assumption.
  simpl; now rewrite <- !app_assoc.
Qed.

Lemma emitted_start_loading_gap (index : Z) (configs : SpeechConfigs)
    (total : Z) (w : World) :
  missing configs = false ->
  totalLines configs = Some total ->
  0 <= index < total ->
  index >= Z.of_nat (List.length (lines configs)) ->
  emitted (start index configs) w =
    onIsPlayingChange true :: pause_commands ++ [onLoadMoreLines index].
Proof.
  intros Hm Ht Hi Hl; apply emitted_of_trace.
  rewrite start_unfold, (play_loading_gap index configs total) by assumption.
  rewrite trace_emit, trace_pause; simpl; now rewrite <- !app_assoc.
Qed.

Lemma emitted_start_loaded_line (index : Z) (configs : SpeechConfigs)
    (total : Z) (voice : VoiceOption) (w : World) :
  missing configs = false ->
  totalLines configs = Some total ->
  selectedVoice configs = Some voice ->
  0 <= index < total ->
  index < Z.of_nat (List.length (lines configs)) ->
  emitted (start index configs) w =
    onIsPlayingChange true :: SilentPlay ::
      position_log w ++ adapter_commands index configs voice.
Proof.
  intros Hm Ht Hv Hi Hl; apply emitted_of_trace.
  rewrite start_unfold,
    (play_loaded_line_trace index configs total voice) by assumption.
  simpl; now rewrite <- !app_assoc.
Qed.

Lemma filter_starts_position_log (w : World) (l : list Action) :
  filter starts_adapter (position_log w ++ l) = filter starts_adapter l.
Proof.
  unfold position_log.
  destruct (mediaSession w) as [m|]; [|reflexivity].
  destruct (ms_hasSetPositionState m && ms_setPositionState_throws m); reflexivity.
Qed.

Lemma line_at_loaded (index : Z) (configs : SpeechConfigs) :
  0 <= index < Z.of_nat (List.length (lines configs)) ->
  exists text,
    nth_error (lines configs) (Z.to_nat index) = Some text /\
    line_at configs index = Some text.
Proof.
  intros Hi; unfold line_at.
  replace (Z.ltb index 0) with false by (symmetry; apply Z.ltb_ge; lia).
  destruct (nth_error (lines configs) (Z.to_nat index)) as [text|] eqn:E.
  - now exists text.
  - apply nth_error_None in E; lia.
Qed.

(* ------------------------------------------------------------------ *)
(** ** The four outcomes of [play], in one statement *)

Lemma play_outcome (i : Z) (c : SpeechConfigs) (w : World) :
  (play i c w = w /\ emitted (play i c) w = [])
  \/ (emitted (play i c) w = [onIsPlayingChange false; onBookCompleted (clock w)]
      /\ cloudAudio (play i c w) = cloudAudio w
      /\ ttsNative (play i c w) = ttsNative w)
  \/ (emitted (play i c) w = pause_commands ++ [onLoadMoreLines i]
      /\ cloudAudio (play i c w) =
           mkCloud None false (playbackRate (cloudAudio w)) None
      /\ ttsNative (play i c w) = None)
  \/ (exists voice,
        emitted (play i c) w = SilentPlay :: position_log w ++ adapter_commands i c voice
        /\ cloudAudio (play i c w) = cloud_after_play i c voice (cloudAudio w)
        /\ ttsNative (play i c w) = tts_after_play i c voice).
Proof.
  destruct (missing c) eqn:Hm.
  { left; split; [now apply play_missing|].
    apply emitted_nil; now rewrite play_missing. }
  destruct (missing_false_inv _ Hm) as (b & total & v & _ & _ & Ht & _ & Hv).
  assert (Hend : i < 0 \/ i >= total ->
     emitted (play i c) w = [onIsPlayingChange false; onBookCompleted (clock w)]
     /\ cloudAudio (play i c w) = cloudAudio w
     /\ ttsNative (play i c w) = ttsNative w).
  { intros Hi; split; [|split].
    - apply emitted_of_trace.
      rewrite (play_end_of_book i c total) by assumption.
      rewrite !trace_emit; now rewrite <- app_assoc.
    - rewrite (play_end_of_book i c total) by assumption.
      now rewrite !cloudAudio_emit.
    - rewrite (play_end_of_book i c total) by assumption.
      now rewrite !ttsNative_emit. }
  destruct (Z_lt_ge_dec i 0) as [Hneg|Hpos]; [right; left; apply Hend; now left|].
  destruct (Z_lt_ge_dec i total) as [Hin|Hout]; [|right; left; apply Hend; now right].
  destruct (Z_lt_ge_dec i (Z.of_nat (List.length (lines c)))) as [Hld|Hgap].
  - right; right; right; exists v.
    split; [|apply (play_loaded_line_audio i c total v); auto; lia].
    apply emitted_of_trace, (play_loaded_line_trace i c total v); auto; lia.
  - right; right; left.
    assert (Hi : 0 <= i < total) by lia.
    destruct (pause_audio w) as [Hc Hu].
    split; [|split].
    + apply emitted_of_trace.
      rewrite (play_loading_gap i c total w Hm Ht Hi Hgap).
      rewrite trace_emit, trace_pause; now rewrite <- app_assoc.
    + rewrite (play_loading_gap i c total w Hm Ht Hi Hgap).
      now rewrite cloudAudio_emit.
    + rewrite (play_loading_gap i c total w Hm Ht Hi Hgap).
      now rewrite ttsNative_emit.
Qed.

(* ------------------------------------------------------------------ *)
(** ** Completion events *)

Lemma emitted_congr (c1 c2 : Cmd) (w1 w2 : World) :
  trace w1 = trace w2 -> c1 w1 = c2 w2 -> emitted c1 w1 = emitted c2 w2.
Proof. unfold emitted; now intros -> ->. Qed.

Lemma trace_play_emitted (i : Z) (c : SpeechConfigs) (w : World) :
  trace (play i c w) = trace w ++ emitted (play i c) w.
Proof.
  destruct (play_extends_trace i c w) as [l Hl].
  now rewrite (emitted_of_trace _ _ _ Hl).
Qed.

Lemma emitted_start_cons (i : Z) (c : SpeechConfigs) (w : World) :
  emitted (start i c) w =
    onIsPlayingChange true :: emitted (play i c) (emit (onIsPlayingChange true) w).
Proof.
  apply emitted_of_trace.
  rewrite start_unfold, trace_play_emitted, trace_emit.
  now rewrite <- app_assoc.
Qed.

Lemma trace_start_emitted (i : Z) (c : SpeechConfigs) (w : World) :
  trace (start i c w) = trace w ++ emitted (start i c) w.
Proof.
  rewrite emitted_start_cons, start_unfold, trace_play_emitted, trace_emit.
  now rewrite <- app_assoc.
Qed.

Lemma emitted_on_line_ended (c : Closure) (w : World) :
  emitted (on_line_ended c) w =
    onLineEnd (cl_index c + 1) ::
    emitted (start (cl_index c + 1) (cl_configs c))
            (emit (onLineEnd (cl_index c + 1)) w).
Proof.
  apply emitted_of_trace.
  unfold on_line_ended, seq.
  rewrite trace_start_emitted, trace_emit.
  now rewrite <- app_assoc.
Qed.

Lemma trace_cloud_finished (w : World) : trace (cloud_finished w) = trace w.
Proof. reflexivity. Qed.

Lemma dispatch_cloud_ended_none (w : World) :
  onended (cloudAudio w) = None ->
  emitted dispatch_cloud_ended w = [].
Proof.
  intros H; apply emitted_nil.
  unfold dispatch_cloud_ended; rewrite H. apply trace_cloud_finished.
Qed.

Lemma dispatch_cloud_ended_some (c : Closure) (w : World) :
  onended (cloudAudio w) = Some c ->
  emitted dispatch_cloud_ended w =
    onLineEnd (cl_index c + 1) ::
    emitted (start (cl_index c + 1) (cl_configs c))
            (emit (onLineEnd (cl_index c + 1)) (cloud_finished w)).
Proof.
  intros H.
  rewrite <- emitted_on_line_ended.
  apply emitted_congr; [symmetry; apply trace_cloud_finished|].
  unfold dispatch_cloud_ended; now rewrite H.
Qed.

Lemma dispatch_tts_end_some (u : Utterance) (w : World) :
  ttsNative w = Some u ->
  emitted dispatch_tts_end w =
    onLineEnd (cl_index (u_closure u) + 1) ::
    emitted (start (cl_index (u_closure u) + 1) (cl_configs (u_closure u)))
            (emit (onLineEnd (cl_index (u_closure u) + 1)) (set_ttsNative None w)).
Proof.
  intros H.
  rewrite <- emitted_on_line_ended.
  apply emitted_congr; [reflexivity|].
  unfold dispatch_tts_end, seq; now rewrite H.
Qed.

Lemma filter_lineEnd_position_log (w : World) (l : list Action) :
  filter is_lineEnd (position_log w ++ l) = filter is_lineEnd l.
Proof.
  unfold position_log.
  destruct (mediaSession w) as [m|]; [|reflexivity].
  destruct (ms_hasSetPositionState m && ms_setPositionState_throws m); reflexivity.
Qed.

(** [play], hence [start], never reports a line end itself. *)
Lemma no_lineEnd_in_play (i : Z) (c : SpeechConfigs) (w : World) :
  filter is_lineEnd (emitted (play i c) w) = [].
Proof.
  destruct (play_outcome i c w)
    as [[_ ->]|[(-> & _)|[(-> & _)|(v & -> & _)]]]; try reflexivity.
  cbn [filter is_lineEnd]; rewrite filter_lineEnd_position_log.
  unfold adapter_commands; destruct (vtype v); reflexivity.
Qed.

Lemma no_lineEnd_in_start (i : Z) (c : SpeechConfigs) (w : World) :
  filter is_lineEnd (emitted (start i c) w) = [].
Proof.
  rewrite emitted_start_cons; cbn [filter is_lineEnd].
  apply no_lineEnd_in_play.
Qed.

(** The handler on the cloud element once [play] returns: none, the one of
    the line just dispatched, or, when [play] started nothing, the one that
    was there. *)
Lemma play_handler (i : Z) (c : SpeechConfigs) (w : World) :
  onended (cloudAudio (play i c w)) = None
  \/ onended (cloudAudio (play i c w)) = Some (mkClosure i c)
  \/ (onended (cloudAudio (play i c w)) = onended (cloudAudio w)
      /\ filter starts_adapter (emitted (play i c) w) = []).
Proof.
  destruct (play_outcome i c w)
    as [[E He]|[(He & Hc & _)|[(He & Hc & _)|(v & He & Hc & _)]]].
  - right; right; rewrite E, He; split; reflexivity.
  - right; right; rewrite Hc, He; split; reflexivity.
  - left; now rewrite Hc.
  - rewrite Hc; unfold cloud_after_play; destruct (vtype v); auto.
Qed.

Lemma handler_set_position_log (w : World) (l : list Action) (seen : bool) :
  handler_set_before_start seen (position_log w ++ l) =
  handler_set_before_start seen l.
Proof.
  unfold position_log.
  destruct (mediaSession w) as [m|]; [|reflexivity].
  destruct (ms_hasSetPositionState m && ms_setPositionState_throws m); reflexivity.
Qed.

Lemma play_overwrites_before_start (i : Z) (c : SpeechConfigs) (w : World) :
  handler_set_before_start false (emitted (play i c) w) = true.
Proof.
  destruct (play_outcome i c w)
    as [[_ ->]|[(-> & _)|[(-> & _)|(v & -> & _)]]]; try reflexivity.
  cbn [handler_set_before_start starts_adapter].
  rewrite handler_set_position_log.
  unfold adapter_commands; destruct (vtype v); reflexivity.
Qed.

Lemma position_log_same (w w' : World) :
  mediaSession w' = mediaSession w -> position_log w' = position_log w.
Proof. unfold position_log; now intros ->. Qed.

Lemma emitted_natural_end (i : Z) (configs : SpeechConfigs) (total : Z)
    (voice : VoiceOption) (w : World) :
  missing configs = false ->
  totalLines configs = Some total ->
  selectedVoice configs = Some voice ->
  0 <= i < total ->
  i < Z.of_nat (List.length (lines configs)) ->
  exists w',
    trace w' = trace (start i configs w)
    /\ clock w' = clock w
    /\ mediaSession w' = mediaSession (start i configs w)
    /\ emitted (step (natural_end voice)) (start i configs w) =
         onLineEnd (i + 1) ::
         emitted (start (i + 1) configs) (emit (onLineEnd (i + 1)) w').
Proof.
  intros Hm Ht Hv Hi Hl.
  assert (Hclock : clock (start i configs w) = clock w).
  { rewrite start_unfold.
    now destruct (play_sched i configs (emit (onIsPlayingChange true) w))
      as (_ & _ & _ & -> & _). }
  destruct (play_loaded_line_audio i configs total voice
              (emit (onIsPlayingChange true) w) Hm Ht Hv Hi Hl) as [Hc Hu].
  rewrite <- start_unfold in Hc, Hu.
  unfold natural_end, cloud_after_play, tts_after_play in *.
  destruct (vtype voice).
  - exists (set_ttsNative None (start i configs w)).
    split; [reflexivity|]; split; [exact Hclock|]; split; [reflexivity|].
    cbn [step]. now rewrite (dispatch_tts_end_some _ _ Hu).
  - exists (cloud_finished (start i configs w)).
    split; [reflexivity|]; split; [exact Hclock|]; split; [reflexivity|].
    cbn [step].
    assert (H : onended (cloudAudio (start i configs w)) = Some (mkClosure i configs))
      by now rewrite Hc.
    now rewrite (dispatch_cloud_ended_some _ _ H).
Qed.

Lemma failure_frame (s : Stimulus) (w : World) :
  is_failure s = true ->
  filter starts_adapter (emitted (step s) w) = []
  /\ pending (step s w) = pending w
  /\ cloudAudio (step s w) = cloudAudio w.
Proof.
  destruct s; try discriminate; intros _; cbn [step].
  - unfold cloud_onerror; rewrite emitted_emit.
    split; [|split]; reflexivity.
  - unfold cloud_play_catch.
    destruct (negb (String.eqb name "AbortError")); rewrite emitted_emit;
      (split; [|split]); reflexivity.
  - assert (Ht : exists l, trace (dispatch_tts_error w) = trace w ++ l
                            /\ filter starts_adapter l = []).
    { unfold dispatch_tts_error.
      destruct (ttsNative w) as [u|].
      - unfold seq, system_onError.
        change (isRestarting (set_ttsNative None w)) with (isRestarting w).
        destruct (negb (isRestarting w)).
        + exists [onIsPlayingChange false]; split; reflexivity.
        + exists []; split; [now rewrite app_nil_r | reflexivity].
      - exists []; split; [now rewrite app_nil_r | reflexivity]. }
    destruct Ht as (l & Hl & Hf).
    rewrite (emitted_of_trace _ _ _ Hl); split; [exact Hf|].
    unfold dispatch_tts_error.
    destruct (ttsNative w) as [u|]; [|split; reflexivity].
    unfold seq, system_onError.
    change (isRestarting (set_ttsNative None w)) with (isRestarting w).
    destruct (negb (isRestarting w)); split; reflexivity.
Qed.

Lemma set_clock_fields (t : N) (w : World) :
  pending (set_clock t w) = pending w /\
  timer (set_clock t w) = timer w /\
  isRestarting (set_clock t w) = isRestarting w /\
  next_id (set_clock t w) = next_id w /\
  clock (set_clock t w) = t.
Proof. repeat split. Qed.

Lemma timer_inv_set_clock (t : N) (w : World) :
  timer_inv w -> timer_inv (set_clock t w).
Proof. now apply timer_inv_same. Qed.

(** Two [resume] calls less than one delay apart. *)
Lemma resume_twice (w : World) (i1 i2 : Z) (c1 c2 : SpeechConfigs) (dt : N) :
  timer_inv w -> (dt < RESUME_DELAY)%N ->
  pending (resume i1 c1 w) =
    [mkTimer (next_id w) (clock w + RESUME_DELAY) (mkClosure i1 c1)]
  /\ advance dt (resume i1 c1 w) = set_clock (clock w + dt) (resume i1 c1 w)
  /\ pending (resume i2 c2 (advance dt (resume i1 c1 w))) =
       [mkTimer (S (next_id w)) (clock w + dt + RESUME_DELAY) (mkClosure i2 c2)]
  /\ isRestarting (resume i2 c2 (advance dt (resume i1 c1 w))) = true
  /\ clock (resume i2 c2 (advance dt (resume i1 c1 w))) = (clock w + dt)%N
  /\ timer_inv (resume i2 c2 (advance dt (resume i1 c1 w))).
Proof.
  intros Hinv Hdt.
  destruct (resume_sched i1 c1 w Hinv) as (Hp1 & _ & _ & Hn1 & Hc1).
  assert (Hadv : advance dt (resume i1 c1 w)
                 = set_clock (clock w + dt) (resume i1 c1 w)).
  { rewrite (advance_not_due dt _ _ Hp1); rewrite Hc1; [reflexivity|].
    cbn [t_due]; lia. }
  assert (Hinv1 : timer_inv (set_clock (clock w + dt) (resume i1 c1 w))).
  { now apply timer_inv_set_clock, timer_inv_resume. }
  destruct (set_clock_fields (clock w + dt) (resume i1 c1 w))
    as (_ & _ & _ & Hn & Hc).
  destruct (resume_sched i2 c2 _ Hinv1) as (Hp2 & _ & Hr2 & _ & Hc2).
  rewrite Hn, Hn1, Hc in Hp2. rewrite Hc in Hc2.
  rewrite Hadv.
  split; [exact Hp1|]; split; [reflexivity|]; split; [exact Hp2|].
  split; [exact Hr2|]; split; [exact Hc2|].
  now apply timer_inv_resume.
Qed.

(* ------------------------------------------------------------------ *)
(** ** Properties of the engine *)

(** C1 (supersession).  [stop] leaves no completion handler on the cloud
    element and no utterance with the on-device adapter, so an ['ended'] event
    that arrives late runs nothing.  After [stop()] followed by
    [start(i, configs)] the only handler that can be installed is the one of
    the new session: an ['ended'] event then reports at most one line end,
    [onLineEnd(i+1)], never one of an earlier session.  In general, every
    adapter start that [play] performs comes after the write to [onended]
    (the new handler for a cloud voice, [null] for a system voice), and the
    handler present when [play] returns is the new one unless [play] started
    nothing and left the element untouched. *)
Theorem C1_supersession :
  forall (w : World) (i : Z) (configs : SpeechConfigs),
    onended (cloudAudio (stop w)) = None
    /\ ttsNative (stop w) = None
    /\ emitted dispatch_cloud_ended (stop w) = []
    /\ (onended (cloudAudio (start i configs (stop w))) = None
        \/ onended (cloudAudio (start i configs (stop w))) = Some (mkClosure i configs))
    /\ (filter is_lineEnd
          (emitted dispatch_cloud_ended (start i configs (stop w))) = []
        \/ filter is_lineEnd
             (emitted dispatch_cloud_ended (start i configs (stop w))) = [onLineEnd (i + 1)])
    /\ handler_set_before_start false (emitted (play i configs) w) = true
    /\ (onended (cloudAudio (play i configs w)) = None
        \/ onended (cloudAudio (play i configs w)) = Some (mkClosure i configs)
        \/ (onended (cloudAudio (play i configs w)) = onended (cloudAudio w)
            /\ filter starts_adapter (emitted (play i configs) w) = [])).
Proof.
  intros w i configs.
  destruct (stop_audio w) as [Hc Hu].
  assert (Hstop : onended (cloudAudio (stop w)) = None) by now rewrite Hc.
  assert (Hnew : onended (cloudAudio (start i configs (stop w))) = None
                 \/ onended (cloudAudio (start i configs (stop w)))
                    = Some (mkClosure i configs)).
  { rewrite start_unfold.
    destruct (play_handler i configs (emit (onIsPlayingChange true) (stop w)))
      as [H|[H|[H _]]]; auto.
    left; rewrite H, cloudAudio_emit; exact Hstop. }
  split; [exact Hstop|]; split; [exact Hu|]; split; [|split; [exact Hnew|split]].
  - now apply dispatch_cloud_ended_none.
  - destruct Hnew as [H|H].
    + left; now rewrite dispatch_cloud_ended_none.
    + right; rewrite (dispatch_cloud_ended_some _ _ H).
      cbn [filter is_lineEnd cl_index cl_configs].
      now rewrite no_lineEnd_in_start.
  - split; [apply play_overwrites_before_start | apply play_handler].
Qed.

(** C2 (end-of-book boundary).  For every configuration that passes the guard
    of [play] (bookId, totalLines and selectedVoice present) and every index
    below 0 or at or beyond totalLines, [start index configs] emits
    [onIsPlayingChange(false)] and then [onBookCompleted] with the current
    timestamp (after its own opening [onIsPlayingChange(true)]), starts no
    adapter and leaves both adapters as they were. *)
Theorem C2_end_of_book_boundary :
  forall (index : Z) (configs : SpeechConfigs) (total : Z) (w : World),
    missing configs = false ->
    totalLines configs = Some total ->
    index < 0 \/ index >= total ->
    emitted (start index configs) w =
      [onIsPlayingChange true; onIsPlayingChange false; onBookCompleted (clock w)]
    /\ filter starts_adapter (emitted (start index configs) w) = []
    /\ cloudAudio (start index configs w) = cloudAudio w
    /\ ttsNative (start index configs w) = ttsNative w.
Proof.
  intros index configs total w Hm Ht Hi.
  rewrite (emitted_start_end_of_book index configs total) by assumption.
  rewrite start_unfold, (play_end_of_book index configs total) by assumption.
  repeat split.
Qed.

Lemma C2_end_of_book_boundary_witness :
  emitted (start 10 mockConfigs) w0 =
    [onIsPlayingChange true; onIsPlayingChange false; onBookCompleted (clock w0)]
  /\ emitted (start (-1) cloudConfigs) w0 =
    [onIsPlayingChange true; onIsPlayingChange false; onBookCompleted (clock w0)].
Proof.
  split.
  - apply (C2_end_of_book_boundary 10 mockConfigs 10 w0);
      [reflexivity | reflexivity | right; lia].
  - apply (C2_end_of_book_boundary (-1) cloudConfigs 10 w0);
      [reflexivity | reflexivity | left; lia].
Defined.

(** C3 (adapter dispatch with mutual exclusion).  For a configuration that
    passes the guard and an index with 0 <= index < totalLines that is loaded
    (index < lines.length), [start index configs] starts exactly one adapter,
    the one [selectedVoice.type] names, on the line at [index]: the cloud
    element is pointed at the URL of that index, or the on-device adapter is
    given the text of that line.  The other adapter is stopped first; for a
    system voice the cloud element's handler and [src] are cleared (and the
    resource unloaded) before the on-device adapter speaks. *)
Theorem C3_adapter_dispatch :
  forall (index : Z) (configs : SpeechConfigs) (total : Z)
         (voice : VoiceOption) (w : World),
    missing configs = false ->
    totalLines configs = Some total ->
    selectedVoice configs = Some voice ->
    0 <= index < total ->
    index < Z.of_nat (List.length (lines configs)) ->
    exists text,
      nth_error (lines configs) (Z.to_nat index) = Some text
      /\ emitted (start index configs) w =
           onIsPlayingChange true :: SilentPlay :: position_log w ++
           match vtype voice with
           | cloud =>
               [TtsStop; CloudPause; CloudSrc (cloudSrc index configs);
                CloudPlaybackRate (rate_or_default (rate configs));
                CloudOnended (Some (mkClosure index configs)); CloudPlay]
           | system =>
               [CloudPause; CloudOnended None; CloudRemoveSrc; CloudLoad;
                TtsSpeak (Some text) (vid voice) (mkClosure index configs)]
           end
      /\ List.length (filter starts_adapter (emitted (start index configs) w)) = 1%nat
      /\ match vtype voice with
         | cloud =>
             src (cloudAudio (start index configs w)) = Some (cloudSrc index configs)
             /\ ttsNative (start index configs w) = None
         | system =>
             src (cloudAudio (start index configs w)) = None
             /\ onended (cloudAudio (start index configs w)) = None
             /\ ttsNative (start index configs w) =
                  Some (mkUtterance (Some text) (vid voice) (mkClosure index configs))
         end.
Proof.
  intros index configs total voice w Hm Ht Hv Hi Hl.
  destruct (line_at_loaded index configs) as (text & Hnth & Hline); [lia|].
  exists text; split; [exact Hnth|].
  rewrite (emitted_start_loaded_line index configs total voice) by assumption.
  rewrite start_unfold.
  destruct (play_loaded_line_audio index configs total voice
              (emit (onIsPlayingChange true) w) Hm Ht Hv Hi Hl) as [Hc Hu].
  rewrite Hc, Hu.
  unfold adapter_commands, cloud_after_play, tts_after_play; rewrite Hline.
  split; [reflexivity|]; split.
  - simpl; rewrite filter_starts_position_log.
    destruct (vtype voice); reflexivity.
  - destruct (vtype voice); simpl; auto.
Qed.

Lemma C3_adapter_dispatch_witness :
  exists text,
    nth_error (lines mockConfigs) (Z.to_nat 1) = Some text
    /\ emitted (start 1 mockConfigs) (start 0 cloudConfigs w0) =
         onIsPlayingChange true :: SilentPlay ::
         position_log (start 0 cloudConfigs w0) ++
         [CloudPause; CloudOnended None; CloudRemoveSrc; CloudLoad;
          TtsSpeak (Some text) "voice1" (mkClosure 1 mockConfigs)]
    /\ List.length (filter starts_adapter
         (emitted (start 1 mockConfigs) (start 0 cloudConfigs w0))) = 1%nat
    /\ src (cloudAudio (start 1 mockConfigs (start 0 cloudConfigs w0))) = None
    /\ onended (cloudAudio (start 1 mockConfigs (start 0 cloudConfigs w0))) = None
    /\ ttsNative (start 1 mockConfigs (start 0 cloudConfigs w0)) =
         Some (mkUtterance (Some text) "voice1" (mkClosure 1 mockConfigs)).
Proof.
  apply (C3_adapter_dispatch 1 mockConfigs 10 voice1 (start 0 cloudConfigs w0));
    [reflexivity | reflexivity | reflexivity | lia | simpl; lia].
Defined.

(** C4 (debounced resume).  In every state the engine can reach at most one
    timer is pending, and while one is pending the restart guard is up.  A
    second [resume(i2, c2)] less than the delay (1000 ms) after
    [resume(i1, c1)] finds the first timer still pending and cancels it: the
    queue then holds the second timer alone.  Nothing fires before its delay
    has elapsed; when it has, the one scheduled callback runs
    [play(i2, c2)] once and lowers the guard, and no timer remains. *)
Theorem C4_debounced_resume :
  (forall w, reachable w ->
     (List.length (pending w) <= 1)%nat
     /\ (pending w <> [] -> isRestarting w = true))
  /\ (forall (w : World) (i1 i2 : Z) (c1 c2 : SpeechConfigs) (dt : N),
        reachable w -> (dt < RESUME_DELAY)%N ->
        let w1 := resume i1 c1 w in
        let w2 := resume i2 c2 (advance dt w1) in
        pending w1 =
          [mkTimer (next_id w) (clock w + RESUME_DELAY) (mkClosure i1 c1)]
        /\ advance dt w1 = set_clock (clock w + dt) w1
        /\ pending w2 =
             [mkTimer (S (next_id w)) (clock w + dt + RESUME_DELAY)
                      (mkClosure i2 c2)]
        /\ isRestarting w2 = true
        /\ (forall d, (d < RESUME_DELAY)%N ->
              advance d w2 = set_clock (clock w2 + d) w2)
        /\ (forall d, (RESUME_DELAY <= d)%N ->
              advance d w2 =
                set_clock (clock w2 + d)
                  (set_isRestarting false
                     (play i2 c2
                        (set_clock (clock w2 + RESUME_DELAY)
                                   (set_pending [] w2))))
              /\ pending (advance d w2) = []
              /\ isRestarting (advance d w2) = false)).
Proof.
  split.
  - intros w Hr; apply reachable_timer_inv in Hr.
    unfold timer_inv in Hr.
    destruct (pending w) as [|t [|t' l]]; cbn [List.length].
    + split; [lia|]. now intros [].
    + split; [lia|]. intros _; apply Hr.
    + destruct Hr.
  - intros w i1 i2 c1 c2 dt Hr Hdt w1 w2; subst w1 w2.
    apply reachable_timer_inv in Hr.
    destruct (resume_twice w i1 i2 c1 c2 dt Hr Hdt)
      as (Hp1 & Hadv & Hp2 & Hr2 & Hc2 & Hinv2).
    split; [exact Hp1|]; split; [exact Hadv|]; split; [exact Hp2|].
    split; [exact Hr2|]; split.
    + intros d Hd.
      apply (advance_not_due d _ _ Hp2). rewrite Hc2; cbn [t_due]; lia.
    + intros d Hd.
      rewrite (advance_due d _ _ Hp2)
        by (rewrite Hc2; cbn [t_due]; unfold RESUME_DELAY in *; lia).
      destruct (fire_single_sched _ _ Hp2) as [Hpf Hrf].
      split; [|split; [exact Hpf | exact Hrf]].
      rewrite (fire_single _ _ Hp2); cbn [t_closure t_due cl_index cl_configs].
      rewrite Hc2.
      now replace (N.max (clock w + dt) (clock w + dt + RESUME_DELAY))
        with (clock w + dt + RESUME_DELAY)%N by lia.
Qed.

Lemma C4_debounced_resume_witness :
  pending (resume 2 cloudConfigs (advance 500 (resume 1 mockConfigs w0))) =
    [mkTimer 2 1500 (mkClosure 2 cloudConfigs)]
  /\ isRestarting (resume 2 cloudConfigs (advance 500 (resume 1 mockConfigs w0))) = true.
Proof.
  destruct C4_debounced_resume as [_ H].
  destruct (H w0 1 2 mockConfigs cloudConfigs 500%N)
    as (_ & _ & Hp & Hg & _).
  - exists (Some fresh_ms), []. reflexivity.
  - reflexivity.
  - split; [exact Hp | exact Hg].
Defined.

(** C5 (loading gap).  For a configuration that passes the guard and an index
    with 0 <= index < totalLines that is not loaded yet (index >= lines.length),
    [start index configs] runs [pause()], emits [onLoadMoreLines(index)] and
    starts no adapter.  Nothing is left that could play on the engine's own
    initiative: no completion handler, no utterance and, from any state the
    engine can reach, no pending timer, so the passing of time emits nothing. *)
Theorem C5_loading_gap :
  forall (index : Z) (configs : SpeechConfigs) (total : Z) (w : World),
    missing configs = false ->
    totalLines configs = Some total ->
    0 <= index < total ->
    index >= Z.of_nat (List.length (lines configs)) ->
    start index configs w =
      emit (onLoadMoreLines index) (pause (emit (onIsPlayingChange true) w))
    /\ emitted (start index configs) w =
         [onIsPlayingChange true; SilentPause; CloudPause; CloudOnended None;
          CloudRemoveSrc; CloudLoad; TtsStop; onLoadMoreLines index]
    /\ filter starts_adapter (emitted (start index configs) w) = []
    /\ onended (cloudAudio (start index configs w)) = None
    /\ ttsNative (start index configs w) = None
    /\ (reachable w ->
        pending (start index configs w) = []
        /\ forall dt, emitted (advance dt) (start index configs w) = []).
Proof.
  intros index configs total w Hm Ht Hi Hl.
  rewrite (emitted_start_loading_gap index configs total) by assumption.
  rewrite start_unfold, (play_loading_gap index configs total) by assumption.
  destruct (pause_audio (emit (onIsPlayingChange true) w)) as [Hc Hu].
  repeat split.
  - now rewrite cloudAudio_emit, Hc.
  - now rewrite ttsNative_emit.
  - rewrite (keeps_pending (emit _)) by auto with sched.
    apply pause_pending, (timer_inv_keeps (emit _)); auto with sched.
    now apply reachable_timer_inv.
  - intros dt; apply emitted_nil.
    rewrite advance_idle; [apply trace_set_clock|].
    rewrite (keeps_pending (emit _)) by auto with sched.
    apply pause_pending, (timer_inv_keeps (emit _)); auto with sched.
    now apply reachable_timer_inv.
Qed.

Lemma C5_loading_gap_witness :
  emitted (start 2 partlyLoaded) w0 =
    [onIsPlayingChange true; SilentPause; CloudPause; CloudOnended None;
     CloudRemoveSrc; CloudLoad; TtsStop; onLoadMoreLines 2]
  /\ pending (start 2 partlyLoaded w0) = [].
Proof.
  destruct (C5_loading_gap 2 partlyLoaded 10 w0) as (_ & He & _ & _ & _ & Hr);
    [reflexivity | reflexivity | lia | simpl; lia |].
  split; [exact He|].
  apply Hr. exists (Some fresh_ms), []. reflexivity.
Defined.

(** C6, as the code has it.  A rejected cloud [play()] named ['AbortError']
    is not reported: it leaves one informational console line and no event.
    Any other rejection is logged with [console.error] and is not surfaced
    to the caller either.  What is surfaced as [onIsPlayingChange(false)] is
    an ['error'] event of the cloud element, and an on-device synthesis
    error unless the restart guard is up.  None of these failure paths starts
    an adapter, touches the cloud element or schedules anything: there is no
    retry. *)
Theorem C6_failure_paths :
  forall (name : string) (w : World),
    step (ev_cloud_play_rejected "AbortError") w =
      emit (ConsoleLog "Cloud playback was interrupted by a new request") w
    /\ (name <> "AbortError" ->
        step (ev_cloud_play_rejected name) w =
          emit (ConsoleError "Cloud playback error:") w)
    /\ step ev_cloud_error w = emit (onIsPlayingChange false) w
    /\ system_onError w =
         (if isRestarting w then w else emit (onIsPlayingChange false) w)
    /\ (forall s, is_failure s = true ->
          filter starts_adapter (emitted (step s) w) = []
          /\ pending (step s w) = pending w
          /\ cloudAudio (step s w) = cloudAudio w).
Proof.
  intros name w; split; [reflexivity|]; split; [|split; [reflexivity|split]].
  - intros Hn; cbn [step]; unfold cloud_play_catch.
    apply String.eqb_neq in Hn; now rewrite Hn.
  - unfold system_onError; now destruct (isRestarting w).
  - intros s; apply failure_frame.
Qed.

Lemma C6_failure_paths_witness :
  step (ev_cloud_play_rejected "NotAllowedError") (start 0 cloudConfigs w0) =
    emit (ConsoleError "Cloud playback error:") (start 0 cloudConfigs w0)
  /\ pending (step ev_cloud_error (start 0 cloudConfigs w0)) =
       pending (start 0 cloudConfigs w0).
Proof.
  destruct (C6_failure_paths "NotAllowedError" (start 0 cloudConfigs w0))
    as (_ & H & _ & _ & F).
  split.
  - apply H; discriminate.
  - apply (F ev_cloud_error); reflexivity.
Defined.

(** C6 as stated fails: a cloud [play()] rejected for a reason other than
    supersession is logged, and the caller is told nothing. *)
Lemma C6_rejection_not_surfaced :
  emitted (step (ev_cloud_play_rejected "NotAllowedError"))
          (start 0 cloudConfigs w0)
    = [ConsoleError "Cloud playback error:"]
  /\ existsb is_caller_event
       (emitted (step (ev_cloud_play_rejected "NotAllowedError"))
                (start 0 cloudConfigs w0)) = false
  /\ ~ In (onIsPlayingChange false)
          (emitted (step (ev_cloud_play_rejected "NotAllowedError"))
                   (start 0 cloudConfigs w0)).
Proof.
  assert (E : emitted (step (ev_cloud_play_rejected "NotAllowedError"))
                      (start 0 cloudConfigs w0)
              = [ConsoleError "Cloud playback error:"]) by (vm_compute; reflexivity).
  rewrite E; split; [reflexivity|]; split; [reflexivity|].
  intros [H|[]]; discriminate H.
Qed.

(** C7 (natural advance).  When the line [i] that [start] dispatched ends on
    its own, the handler first emits [onLineEnd(i+1)] and only then runs
    [start(i+1, configs)], whose first act is [onIsPlayingChange(true)].  If
    [i+1] reaches [totalLines] (line 9 of a 10-line book), what follows is
    [onIsPlayingChange(false)] and [onBookCompleted], and no adapter is
    started; if line [i+1] is loaded, the commands that play it follow. *)
Theorem C7_natural_advance :
  forall (i : Z) (configs : SpeechConfigs) (total : Z)
         (voice : VoiceOption) (w : World),
    missing configs = false ->
    totalLines configs = Some total ->
    selectedVoice configs = Some voice ->
    0 <= i < total ->
    i < Z.of_nat (List.length (lines configs)) ->
    (exists rest,
        emitted (step (natural_end voice)) (start i configs w) =
          onLineEnd (i + 1) :: onIsPlayingChange true :: rest)
    /\ (i + 1 >= total ->
        emitted (step (natural_end voice)) (start i configs w) =
          [onLineEnd (i + 1); onIsPlayingChange true;
           onIsPlayingChange false; onBookCompleted (clock w)]
        /\ filter starts_adapter
             (emitted (step (natural_end voice)) (start i configs w)) = [])
    /\ (i + 1 < total ->
        i + 1 < Z.of_nat (List.length (lines configs)) ->
        emitted (step (natural_end voice)) (start i configs w) =
          onLineEnd (i + 1) :: onIsPlayingChange true :: SilentPlay ::
          position_log (start i configs w) ++
          adapter_commands (i + 1) configs voice).
Proof.
  intros i configs total voice w Hm Ht Hv Hi Hl.
  destruct (emitted_natural_end i configs total voice w Hm Ht Hv Hi Hl)
    as (w' & Htr & Hck & Hms & He).
  rewrite He; split; [|split].
  - rewrite emitted_start_cons; eexists; reflexivity.
  - intros Hlast.
    rewrite (emitted_start_end_of_book (i + 1) configs total) by (auto; lia).
    change (clock (emit (onLineEnd (i + 1)) w')) with (clock w').
    rewrite Hck; split; reflexivity.
  - intros Hnext Hloaded.
    rewrite (emitted_start_loaded_line (i + 1) configs total voice)
      by (auto; lia).
    rewrite (position_log_same (start i configs w) (emit (onLineEnd (i + 1)) w'))
      by exact Hms.
    reflexivity.
Qed.

Lemma C7_natural_advance_witness :
  emitted (step ev_tts_end) (start 9 mockConfigs w0) =
    [onLineEnd 10; onIsPlayingChange true;
     onIsPlayingChange false; onBookCompleted (clock w0)]
  /\ filter starts_adapter
       (emitted (step ev_tts_end) (start 9 mockConfigs w0)) = [].
Proof.
  destruct (C7_natural_advance 9 mockConfigs 10 voice1 w0) as (_ & H & _);
    [reflexivity | reflexivity | reflexivity | lia | simpl; lia |].
  apply H; lia.
Defined.

(** C8, as the code has it.  When bookId, totalLines or selectedVoice is
    missing, the internal [play index configs] changes nothing, starts no
    adapter and emits no event.  The public [start index configs] has
    already emitted [onIsPlayingChange(true)] by then: that one event is all
    it does. *)
Theorem C8_play_guard_is_a_no_op :
  forall (index : Z) (configs : SpeechConfigs) (w : World),
    missing configs = true ->
    play index configs w = w
    /\ emitted (play index configs) w = []
    /\ start index configs w = emit (onIsPlayingChange true) w
    /\ emitted (start index configs) w = [onIsPlayingChange true].
Proof.
  intros index configs w Hm.
  rewrite (emitted_start_missing index configs w Hm).
  rewrite start_unfold, !play_missing by assumption.
  repeat split. apply emitted_nil. now rewrite play_missing.
Qed.

Lemma C8_play_guard_is_a_no_op_witness :
  play 0 missingConfigs w0 = w0
  /\ emitted (play 0 missingConfigs) w0 = []
  /\ start 0 missingConfigs w0 = emit (onIsPlayingChange true) w0
  /\ emitted (start 0 missingConfigs) w0 = [onIsPlayingChange true].
Proof.
  apply (C8_play_guard_is_a_no_op 0 missingConfigs w0); reflexivity.
Defined.

(** C8 as stated fails for the public entry points: with bookId missing,
    [start] still emits an event to the caller, and [resume] still pauses,
    raises the restart guard and arms a timer. *)
Lemma C8_public_call_not_silent :
  missing missingConfigs = true
  /\ emitted (start 0 missingConfigs) w0 = [onIsPlayingChange true]
  /\ existsb is_caller_event (emitted (start 0 missingConfigs) w0) = true
  /\ start 0 missingConfigs w0 <> w0
  /\ isRestarting (resume 0 missingConfigs w0) = true
  /\ List.length (pending (resume 0 missingConfigs w0)) = 1%nat.
Proof.
  repeat split; try reflexivity.
  intros H; apply (f_equal trace) in H; discriminate H.
Qed.

(** C9 ([start] notifies before validating).  For every index and every
    configuration, [start] first emits [onIsPlayingChange(true)] and only then
    runs [play], whatever [play] goes on to decide.  An end-of-book start
    therefore emits true, then false, then [onBookCompleted]; a start whose
    configuration fails the guard emits true and nothing else. *)
Theorem C9_start_notifies_first :
  forall (index : Z) (configs : SpeechConfigs) (w : World),
    start index configs w = play index configs (emit (onIsPlayingChange true) w)
    /\ (exists rest, emitted (start index configs) w = onIsPlayingChange true :: rest)
    /\ (missing configs = true ->
        emitted (start index configs) w = [onIsPlayingChange true])
    /\ (forall total,
          missing configs = false ->
          totalLines configs = Some total ->
          index < 0 \/ index >= total ->
          emitted (start index configs) w =
            [onIsPlayingChange true; onIsPlayingChange false;
             onBookCompleted (clock w)]).
Proof.
  intros index configs w; split; [reflexivity|]; split; [|split].
  - destruct (play_extends_trace index configs (emit (onIsPlayingChange true) w))
      as [l Hl].
    exists l; apply emitted_of_trace.
    rewrite start_unfold, Hl; simpl; now rewrite <- app_assoc.
  - apply emitted_start_missing.
  - intros total; apply emitted_start_end_of_book.
Qed.

Lemma C9_start_notifies_first_witness :
  emitted (start 0 missingConfigs) w0 = [onIsPlayingChange true]
  /\ emitted (start 10 mockConfigs) w0 =
       [onIsPlayingChange true; onIsPlayingChange false; onBookCompleted (clock w0)].
Proof.
  split.
  - destruct (C9_start_notifies_first 0 missingConfigs w0) as (_ & _ & H & _).
    apply H; reflexivity.
  - destruct (C9_start_notifies_first 10 mockConfigs w0) as (_ & _ & _ & H).
    apply (H 10); [reflexivity | reflexivity | right; lia].
Defined.

(** C10 (the guard tests falsiness).  A configuration whose totalLines is 0,
    or whose bookId is the empty string, fails the guard like one where the
    field is absent: for every index [play] does nothing, so [start] emits
    only [onIsPlayingChange(true)] and an empty book never gets
    [onBookCompleted], although index >= totalLines holds. *)
Theorem C10_zero_and_empty_are_missing :
  forall (index : Z) (configs : SpeechConfigs) (w : World),
    totalLines configs = Some 0 \/ bookId configs = Some "" ->
    missing configs = true
    /\ play index configs w = w
    /\ emitted (start index configs) w = [onIsPlayingChange true]
    /\ forall t, ~ In (onBookCompleted t) (emitted (start index configs) w).
Proof.
  intros index configs w H.
  assert (Hm : missing configs = true).
  { unfold missing; destruct H as [H|H]; rewrite H; simpl.
    - now rewrite orb_true_r.
    - reflexivity. }
  split; [exact Hm|]; split; [now apply play_missing|].
  rewrite (emitted_start_missing index configs w Hm); split; [reflexivity|].
  intros t [E|[]]; discriminate E.
Qed.

Lemma C10_zero_and_empty_are_missing_witness :
  (play 0 emptyBook w0 = w0
   /\ emitted (start 0 emptyBook) w0 = [onIsPlayingChange true])
  /\ (play 3 noBookId w0 = w0
      /\ emitted (start 3 noBookId) w0 = [onIsPlayingChange true]).
Proof.
  split.
  - destruct (C10_zero_and_empty_are_missing 0 emptyBook w0) as (_ & Hp & He & _);
      [left; reflexivity | split; assumption].
  - destruct (C10_zero_and_empty_are_missing 3 noBookId w0) as (_ & Hp & He & _);
      [right; reflexivity | split; assumption].
Defined.

(* ------------------------------------------------------------------ *)
(** ** Further equations on the fields *)

Lemma silentAudio_emit (a : Action) (w : World) :
  silentAudio (emit a w) = silentAudio w.
Proof. reflexivity. Qed.

#[export] Hint Rewrite silentAudio_emit : silent.

Lemma silentAudio_set_isRestarting (b : bool) (w : World) :
  silentAudio (set_isRestarting b w) = silentAudio w.
Proof. reflexivity. Qed.

#[export] Hint Rewrite silentAudio_set_isRestarting : silent.

Lemma silentAudio_set_currentBookId (b : option string) (w : World) :
  silentAudio (set_currentBookId b w) = silentAudio w.
Proof. reflexivity. Qed.

#[export] Hint Rewrite silentAudio_set_currentBookId : silent.

Lemma silentAudio_set_clock (t : N) (w : World) :
  silentAudio (set_clock t w) = silentAudio w.
Proof. reflexivity. Qed.

#[export] Hint Rewrite silentAudio_set_clock : silent.

Lemma silentAudio_set_pending (p : list Timer) (w : World) :
  silentAudio (set_pending p w) = silentAudio w.
Proof. reflexivity. Qed.

#[export] Hint Rewrite silentAudio_set_pending : silent.

Lemma silentAudio_set_timer (t : option nat) (w : World) :
  silentAudio (set_timer t w) = silentAudio w.
Proof. reflexivity. Qed.

#[export] Hint Rewrite silentAudio_set_timer : silent.

Lemma silentAudio_set_next_id (n : nat) (w : World) :
  silentAudio (set_next_id n w) = silentAudio w.
Proof. reflexivity. Qed.

#[export] Hint Rewrite silentAudio_set_next_id : silent.

Lemma silentAudio_set_ttsNative (u : option Utterance) (w : World) :
  silentAudio (set_ttsNative u w) = silentAudio w.
Proof. reflexivity. Qed.

#[export] Hint Rewrite silentAudio_set_ttsNative : silent.

Lemma silentAudio_set_cloudAudio (c : CloudAudio) (w : World) :
  silentAudio (set_cloudAudio c w) = silentAudio w.
Proof. reflexivity. Qed.

#[export] Hint Rewrite silentAudio_set_cloudAudio : silent.

Lemma silentAudio_clearTimeout (id : nat) (w : World) :
  silentAudio (clearTimeout id w) = silentAudio w.
Proof. reflexivity. Qed.

#[export] Hint Rewrite silentAudio_clearTimeout : silent.

Lemma silentAudio_setTimeout_into_timer (c : Closure) (d : N) (w : World) :
  silentAudio (setTimeout_into_timer c d w) = silentAudio w.
Proof. reflexivity. Qed.

#[export] Hint Rewrite silentAudio_setTimeout_into_timer : silent.

Lemma silentAudio_cloud_pause (w : World) :
  silentAudio (cloud_pause w) = silentAudio w.
Proof. reflexivity. Qed.

#[export] Hint Rewrite silentAudio_cloud_pause : silent.

Lemma silentAudio_cloud_set_src (u : string) (w : World) :
  silentAudio (cloud_set_src u w) = silentAudio w.
Proof. reflexivity. Qed.

#[export] Hint Rewrite silentAudio_cloud_set_src : silent.

Lemma silentAudio_cloud_set_playbackRate (r : Q) (w : World) :
  silentAudio (cloud_set_playbackRate r w) = silentAudio w.
Proof. reflexivity. Qed.

#[export] Hint Rewrite silentAudio_cloud_set_playbackRate : silent.

Lemma silentAudio_cloud_set_onended (h : option Closure) (w : World) :
  silentAudio (cloud_set_onended h w) = silentAudio w.
Proof. reflexivity. Qed.

#[export] Hint Rewrite silentAudio_cloud_set_onended : silent.

Lemma silentAudio_cloud_play (w : World) :
  silentAudio (cloud_play w) = silentAudio w.
Proof. reflexivity. Qed.

#[export] Hint Rewrite silentAudio_cloud_play : silent.

Lemma silentAudio_cloud_removeSrc (w : World) :
  silentAudio (cloud_removeSrc w) = silentAudio w.
Proof. reflexivity. Qed.

#[export] Hint Rewrite silentAudio_cloud_removeSrc : silent.

Lemma silentAudio_cloud_load (w : World) :
  silentAudio (cloud_load w) = silentAudio w.
Proof. reflexivity. Qed.

#[export] Hint Rewrite silentAudio_cloud_load : silent.

Lemma silentAudio_stopCloud (w : World) :
  silentAudio (stopCloud w) = silentAudio w.
Proof. reflexivity. Qed.

#[export] Hint Rewrite silentAudio_stopCloud : silent.

Lemma silentAudio_tts_stop (w : World) :
  silentAudio (tts_stop w) = silentAudio w.
Proof. reflexivity. Qed.

#[export] Hint Rewrite silentAudio_tts_stop : silent.

Lemma silentAudio_tts_speak (t : option string) (v : string) (c : Closure) (w : World) :
  silentAudio (tts_speak t v c w) = silentAudio w.
Proof. reflexivity. Qed.

#[export] Hint Rewrite silentAudio_tts_speak : silent.

Lemma silentAudio_startCloudSpeech (i : Z) (c : SpeechConfigs) (w : World) :
  silentAudio (startCloudSpeech i c w) = silentAudio w.
Proof. reflexivity. Qed.

#[export] Hint Rewrite silentAudio_startCloudSpeech : silent.

Lemma silentAudio_startSystemSpeech (i : Z) (c : SpeechConfigs) (w : World) :
  silentAudio (startSystemSpeech i c w) = silentAudio w.
Proof. reflexivity. Qed.

#[export] Hint Rewrite silentAudio_startSystemSpeech : silent.

Lemma silentAudio_clear_timer_field (w : World) :
  silentAudio (clear_timer_field w) = silentAudio w.
Proof. unfold clear_timer_field; destruct (timer w); reflexivity. Qed.

#[export] Hint Rewrite silentAudio_clear_timer_field : silent.

Lemma mediaSession_emit (a : Action) (w : World) :
  mediaSession (emit a w) = mediaSession w.
Proof. reflexivity. Qed.

#[export] Hint Rewrite mediaSession_emit : msdb.

Lemma mediaSession_set_isRestarting (b : bool) (w : World) :
  mediaSession (set_isRestarting b w) = mediaSession w.
Proof. reflexivity. Qed.

#[export] Hint Rewrite mediaSession_set_isRestarting : msdb.

Lemma mediaSession_set_currentBookId (b : option string) (w : World) :
  mediaSession (set_currentBookId b w) = mediaSession w.
Proof. reflexivity. Qed.

#[export] Hint Rewrite mediaSession_set_currentBookId : msdb.

Lemma mediaSession_set_clock (t : N) (w : World) :
  mediaSession (set_clock t w) = mediaSession w.
Proof. reflexivity. Qed.

#[export] Hint Rewrite mediaSession_set_clock : msdb.

Lemma mediaSession_set_pending (p : list Timer) (w : World) :
  mediaSession (set_pending p w) = mediaSession w.
Proof. reflexivity. Qed.

#[export] Hint Rewrite mediaSession_set_pending : msdb.

Lemma mediaSession_set_timer (t : option nat) (w : World) :
  mediaSession (set_timer t w) = mediaSession w.
Proof. reflexivity. Qed.

#[export] Hint Rewrite mediaSession_set_timer : msdb.

Lemma mediaSession_set_next_id (n : nat) (w : World) :
  mediaSession (set_next_id n w) = mediaSession w.
Proof. reflexivity. Qed.

#[export] Hint Rewrite mediaSession_set_next_id : msdb.

Lemma mediaSession_set_ttsNative (u : option Utterance) (w : World) :
  mediaSession (set_ttsNative u w) = mediaSession w.
Proof. reflexivity. Qed.

#[export] Hint Rewrite mediaSession_set_ttsNative : msdb.

Lemma mediaSession_set_cloudAudio (c : CloudAudio) (w : World) :
  mediaSession (set_cloudAudio c w) = mediaSession w.
Proof. reflexivity. Qed.

#[export] Hint Rewrite mediaSession_set_cloudAudio : msdb.

Lemma mediaSession_clearTimeout (id : nat) (w : World) :
  mediaSession (clearTimeout id w) = mediaSession w.
Proof. reflexivity. Qed.

#[export] Hint Rewrite mediaSession_clearTimeout : msdb.

Lemma mediaSession_setTimeout_into_timer (c : Closure) (d : N) (w : World) :
  mediaSession (setTimeout_into_timer c d w) = mediaSession w.
Proof. reflexivity. Qed.

#[export] Hint Rewrite mediaSession_setTimeout_into_timer : msdb.

Lemma mediaSession_cloud_pause (w : World) :
  mediaSession (cloud_pause w) = mediaSession w.
Proof. reflexivity. Qed.

#[export] Hint Rewrite mediaSession_cloud_pause : msdb.

Lemma mediaSession_cloud_set_src (u : string) (w : World) :
  mediaSession (cloud_set_src u w) = mediaSession w.
Proof. reflexivity. Qed.

#[export] Hint Rewrite mediaSession_cloud_set_src : msdb.

Lemma mediaSession_cloud_set_playbackRate (r : Q) (w : World) :
  mediaSession (cloud_set_playbackRate r w) = mediaSession w.
Proof. reflexivity. Qed.

#[export] Hint Rewrite mediaSession_cloud_set_playbackRate : msdb.

Lemma mediaSession_cloud_set_onended (h : option Closure) (w : World) :
  mediaSession (cloud_set_onended h w) = mediaSession w.
Proof. reflexivity. Qed.

#[export] Hint Rewrite mediaSession_cloud_set_onended : msdb.

Lemma mediaSession_cloud_play (w : World) :
  mediaSession (cloud_play w) = mediaSession w.
Proof. reflexivity. Qed.

#[export] Hint Rewrite mediaSession_cloud_play : msdb.

Lemma mediaSession_cloud_removeSrc (w : World) :
  mediaSession (cloud_removeSrc w) = mediaSession w.
Proof. reflexivity. Qed.

#[export] Hint Rewrite mediaSession_cloud_removeSrc : msdb.

Lemma mediaSession_cloud_load (w : World) :
  mediaSession (cloud_load w) = mediaSession w.
Proof. reflexivity. Qed.

#[export] Hint Rewrite mediaSession_cloud_load : msdb.

Lemma mediaSession_stopCloud (w : World) :
  mediaSession (stopCloud w) = mediaSession w.
Proof. reflexivity. Qed.

#[export] Hint Rewrite mediaSession_stopCloud : msdb.

Lemma mediaSession_tts_stop (w : World) :
  mediaSession (tts_stop w) = mediaSession w.
Proof. reflexivity. Qed.

#[export] Hint Rewrite mediaSession_tts_stop : msdb.

Lemma mediaSession_tts_speak (t : option string) (v : string) (c : Closure) (w : World) :
  mediaSession (tts_speak t v c w) = mediaSession w.
Proof. reflexivity. Qed.

#[export] Hint Rewrite mediaSession_tts_speak : msdb.

Lemma mediaSession_startCloudSpeech (i : Z) (c : SpeechConfigs) (w : World) :
  mediaSession (startCloudSpeech i c w) = mediaSession w.
Proof. reflexivity. Qed.

#[export] Hint Rewrite mediaSession_startCloudSpeech : msdb.

Lemma mediaSession_startSystemSpeech (i : Z) (c : SpeechConfigs) (w : World) :
  mediaSession (startSystemSpeech i c w) = mediaSession w.
Proof. reflexivity. Qed.

#[export] Hint Rewrite mediaSession_startSystemSpeech : msdb.

Lemma mediaSession_clear_timer_field (w : World) :
  mediaSession (clear_timer_field w) = mediaSession w.
Proof. unfold clear_timer_field; destruct (timer w); reflexivity. Qed.

#[export] Hint Rewrite mediaSession_clear_timer_field : msdb.

Lemma currentBookId_emit (a : Action) (w : World) :
  currentBookId (emit a w) = currentBookId w.
Proof. reflexivity. Qed.

#[export] Hint Rewrite currentBookId_emit : msdb.

Lemma currentBookId_set_isRestarting (b : bool) (w : World) :
  currentBookId (set_isRestarting b w) = currentBookId w.
Proof. reflexivity. Qed.

#[export] Hint Rewrite currentBookId_set_isRestarting : msdb.

Lemma currentBookId_set_currentBookId (b : option string) (w : World) :
  currentBookId (set_currentBookId b w) = b.
Proof. reflexivity. Qed.

#[export] Hint Rewrite currentBookId_set_currentBookId : msdb.

Lemma currentBookId_set_clock (t : N) (w : World) :
  currentBookId (set_clock t w) = currentBookId w.
Proof. reflexivity. Qed.

#[export] Hint Rewrite currentBookId_set_clock : msdb.

Lemma currentBookId_set_pending (p : list Timer) (w : World) :
  currentBookId (set_pending p w) = currentBookId w.
Proof. reflexivity. Qed.

#[export] Hint Rewrite currentBookId_set_pending : msdb.

Lemma currentBookId_set_timer (t : option nat) (w : World) :
  currentBookId (set_timer t w) = currentBookId w.
Proof. reflexivity. Qed.

#[export] Hint Rewrite currentBookId_set_timer : msdb.

Lemma currentBookId_set_next_id (n : nat) (w : World) :
  currentBookId (set_next_id n w) = currentBookId w.
Proof. reflexivity. Qed.

#[export] Hint Rewrite currentBookId_set_next_id : msdb.

Lemma currentBookId_set_ttsNative (u : option Utterance) (w : World) :
  currentBookId (set_ttsNative u w) = currentBookId w.
Proof. reflexivity. Qed.

#[export] Hint Rewrite currentBookId_set_ttsNative : msdb.

Lemma currentBookId_set_cloudAudio (c : CloudAudio) (w : World) :
  currentBookId (set_cloudAudio c w) = currentBookId w.
Proof. reflexivity. Qed.

#[export] Hint Rewrite currentBookId_set_cloudAudio : msdb.

Lemma currentBookId_clearTimeout (id : nat) (w : World) :
  currentBookId (clearTimeout id w) = currentBookId w.
Proof. reflexivity. Qed.

#[export] Hint Rewrite currentBookId_clearTimeout : msdb.

Lemma currentBookId_setTimeout_into_timer (c : Closure) (d : N) (w : World) :
  currentBookId (setTimeout_into_timer c d w) = currentBookId w.
Proof. reflexivity. Qed.

#[export] Hint Rewrite currentBookId_setTimeout_into_timer : msdb.

Lemma currentBookId_cloud_pause (w : World) :
  currentBookId (cloud_pause w) = currentBookId w.
Proof. reflexivity. Qed.

#[export] Hint Rewrite currentBookId_cloud_pause : msdb.

Lemma currentBookId_cloud_set_src (u : string) (w : World) :
  currentBookId (cloud_set_src u w) = currentBookId w.
Proof. reflexivity. Qed.

#[export] Hint Rewrite currentBookId_cloud_set_src : msdb.

Lemma currentBookId_cloud_set_playbackRate (r : Q) (w : World) :
  currentBookId (cloud_set_playbackRate r w) = currentBookId w.
Proof. reflexivity. Qed.

#[export] Hint Rewrite currentBookId_cloud_set_playbackRate : msdb.

Lemma currentBookId_cloud_set_onended (h : option Closure) (w : World) :
  currentBookId (cloud_set_onended h w) = currentBookId w.
Proof. reflexivity. Qed.

#[export] Hint Rewrite currentBookId_cloud_set_onended : msdb.

Lemma currentBookId_cloud_play (w : World) :
  currentBookId (cloud_play w) = currentBookId w.
Proof. reflexivity. Qed.

#[export] Hint Rewrite currentBookId_cloud_play : msdb.

Lemma currentBookId_cloud_removeSrc (w : World) :
  currentBookId (cloud_removeSrc w) = currentBookId w.
Proof. reflexivity. Qed.

#[export] Hint Rewrite currentBookId_cloud_removeSrc : msdb.

Lemma currentBookId_cloud_load (w : World) :
  currentBookId (cloud_load w) = currentBookId w.
Proof. reflexivity. Qed.

#[export] Hint Rewrite currentBookId_cloud_load : msdb.

Lemma currentBookId_stopCloud (w : World) :
  currentBookId (stopCloud w) = currentBookId w.
Proof. reflexivity. Qed.

#[export] Hint Rewrite currentBookId_stopCloud : msdb.

Lemma currentBookId_tts_stop (w : World) :
  currentBookId (tts_stop w) = currentBookId w.
Proof. reflexivity. Qed.

#[export] Hint Rewrite currentBookId_tts_stop : msdb.

Lemma currentBookId_tts_speak (t : option string) (v : string) (c : Closure) (w : World) :
  currentBookId (tts_speak t v c w) = currentBookId w.
Proof. reflexivity. Qed.

#[export] Hint Rewrite currentBookId_tts_speak : msdb.

Lemma currentBookId_startCloudSpeech (i : Z) (c : SpeechConfigs) (w : World) :
  currentBookId (startCloudSpeech i c w) = currentBookId w.
Proof. reflexivity. Qed.

#[export] Hint Rewrite currentBookId_startCloudSpeech : msdb.

Lemma currentBookId_startSystemSpeech (i : Z) (c : SpeechConfigs) (w : World) :
  currentBookId (startSystemSpeech i c w) = currentBookId w.
Proof. reflexivity. Qed.

#[export] Hint Rewrite currentBookId_startSystemSpeech : msdb.

Lemma currentBookId_clear_timer_field (w : World) :
  currentBookId (clear_timer_field w) = currentBookId w.
Proof. unfold clear_timer_field; destruct (timer w); reflexivity. Qed.

#[export] Hint Rewrite currentBookId_clear_timer_field : msdb.

Lemma cloudAudio_set_pending (p : list Timer) (w : World) :
  cloudAudio (set_pending p w) = cloudAudio w.
Proof. reflexivity. Qed.

#[export] Hint Rewrite cloudAudio_set_pending : audio.

Lemma ttsNative_set_pending (p : list Timer) (w : World) :
  ttsNative (set_pending p w) = ttsNative w.
Proof. reflexivity. Qed.

#[export] Hint Rewrite ttsNative_set_pending : audio.

Lemma cloudAudio_set_timer (t : option nat) (w : World) :
  cloudAudio (set_timer t w) = cloudAudio w.
Proof. reflexivity. Qed.

#[export] Hint Rewrite cloudAudio_set_timer : audio.

Lemma ttsNative_set_timer (t : option nat) (w : World) :
  ttsNative (set_timer t w) = ttsNative w.
Proof. reflexivity. Qed.

#[export] Hint Rewrite ttsNative_set_timer : audio.

Lemma cloudAudio_set_next_id (n : nat) (w : World) :
  cloudAudio (set_next_id n w) = cloudAudio w.
Proof. reflexivity. Qed.

#[export] Hint Rewrite cloudAudio_set_next_id : audio.

Lemma ttsNative_set_next_id (n : nat) (w : World) :
  ttsNative (set_next_id n w) = ttsNative w.
Proof. reflexivity. Qed.

#[export] Hint Rewrite ttsNative_set_next_id : audio.

Lemma cloudAudio_clearTimeout (id : nat) (w : World) :
  cloudAudio (clearTimeout id w) = cloudAudio w.
Proof. reflexivity. Qed.

#[export] Hint Rewrite cloudAudio_clearTimeout : audio.

Lemma ttsNative_clearTimeout (id : nat) (w : World) :
  ttsNative (clearTimeout id w) = ttsNative w.
Proof. reflexivity. Qed.

#[export] Hint Rewrite ttsNative_clearTimeout : audio.

Lemma cloudAudio_setTimeout_into_timer (c : Closure) (d : N) (w : World) :
  cloudAudio (setTimeout_into_timer c d w) = cloudAudio w.
Proof. reflexivity. Qed.

#[export] Hint Rewrite cloudAudio_setTimeout_into_timer : audio.

Lemma ttsNative_setTimeout_into_timer (c : Closure) (d : N) (w : World) :
  ttsNative (setTimeout_into_timer c d w) = ttsNative w.
Proof. reflexivity. Qed.

#[export] Hint Rewrite ttsNative_setTimeout_into_timer : audio.

Lemma ttsNative_set_cloudAudio (c : CloudAudio) (w : World) :
  ttsNative (set_cloudAudio c w) = ttsNative w.
Proof. reflexivity. Qed.

#[export] Hint Rewrite ttsNative_set_cloudAudio : audio.

Lemma cloudAudio_set_ttsNative (u : option Utterance) (w : World) :
  cloudAudio (set_ttsNative u w) = cloudAudio w.
Proof. reflexivity. Qed.

#[export] Hint Rewrite cloudAudio_set_ttsNative : audio.

Lemma cloudAudio_startSystemSpeech (i : Z) (c : SpeechConfigs) (w : World) :
  cloudAudio (startSystemSpeech i c w) = cloudAudio w.
Proof. reflexivity. Qed.

#[export] Hint Rewrite cloudAudio_startSystemSpeech : audio.

Lemma silentAudio_with_ms (f : MediaSession -> MediaSession) (w : World) :
  silentAudio (with_ms f w) = silentAudio w.
Proof. unfold with_ms; destruct (mediaSession w); reflexivity. Qed.

#[export] Hint Rewrite silentAudio_with_ms : silent.

Lemma currentBookId_with_ms (f : MediaSession -> MediaSession) (w : World) :
  currentBookId (with_ms f w) = currentBookId w.
Proof. unfold with_ms; destruct (mediaSession w); reflexivity. Qed.

#[export] Hint Rewrite currentBookId_with_ms : msdb.

Lemma silentAudio_set_mediaSession (m : option MediaSession) (w : World) :
  silentAudio (set_mediaSession m w) = silentAudio w.
Proof. reflexivity. Qed.

#[export] Hint Rewrite silentAudio_set_mediaSession : silent.

Lemma silentAudio_clearMediaSession (w : World) :
  silentAudio (clearMediaSession w) = silentAudio w.
Proof. unfold clearMediaSession; apply silentAudio_with_ms. Qed.

#[export] Hint Rewrite silentAudio_clearMediaSession : silent.

Lemma silentAudio_updateActionHandlers (i : Z) (c : SpeechConfigs) (w : World) :
  silentAudio (updateActionHandlers i c w) = silentAudio w.
Proof. unfold updateActionHandlers; apply silentAudio_with_ms. Qed.

#[export] Hint Rewrite silentAudio_updateActionHandlers : silent.

Lemma currentBookId_clearMediaSession (w : World) :
  currentBookId (clearMediaSession w) = currentBookId w.
Proof. unfold clearMediaSession; apply currentBookId_with_ms. Qed.

#[export] Hint Rewrite currentBookId_clearMediaSession : msdb.

Lemma currentBookId_updateActionHandlers (i : Z) (c : SpeechConfigs) (w : World) :
  currentBookId (updateActionHandlers i c w) = currentBookId w.
Proof. unfold updateActionHandlers; apply currentBookId_with_ms. Qed.

#[export] Hint Rewrite currentBookId_updateActionHandlers : msdb.

Lemma silentAudio_setPositionState (i : Z) (c : SpeechConfigs) (w : World) :
  silentAudio (setPositionState i c w) = silentAudio w.
Proof. 
  unfold setPositionState.
  destruct (mediaSession w) as [m|]; [|reflexivity].
  destruct (ms_hasSetPositionState m); [|reflexivity].
  destruct (ms_setPositionState_throws m); [reflexivity|].
  apply silentAudio_with_ms.
 Qed.

#[export] Hint Rewrite silentAudio_setPositionState : silent.

Lemma currentBookId_setPositionState (i : Z) (c : SpeechConfigs) (w : World) :
  currentBookId (setPositionState i c w) = currentBookId w.
Proof. 
  unfold setPositionState.
  destruct (mediaSession w) as [m|]; [|reflexivity].
  destruct (ms_hasSetPositionState m); [|reflexivity].
  destruct (ms_setPositionState_throws m); [reflexivity|].
  apply currentBookId_with_ms.
 Qed.

#[export] Hint Rewrite currentBookId_setPositionState : msdb.

Lemma silentAudio_setupMediaSession (i : Z) (c : SpeechConfigs) (w : World) :
  silentAudio (setupMediaSession i c w) = silentAudio w.
Proof. 
  unfold setupMediaSession.
  destruct (mediaSession w); [|reflexivity].
  destruct (strict_neq (currentBookId w) (bookId c)); unfold seq, skip;
    now autorewrite with silent.
 Qed.

#[export] Hint Rewrite silentAudio_setupMediaSession : silent.

Lemma silentAudio_silent_play (w : World) : silentAudio (silent_play w) = true.
Proof. reflexivity. Qed.

Lemma silentAudio_silent_pause (w : World) : silentAudio (silent_pause w) = false.
Proof. reflexivity. Qed.

#[export] Hint Rewrite silentAudio_silent_play silentAudio_silent_pause : silent.

Lemma mediaSession_silent_play (w : World) :
  mediaSession (silent_play w) = mediaSession w.
Proof. reflexivity. Qed.

Lemma mediaSession_silent_pause (w : World) :
  mediaSession (silent_pause w) = mediaSession w.
Proof. reflexivity. Qed.

Lemma currentBookId_silent_play (w : World) :
  currentBookId (silent_play w) = currentBookId w.
Proof. reflexivity. Qed.

Lemma currentBookId_silent_pause (w : World) :
  currentBookId (silent_pause w) = currentBookId w.
Proof. reflexivity. Qed.

#[export] Hint Rewrite mediaSession_silent_play mediaSession_silent_pause
  currentBookId_silent_play currentBookId_silent_pause : msdb.

Lemma mediaSession_with_ms (f : MediaSession -> MediaSession) (w : World) :
  mediaSession (with_ms f w) = option_map f (mediaSession w).
Proof. unfold with_ms; destruct (mediaSession w) eqn:E; simpl; auto. Qed.

#[export] Hint Rewrite mediaSession_with_ms : msdb.

Lemma mediaSession_clearMediaSession (w : World) :
  mediaSession (clearMediaSession w) =
    option_map (ms_set_handlers None false None None) (mediaSession w).
Proof. unfold clearMediaSession; apply mediaSession_with_ms. Qed.

Lemma mediaSession_updateActionHandlers (i : Z) (c : SpeechConfigs) (w : World) :
  mediaSession (updateActionHandlers i c w) =
    option_map (ms_set_handlers (Some (mkClosure i c)) true
                  (Some (mkClosure i c)) (Some (mkClosure i c))) (mediaSession w).
Proof. unfold updateActionHandlers; apply mediaSession_with_ms. Qed.

Lemma mediaSession_setPositionState (i : Z) (c : SpeechConfigs) (w : World) :
  mediaSession (setPositionState i c w) =
    option_map
      (fun m =>
         if ms_hasSetPositionState m then
           if ms_setPositionState_throws m then m
           else ms_set_positionState
                  (mkPosition (totalLines c) (rate_or_default (rate c)) i) m
         else m)
      (mediaSession w).
Proof.
  unfold setPositionState.
  destruct (mediaSession w) as [m|] eqn:E; simpl; [|exact E].
  destruct (ms_hasSetPositionState m); [|exact E].
  destruct (ms_setPositionState_throws m).
  - rewrite mediaSession_emit; exact E.
  - rewrite mediaSession_with_ms, E; reflexivity.
Qed.

#[export] Hint Rewrite mediaSession_clearMediaSession
  mediaSession_updateActionHandlers mediaSession_setPositionState : msdb.

Lemma mediaSession_setupMediaSession (i : Z) (c : SpeechConfigs) (w : World) :
  mediaSession (setupMediaSession i c w) =
    option_map (ms_after_setup i c (currentBookId w)) (mediaSession w).
Proof.
  unfold setupMediaSession, ms_after_setup.
  destruct (mediaSession w) as [m|] eqn:E; simpl; [|exact E].
  destruct (strict_neq (currentBookId w) (bookId c)); unfold seq, skip;
    autorewrite with msdb; rewrite E; reflexivity.
Qed.

Lemma currentBookId_setupMediaSession (i : Z) (c : SpeechConfigs) (w : World) :
  currentBookId (setupMediaSession i c w) =
    match mediaSession w with
    | Some _ =>
        if strict_neq (currentBookId w) (bookId c) then bookId c
        else currentBookId w
    | None => currentBookId w
    end.
Proof.
  unfold setupMediaSession.
  destruct (mediaSession w) as [m|] eqn:E; [|reflexivity].
  destruct (strict_neq (currentBookId w) (bookId c)); unfold seq, skip;
    now autorewrite with msdb.
Qed.

#[export] Hint Rewrite mediaSession_setupMediaSession
  currentBookId_setupMediaSession : msdb.

(** Every field of the world after [pause]. *)
Lemma pause_state (w : World) :
  silentAudio (pause w) = false
  /\ cloudAudio (pause w) = mkCloud None false (playbackRate (cloudAudio w)) None
  /\ ttsNative (pause w) = None
  /\ isRestarting (pause w) = isRestarting w
  /\ timer (pause w) = timer w
  /\ currentBookId (pause w) = currentBookId w
  /\ mediaSession (pause w) =
       option_map (ms_set_playbackState ps_paused) (mediaSession w)
  /\ pending (pause w) = pending (clear_timer_field w)
  /\ next_id (pause w) = next_id w
  /\ clock (pause w) = clock w.
Proof.
  destruct (pause_audio w) as [Hc Hu].
  destruct (pause_fields w) as (Ht & Hr & Hn & Hk).
  split; [|split; [exact Hc|split; [exact Hu|split; [exact Hr|split; [exact Ht|]]]]].
  - unfold pause, seq; now autorewrite with silent.
  - split; [|split; [|split; [|split; [exact Hn|exact Hk]]]].
    + unfold pause, seq; now autorewrite with msdb.
    + unfold pause, seq; now autorewrite with msdb.
    + rewrite pause_unfold.
      now destruct (keeps_pause_rest (clear_timer_field w)) as (-> & _).
Qed.

(** Every field of the world after [stop]. *)
Lemma stop_state (w : World) :
  silentAudio (stop w) = false
  /\ cloudAudio (stop w) = mkCloud None false (playbackRate (cloudAudio w)) None
  /\ ttsNative (stop w) = None
  /\ isRestarting (stop w) = false
  /\ timer (stop w) = timer w
  /\ currentBookId (stop w) = currentBookId w
  /\ mediaSession (stop w) = option_map ms_after_stop (mediaSession w)
  /\ pending (stop w) = pending (clear_timer_field w)
  /\ next_id (stop w) = next_id w
  /\ clock (stop w) = clock w.
Proof.
  destruct (stop_audio w) as [Hc Hu].
  split; [|split; [exact Hc|split; [exact Hu|]]].
  - unfold stop, seq; now autorewrite with silent.
  - rewrite stop_unfold.
    destruct (keeps_stop_rest (clear_timer_field (set_isRestarting false w)))
      as (Hp & Ht & Hr & Hn & Hk).
    destruct (clear_timer_field_fields (set_isRestarting false w))
      as (Ht' & Hr' & Hn' & Hk').
    rewrite Hp, Ht, Hr, Hn, Hk, Ht', Hr', Hn', Hk'.
    split; [reflexivity|]; split; [reflexivity|]; split; [|split].
    + unfold stop_rest, seq; now autorewrite with msdb.
    + unfold stop_rest, seq, ms_after_stop; autorewrite with msdb.
      destruct (mediaSession w); reflexivity.
    + split; [|split; reflexivity].
      unfold clear_timer_field.
      change (timer (set_isRestarting false w)) with (timer w).
      destruct (timer w); reflexivity.
Qed.

(** Which branch of [play] an index and a configuration select. *)
Lemma play_case_split (i : Z) (c : SpeechConfigs) :
  missing c = true
  \/ (exists total,
        missing c = false /\ totalLines c = Some total /\ (i < 0 \/ i >= total))
  \/ (exists total,
        missing c = false /\ totalLines c = Some total /\ 0 <= i < total
        /\ i >= Z.of_nat (List.length (lines c)))
  \/ (exists total voice,
        missing c = false /\ totalLines c = Some total
        /\ selectedVoice c = Some voice /\ 0 <= i < total
        /\ i < Z.of_nat (List.length (lines c))).
Proof.
  destruct (missing c) eqn:Hm; [now left|right].
  destruct (missing_false_inv _ Hm) as (b & total & v & _ & _ & Ht & _ & Hv).
  destruct (Z_lt_ge_dec i 0) as [Hneg|Hpos].
  { left; exists total; auto. }
  destruct (Z_lt_ge_dec i total) as [Hin|Hout].
  2:{ left; exists total; auto. }
  right.
  destruct (Z_lt_ge_dec i (Z.of_nat (List.length (lines c)))) as [Hld|Hgap].
  - right; exists total, v; repeat split; auto; lia.
  - left; exists total; repeat split; auto; lia.
Qed.

Lemma play_loaded_line_unfold (index : Z) (configs : SpeechConfigs)
    (total : Z) (voice : VoiceOption) (w : World) :
  missing configs = false ->
  totalLines configs = Some total ->
  selectedVoice configs = Some voice ->
  0 <= index < total ->
  index < Z.of_nat (List.length (lines configs)) ->
  play index configs w =
    (silent_play ;;
     setupMediaSession index configs ;;
     with_ms (ms_set_playbackState ps_playing) ;;
     (match vtype voice with
      | cloud => tts_stop ;; startCloudSpeech index configs
      | system => skip
      end) ;;
     (match vtype voice with
      | system => stopCloud ;; startSystemSpeech index configs
      | cloud => skip
      end)) w.
Proof.
  intros Hm Ht Hv Hi Hl.
  unfold play; rewrite Hm, Ht, Hv.
  replace (Z.ltb index 0 || Z.geb index total) with false
    by (symmetry; apply orb_false_iff; split;
        [apply Z.ltb_ge; lia | rewrite Z.geb_leb; apply Z.leb_gt; lia]).
  replace (Z.geb index (Z.of_nat (List.length (lines configs)))) with false
    by (symmetry; rewrite Z.geb_leb; apply Z.leb_gt; lia).
  reflexivity.
Qed.

(** The keep-alive cue and the media session after [play] has dispatched a
    loaded line. *)
Lemma play_loaded_line_ui (index : Z) (configs : SpeechConfigs)
    (total : Z) (voice : VoiceOption) (w : World) :
  missing configs = false ->
  totalLines configs = Some total ->
  selectedVoice configs = Some voice ->
  0 <= index < total ->
  index < Z.of_nat (List.length (lines configs)) ->
  silentAudio (play index configs w) = true
  /\ mediaSession (play index configs w) =
       option_map
         (fun m => ms_set_playbackState ps_playing
                     (ms_after_setup index configs (currentBookId w) m))
         (mediaSession w)
  /\ currentBookId (play index configs w) =
       match mediaSession w with
       | Some _ =>
           if strict_neq (currentBookId w) (bookId configs) then bookId configs
           else currentBookId w
       | None => currentBookId w
       end.
Proof.
  intros Hm Ht Hv Hi Hl.
  rewrite (play_loaded_line_unfold index configs total voice w Hm Ht Hv Hi Hl).
  split; [|split].
  - destruct (vtype voice); unfold seq, skip; now autorewrite with silent.
  - destruct (vtype voice); unfold seq, skip; autorewrite with msdb;
      destruct (mediaSession w); reflexivity.
  - destruct (vtype voice); unfold seq, skip; now autorewrite with msdb.
Qed.

(* ------------------------------------------------------------------ *)
(** ** The media-session bridge *)

Lemma playable_inv (index : Z) (configs : SpeechConfigs) :
  playable index configs = true ->
  exists total voice,
    missing configs = false /\ totalLines configs = Some total
    /\ selectedVoice configs = Some voice /\ 0 <= index < total
    /\ index < Z.of_nat (List.length (lines configs)).
Proof.
  unfold playable; intros H.
  apply andb_true_iff in H as [Hm H]; apply negb_true_iff in Hm.
  destruct (missing_false_inv _ Hm) as (b & total & v & _ & _ & Ht & _ & Hv).
  rewrite Ht in H.
  apply andb_true_iff in H as [H Hl]; apply andb_true_iff in H as [H0 H1].
  apply Z.leb_le in H0; apply Z.ltb_lt in H1, Hl.
  exists total, v; repeat split; auto.
Qed.

Lemma strict_neq_false (a b : option string) :
  strict_neq a b = false -> a = b.
Proof.
  destruct a as [x|], b as [y|]; simpl; try discriminate.
  intros H; apply negb_false_iff, String.eqb_eq in H; now subst.
Qed.

Lemma strict_neq_same (b : string) : strict_neq (Some b) (Some b) = false.
Proof. simpl; now rewrite String.eqb_refl. Qed.

Lemma ms_after_setup_fields (i : Z) (c : SpeechConfigs) (cur : option string)
    (m : MediaSession) :
  ms_metadata_writes (ms_after_setup i c cur m) =
    (if strict_neq cur (bookId c) then S (ms_metadata_writes m)
     else ms_metadata_writes m)
  /\ ms_playbackState (ms_after_setup i c cur m) = ms_playbackState m
  /\ ms_hasSetPositionState (ms_after_setup i c cur m) = ms_hasSetPositionState m
  /\ ms_setPositionState_throws (ms_after_setup i c cur m) =
       ms_setPositionState_throws m
  /\ ms_positionState (ms_after_setup i c cur m) =
       (if ms_hasSetPositionState m && negb (ms_setPositionState_throws m)
        then Some (mkPosition (totalLines c) (rate_or_default (rate c)) i)
        else ms_positionState m)
  /\ h_play (ms_after_setup i c cur m) = Some (mkClosure i c)
  /\ h_pause (ms_after_setup i c cur m) = true
  /\ h_nexttrack (ms_after_setup i c cur m) = Some (mkClosure i c)
  /\ h_previoustrack (ms_after_setup i c cur m) = Some (mkClosure i c).
Proof.
  unfold ms_after_setup.
  destruct m as [ps mw has thr pos hp hpa hn hpr].
  destruct (strict_neq cur (bookId c)), has, thr; cbn; repeat split.
Qed.

Lemma start_playable_ms (i : Z) (c : SpeechConfigs) (w : World) (m : MediaSession) :
  playable i c = true ->
  mediaSession w = Some m ->
  mediaSession (start i c w) =
    Some (ms_set_playbackState ps_playing (ms_after_setup i c (currentBookId w) m))
  /\ currentBookId (start i c w) = bookId c
  /\ silentAudio (start i c w) = true.
Proof.
  intros Hp Hms.
  destruct (playable_inv i c Hp) as (total & voice & Hm & Ht & Hv & Hi & Hl).
  rewrite start_unfold.
  destruct (play_loaded_line_ui i c total voice (emit (onIsPlayingChange true) w)
              Hm Ht Hv Hi Hl) as (Hs & Hmed & Hcur).
  rewrite mediaSession_emit, currentBookId_emit in *.
  rewrite Hmed, Hcur, Hms; split; [reflexivity|]; split; [|exact Hs].
  destruct (strict_neq (currentBookId w) (bookId c)) eqn:E; [reflexivity|].
  now apply strict_neq_false.
Qed.

(** X1.  OS metadata is written once per book.  A [start] of a loaded line
    writes the metadata exactly when the engine's cached book id differs from
    the configuration's, and leaves that id cached; a following [start] for
    the same book id writes nothing. *)
Theorem X1_metadata_once_per_book :
  forall (i i' : Z) (c c' : SpeechConfigs) (w : World) (m : MediaSession),
    playable i c = true ->
    playable i' c' = true ->
    mediaSession w = Some m ->
    bookId c' = bookId c ->
    ms_field ms_metadata_writes (start i c w) =
      Some (if strict_neq (currentBookId w) (bookId c)
            then S (ms_metadata_writes m) else ms_metadata_writes m)
    /\ currentBookId (start i c w) = bookId c
    /\ ms_field ms_metadata_writes (start i' c' (start i c w)) =
         ms_field ms_metadata_writes (start i c w).
Proof.
  intros i i' c c' w m Hp Hp' Hms Hb.
  destruct (start_playable_ms i c w m Hp Hms) as (Hm1 & Hc1 & _).
  destruct (start_playable_ms i' c' (start i c w) _ Hp' Hm1) as (Hm2 & _ & _).
  unfold ms_field; rewrite Hm2, Hm1; cbn [option_map].
  destruct (ms_after_setup_fields i c (currentBookId w) m) as (Hw1 & _).
  split; [|split; [exact Hc1|]].
  - f_equal. exact Hw1.
  - f_equal.
    match goal with |- context [ms_after_setup i' c' ?cur ?mm] =>
      destruct (ms_after_setup_fields i' c' cur mm) as (Hw2 & _) end.
    cbn [ms_metadata_writes ms_set_playbackState] in *.
    rewrite Hw2, Hc1, Hb.
    destruct (playable_inv i c Hp) as (total & voice & Hmiss & _).
    destruct (missing_false_inv _ Hmiss) as (b & _ & _ & Eb & _).
    rewrite Eb, strict_neq_same. reflexivity.
Qed.

Lemma X1_metadata_once_per_book_witness :
  ms_field ms_metadata_writes (start 0 mockConfigs w0) = Some 1%nat
  /\ currentBookId (start 0 mockConfigs w0) = Some "123"
  /\ ms_field ms_metadata_writes (start 1 cloudConfigs (start 0 mockConfigs w0)) =
       ms_field ms_metadata_writes (start 0 mockConfigs w0).
Proof.
  apply (X1_metadata_once_per_book 0 1 mockConfigs cloudConfigs w0 fresh_ms);
    reflexivity.
Defined.

Lemma rate_or_default_nonzero (r : option Q) : ~ (rate_or_default r == 0)%Q.
Proof.
  unfold rate_or_default.
  destruct r as [q|]; [|discriminate].
  destruct (Qeq_bool q 0) eqn:E; [discriminate|].
  intros H; apply Qeq_bool_iff in H; congruence.
Qed.

Lemma position_log_throwing (w : World) (m : MediaSession) :
  mediaSession w = Some m ->
  ms_hasSetPositionState m = true ->
  position_log w =
    if ms_setPositionState_throws m
    then [ConsoleError "Error updating position state:"] else [].
Proof. unfold position_log; now intros -> ->. Qed.

(** X2.  On a platform with [setPositionState], a [start] of a loaded line
    marks the session as playing and rebinds the lock-screen handlers to that
    line.  If the call succeeds the position reported is the line index,
    inside [0, totalLines), at a rate that is never zero (a missing or zero
    rate counts as 1).  If it throws, the error is logged, the last position
    is kept, and playback goes ahead all the same. *)
Theorem X2_position_state :
  forall (i : Z) (c : SpeechConfigs) (w : World) (m : MediaSession),
    playable i c = true ->
    mediaSession w = Some m ->
    ms_hasSetPositionState m = true ->
    ms_field ms_playbackState (start i c w) = Some ps_playing
    /\ ms_field h_play (start i c w) = Some (Some (mkClosure i c))
    /\ List.length (filter starts_adapter (emitted (start i c) w)) = 1%nat
    /\ (ms_setPositionState_throws m = false ->
        exists total,
          totalLines c = Some total /\ 0 <= i < total
          /\ ~ (rate_or_default (rate c) == 0)%Q
          /\ ms_field ms_positionState (start i c w) =
               Some (Some (mkPosition (Some total) (rate_or_default (rate c)) i))
          /\ position_log w = [])
    /\ (ms_setPositionState_throws m = true ->
        ms_field ms_positionState (start i c w) = Some (ms_positionState m)
        /\ In (ConsoleError "Error updating position state:")
              (emitted (start i c) w)).
Proof.
  intros i c w m Hp Hms Hhas.
  destruct (start_playable_ms i c w m Hp Hms) as (Hm1 & _ & _).
  destruct (playable_inv i c Hp) as (total & voice & Hm & Ht & Hv & Hi & Hl).
  destruct (ms_after_setup_fields i c (currentBookId w) m)
    as (_ & _ & _ & _ & Hpos & Hplay & _).
  unfold ms_field; rewrite Hm1; cbn [option_map].
  rewrite (emitted_start_loaded_line i c total voice w Hm Ht Hv Hi Hl).
  rewrite (position_log_throwing w m Hms Hhas).
  split; [reflexivity|]; split; [f_equal; exact Hplay|]; split; [|split].
  - cbn [filter starts_adapter].
    destruct (ms_setPositionState_throws m); cbn [app filter starts_adapter];
      unfold adapter_commands; destruct (vtype voice); reflexivity.
  - intros Hthr; exists total.
    split; [exact Ht|]; split; [exact Hi|].
    split; [apply rate_or_default_nonzero|].
    split; [|now rewrite Hthr].
    f_equal. cbn [ms_positionState ms_set_playbackState].
    change (ms_positionState (ms_set_playbackState ps_playing
              (ms_after_setup i c (currentBookId w) m)))
      with (ms_positionState (ms_after_setup i c (currentBookId w) m)).
    rewrite Hpos, Hhas, Hthr, Ht; reflexivity.
  - intros Hthr; split.
    + f_equal.
      change (ms_positionState (ms_set_playbackState ps_playing
                (ms_after_setup i c (currentBookId w) m)))
        with (ms_positionState (ms_after_setup i c (currentBookId w) m)).
      rewrite Hpos, Hhas, Hthr; reflexivity.
    + rewrite Hthr; cbn [app]. right; right; left; reflexivity.
Qed.

Lemma X2_position_state_witness :
  ms_field ms_positionState (start 5 cloudNoRate w0) =
    Some (Some (mkPosition (Some 10) 1%Q 5))
  /\ In (ConsoleError "Error updating position state:")
        (emitted (start 5 cloudNoRate) (init (Some throwing_ms))).
Proof.
  assert (P : playable 5 cloudNoRate = true) by reflexivity.
  split.
  - destruct (X2_position_state 5 cloudNoRate w0 fresh_ms P eq_refl eq_refl)
      as (_ & _ & _ & H & _).
    destruct (H eq_refl) as (total & Ht & _ & _ & Hp & _).
    injection Ht as <-. exact Hp.
  - destruct (X2_position_state 5 cloudNoRate (init (Some throwing_ms))
                throwing_ms P eq_refl eq_refl) as (_ & _ & _ & _ & H).
    apply H; reflexivity.
Defined.

(* ------------------------------------------------------------------ *)
(** ** The trace only grows *)

Lemma appends_seq (c1 c2 : Cmd) : appends c1 -> appends c2 -> appends (c1 ;; c2).
Proof.
  intros H1 H2 w; unfold seq.
  destruct (H1 w) as [l1 E1]; destruct (H2 (c1 w)) as [l2 E2].
  exists (l1 ++ l2); now rewrite E2, E1, app_assoc.
Qed.

Lemma appends_silent (c : Cmd) : (forall w, trace (c w) = trace w) -> appends c.
Proof. intros H w; exists []; now rewrite H, app_nil_r. Qed.

Lemma appends_emit (a : Action) : appends (emit a).
Proof. intro w; now exists [a]. Qed.

Lemma appends_play (i : Z) (c : SpeechConfigs) : appends (play i c).
Proof. intro w; apply play_extends_trace. Qed.

Lemma appends_start (i : Z) (c : SpeechConfigs) : appends (start i c).
Proof. unfold start; apply appends_seq; [apply appends_emit | apply appends_play]. Qed.

Lemma appends_pause : appends pause.
Proof. intro w; eexists; apply trace_pause. Qed.

Lemma appends_stop : appends stop.
Proof. intro w; eexists; apply trace_stop. Qed.

Lemma appends_resume (i : Z) (c : SpeechConfigs) : appends (resume i c).
Proof.
  unfold resume.
  apply appends_seq; [apply appends_silent, trace_clear_timer_field|].
  apply appends_seq; [apply appends_pause|].
  apply appends_seq; apply appends_silent; reflexivity.
Qed.

Lemma appends_on_line_ended (c : Closure) : appends (on_line_ended c).
Proof.
  unfold on_line_ended; apply appends_seq; [apply appends_emit | apply appends_start].
Qed.

Lemma appends_fire (t : Timer) : appends (fire t).
Proof.
  unfold fire, timer_callback.
  apply appends_seq; [apply appends_silent; reflexivity|].
  apply appends_seq; [apply appends_silent; reflexivity|].
  apply appends_seq; [apply appends_play | apply appends_silent; reflexivity].
Qed.

Lemma appends_run_due (fuel : nat) (target : N) : appends (run_due fuel target).
Proof.
  induction fuel as [|k IH]; intro w.
  - exists []; unfold run_due; now rewrite app_nil_r.
  - change (run_due (S k) target w) with
      (match due_timer target w with
       | Some t => run_due k target (fire t w)
       | None => w
       end).
    destruct (due_timer target w) as [t|].
    + destruct (appends_fire t w) as [l1 E1].
      destruct (IH (fire t w)) as [l2 E2].
      exists (l1 ++ l2); now rewrite E2, E1, app_assoc.
    + exists []; now rewrite app_nil_r.
Qed.

Lemma appends_advance (dt : N) : appends (advance dt).
Proof.
  intro w; unfold advance.
  destruct (appends_run_due (List.length (pending w)) (clock w + dt) w) as [l E].
  exists l; now rewrite trace_set_clock.
Qed.

Lemma appends_step (s : Stimulus) : appends (step s).
Proof.
  destruct s; cbn [step].
  - apply appends_start.
  - apply appends_pause.
  - apply appends_stop.
  - apply appends_resume.
  - intro w; unfold dispatch_cloud_ended.
    destruct (onended (cloudAudio w)) as [c|].
    + destruct (appends_on_line_ended c (cloud_finished w)) as [l E].
      exists l; now rewrite E, trace_cloud_finished.
    + exists []; now rewrite trace_cloud_finished, app_nil_r.
  - apply appends_emit.
  - unfold cloud_play_catch.
    destruct (negb (String.eqb name "AbortError")); apply appends_emit.
  - apply appends_emit.
  - intro w; unfold dispatch_tts_end.
    destruct (ttsNative w) as [u|].
    + unfold seq.
      destruct (appends_on_line_ended (u_closure u) (set_ttsNative None w)) as [l E].
      exists l; exact E.
    + exists []; now rewrite app_nil_r.
  - intro w; unfold dispatch_tts_error.
    destruct (ttsNative w) as [u|]; [|exists []; now rewrite app_nil_r].
    unfold seq, system_onError.
    change (isRestarting (set_ttsNative None w)) with (isRestarting w).
    destruct (negb (isRestarting w)).
    + exists [onIsPlayingChange false]; reflexivity.
    + exists []; now rewrite app_nil_r.
  - intro w; unfold dispatch_media_action.
    destruct (mediaSession w) as [m|]; [|exists []; now rewrite app_nil_r].
    destruct a.
    + destruct (h_play m) as [c|]; [apply appends_start|exists []; now rewrite app_nil_r].
    + destruct (h_pause m); [apply appends_pause|exists []; now rewrite app_nil_r].
    + destruct (h_nexttrack m) as [c|]; [|exists []; now rewrite app_nil_r].
      unfold action_nexttrack.
      apply appends_seq; [apply appends_emit | apply appends_resume].
    + destruct (h_previoustrack m) as [c|]; [|exists []; now rewrite app_nil_r].
      unfold action_previoustrack.
      apply appends_seq; [apply appends_emit | apply appends_resume].
  - apply appends_advance.
Qed.

Lemma appends_run (l : list Stimulus) : appends (run l).
Proof.
  induction l as [|s l IH]; intro w.
  - exists []; simpl; now rewrite app_nil_r.
  - change (run (s :: l) w) with (run l (step s w)).
    destruct (appends_step s w) as [l1 E1].
    destruct (IH (step s w)) as [l2 E2].
    exists (l1 ++ l2); now rewrite E2, E1, app_assoc.
Qed.

Lemma trace_emitted (c : Cmd) (w : World) :
  appends c -> trace (c w) = trace w ++ emitted c w.
Proof. intros H; destruct (H w) as [l E]; now rewrite (emitted_of_trace _ _ _ E). Qed.

(** What a run emits is what its first step emits, then the rest. *)
Lemma emitted_run_cons (s : Stimulus) (l : list Stimulus) (w : World) :
  emitted (run (s :: l)) w = emitted (step s) w ++ emitted (run l) (step s w).
Proof.
  apply emitted_of_trace.
  change (run (s :: l) w) with (run l (step s w)).
  rewrite (trace_emitted (run l)) by apply appends_run.
  rewrite (trace_emitted (step s)) by apply appends_step.
  now rewrite app_assoc.
Qed.

(* ------------------------------------------------------------------ *)
(** ** One adapter at a time *)

Lemma one_active_same (w w' : World) :
  silentAudio w' = silentAudio w ->
  cloudAudio w' = cloudAudio w ->
  ttsNative w' = ttsNative w ->
  one_active w -> one_active w'.
Proof. unfold one_active; now intros -> -> ->. Qed.

Lemma one_active_off (w : World) :
  playing (cloudAudio w) = false -> ttsNative w = None -> one_active w.
Proof.
  unfold one_active; intros Hp Hu; split; [auto|].
  intros [H|H]; [congruence | contradiction].
Qed.

Lemma one_active_on (w : World) :
  silentAudio w = true ->
  (playing (cloudAudio w) = true -> ttsNative w = None) ->
  one_active w.
Proof. unfold one_active; auto. Qed.

Lemma one_active_neutral (c : Cmd) :
  (forall w, silentAudio (c w) = silentAudio w) ->
  (forall w, cloudAudio (c w) = cloudAudio w) ->
  (forall w, ttsNative (c w) = ttsNative w) ->
  forall w, one_active w -> one_active (c w).
Proof. intros Hs Hc Hu w; apply one_active_same; auto. Qed.

Ltac neutral c :=
  apply (one_active_neutral c); [intro; reflexivity | intro; reflexivity
                                | intro; reflexivity | ].

Lemma one_active_pause (w : World) : one_active (pause w).
Proof.
  destruct (pause_state w) as (_ & Hc & Hu & _).
  apply one_active_off; [now rewrite Hc | exact Hu].
Qed.

Lemma one_active_stop (w : World) : one_active (stop w).
Proof.
  destruct (stop_state w) as (_ & Hc & Hu & _).
  apply one_active_off; [now rewrite Hc | exact Hu].
Qed.

Lemma one_active_play (i : Z) (c : SpeechConfigs) (w : World) :
  one_active w -> one_active (play i c w).
Proof.
  intros Hw.
  destruct (play_case_split i c)
    as [Hm|[(total & Hm & Ht & Hi)|[(total & Hm & Ht & Hi & Hl)
        |(total & voice & Hm & Ht & Hv & Hi & Hl)]]].
  - now rewrite play_missing.
  - rewrite (play_end_of_book i c total) by assumption.
    neutral (emit (onBookCompleted (clock w))).
    neutral (emit (onIsPlayingChange false)). exact Hw.
  - rewrite (play_loading_gap i c total) by assumption.
    neutral (emit (onLoadMoreLines i)).
    apply one_active_pause.
  - destruct (play_loaded_line_audio i c total voice w Hm Ht Hv Hi Hl) as [Hc Hu].
    destruct (play_loaded_line_ui i c total voice w Hm Ht Hv Hi Hl) as (Hs & _).
    apply one_active_on; [exact Hs|].
    rewrite Hc, Hu; unfold cloud_after_play, tts_after_play.
    destruct (vtype voice); cbn [playing]; [discriminate | reflexivity].
Qed.

Lemma one_active_start (i : Z) (c : SpeechConfigs) (w : World) :
  one_active w -> one_active (start i c w).
Proof.
  intros Hw; rewrite start_unfold; apply one_active_play.
  neutral (emit (onIsPlayingChange true)). exact Hw.
Qed.

Lemma one_active_resume (i : Z) (c : SpeechConfigs) (w : World) :
  one_active (resume i c w).
Proof.
  rewrite resume_unfold.
  neutral (setTimeout_into_timer (mkClosure i c) RESUME_DELAY).
  neutral (set_isRestarting true).
  apply one_active_pause.
Qed.

Lemma one_active_on_line_ended (c : Closure) (w : World) :
  one_active w -> one_active (on_line_ended c w).
Proof.
  intros Hw; unfold on_line_ended, seq; apply one_active_start.
  neutral (emit (onLineEnd (cl_index c + 1))). exact Hw.
Qed.

Lemma one_active_fire (t : Timer) (w : World) :
  one_active w -> one_active (fire t w).
Proof.
  intros Hw; unfold fire, timer_callback, seq.
  neutral (set_isRestarting false).
  apply one_active_play.
  match goal with |- one_active (?f (clearTimeout ?id w)) =>
    neutral f; neutral (clearTimeout id) end.
  exact Hw.
Qed.

Lemma one_active_run_due (fuel : nat) (target : N) (w : World) :
  one_active w -> one_active (run_due fuel target w).
Proof.
  revert w; induction fuel as [|k IH]; intros w Hw; [exact Hw|].
  change (run_due (S k) target w) with
    (match due_timer target w with
     | Some t => run_due k target (fire t w)
     | None => w
     end).
  destruct (due_timer target w) as [t|]; [|exact Hw].
  now apply IH, one_active_fire.
Qed.

Lemma one_active_cloud_finished (w : World) :
  one_active w -> one_active (cloud_finished w).
Proof.
  intros [H1 H2]; split.
  - intros H; discriminate H.
  - intros [H|H]; [discriminate H|].
    change (silentAudio (cloud_finished w)) with (silentAudio w).
    apply H2; now right.
Qed.

Lemma one_active_utterance_done (w : World) :
  one_active w -> one_active (set_ttsNative None w).
Proof.
  intros [H1 H2]; split; [reflexivity|].
  intros [H|H]; [|now elim H].
  change (silentAudio (set_ttsNative None w)) with (silentAudio w).
  apply H2; now left.
Qed.

Lemma one_active_step (s : Stimulus) (w : World) :
  one_active w -> one_active (step s w).
Proof.
  intros Hw; destruct s; cbn [step].
  - now apply one_active_start.
  - apply one_active_pause.
  - apply one_active_stop.
  - apply one_active_resume.
  - unfold dispatch_cloud_ended.
    destruct (onended (cloudAudio w));
      [apply one_active_on_line_ended|]; now apply one_active_cloud_finished.
  - unfold cloud_onerror. neutral (emit (onIsPlayingChange false)). exact Hw.
  - unfold cloud_play_catch.
    destruct (negb (String.eqb name "AbortError")).
    + neutral (emit (ConsoleError "Cloud playback error:")). exact Hw.
    + neutral (emit (ConsoleLog "Cloud playback was interrupted by a new request")).
      exact Hw.
  - unfold silent_play_catch. neutral (emit (ConsoleError "Audio play failed:")).
    exact Hw.
  - unfold dispatch_tts_end.
    destruct (ttsNative w) as [u|] eqn:Eu; [|exact Hw].
    unfold seq; apply one_active_on_line_ended.
    now apply one_active_utterance_done.
  - unfold dispatch_tts_error.
    destruct (ttsNative w) as [u|] eqn:Eu; [|exact Hw].
    unfold seq, system_onError.
    destruct (negb (isRestarting (set_ttsNative None w))).
    + neutral (emit (onIsPlayingChange false)).
      now apply one_active_utterance_done.
    + now apply one_active_utterance_done.
  - unfold dispatch_media_action.
    destruct (mediaSession w) as [m|]; [|exact Hw].
    destruct a.
    + destruct (h_play m); [now apply one_active_start|exact Hw].
    + destruct (h_pause m); [apply one_active_pause|exact Hw].
    + destruct (h_nexttrack m); [|exact Hw].
      unfold action_nexttrack, seq; apply one_active_resume.
    + destruct (h_previoustrack m); [|exact Hw].
      unfold action_previoustrack, seq; apply one_active_resume.
  - unfold advance.
    neutral (set_clock (clock w + dt)).
    now apply one_active_run_due.
Qed.

(** X3.  One adapter at a time, and the keep-alive under it.  In every state
    the engine can reach, through any sequence of public calls, adapter
    events, lock-screen actions and timers: the cloud element is never
    playing while the on-device adapter holds an utterance, and whenever
    either is active the silent keep-alive cue has been started and not
    paused. *)
Theorem X3_one_adapter_at_a_time :
  forall w : World,
    reachable w ->
    (playing (cloudAudio w) = true -> ttsNative w = None)
    /\ (playing (cloudAudio w) = true \/ ttsNative w <> None ->
        silentAudio w = true).
Proof.
  intros w (ms & l & ->).
  change (one_active (run l (init ms))).
  assert (H : forall l w, one_active w -> one_active (run l w)).
  { clear; induction l as [|s l IH]; intros w Hw; [exact Hw|].
    change (run (s :: l) w) with (run l (step s w)).
    now apply IH, one_active_step. }
  apply H, one_active_off; reflexivity.
Qed.

Lemma X3_one_adapter_at_a_time_witness :
  (playing (cloudAudio (run [call_start 0 cloudConfigs; call_start 1 mockConfigs] w0)) = true
   -> ttsNative (run [call_start 0 cloudConfigs; call_start 1 mockConfigs] w0) = None)
  /\ (playing (cloudAudio (run [call_start 0 cloudConfigs; call_start 1 mockConfigs] w0)) = true
      \/ ttsNative (run [call_start 0 cloudConfigs; call_start 1 mockConfigs] w0) <> None ->
      silentAudio (run [call_start 0 cloudConfigs; call_start 1 mockConfigs] w0) = true).
Proof.
  apply (X3_one_adapter_at_a_time
           (run [call_start 0 cloudConfigs; call_start 1 mockConfigs] w0)).
  exists (Some fresh_ms), [call_start 0 cloudConfigs; call_start 1 mockConfigs].
  reflexivity.
Defined.

(* ------------------------------------------------------------------ *)
(** ** [stop] and [pause] *)




Lemma media_action_unbound (a : MediaSessionAction) (w : World) :
  (forall m, mediaSession w = Some m ->
     h_play m = None /\ h_pause m = false /\
     h_nexttrack m = None /\ h_previoustrack m = None) ->
  dispatch_media_action a w = w.
Proof.
  intros H; unfold dispatch_media_action.
  destruct (mediaSession w) as [m|]; [|reflexivity].
  destruct (H m eq_refl) as (H1 & H2 & H3 & H4).
  destruct a; now rewrite ?H1, ?H2, ?H3, ?H4.
Qed.





(* ------------------------------------------------------------------ *)
(** ** Lock-screen actions *)

Lemma trace_setTimeout_into_timer (c : Closure) (d : N) (w : World) :
  trace (setTimeout_into_timer c d w) = trace w.
Proof. reflexivity. Qed.

Lemma trace_set_isRestarting (b : bool) (w : World) :
  trace (set_isRestarting b w) = trace w.
Proof. reflexivity. Qed.

Lemma trace_resume (i : Z) (c : SpeechConfigs) (w : World) :
  trace (resume i c w) = trace w ++ pause_commands.
Proof.
  rewrite resume_unfold, trace_setTimeout_into_timer, trace_set_isRestarting.
  now rewrite trace_pause, trace_clear_timer_field.
Qed.

Lemma media_session_after_start (i : Z) (c : SpeechConfigs) (w : World)
    (m : MediaSession) :
  playable i c = true ->
  mediaSession w = Some m ->
  exists m',
    mediaSession (start i c w) = Some m'
    /\ h_play m' = Some (mkClosure i c) /\ h_pause m' = true
    /\ h_nexttrack m' = Some (mkClosure i c)
    /\ h_previoustrack m' = Some (mkClosure i c).
Proof.
  intros Hp Hms.
  destruct (start_playable_ms i c w m Hp Hms) as (Hm1 & _).
  destruct (ms_after_setup_fields i c (currentBookId w) m)
    as (_ & _ & _ & _ & _ & H1 & H2 & H3 & H4).
  eexists; split; [exact Hm1|].
  repeat split; assumption.
Qed.

(** X6.  The lock-screen handlers follow the line being played.  After a
    loaded line [i] was started, the OS pause action is [pause()], and after
    that pause the OS play action is [start(i, configs)] again: the handlers
    survive [pause].  [stop] unbinds them: no OS action does anything then. *)
Theorem X6_lock_screen_play_pause :
  forall (i : Z) (c : SpeechConfigs) (w : World) (m : MediaSession)
         (a : MediaSessionAction),
    playable i c = true ->
    mediaSession w = Some m ->
    step (ev_media_action act_pause) (start i c w) = pause (start i c w)
    /\ step (ev_media_action act_play) (pause (start i c w)) =
         start i c (pause (start i c w))
    /\ step (ev_media_action a) (stop (start i c w)) = stop (start i c w).
Proof.
  intros i c w m a Hp Hms.
  destruct (media_session_after_start i c w m Hp Hms)
    as (m' & Hm' & H1 & H2 & H3 & H4).
  split; [|split]; cbn [step].
  - unfold dispatch_media_action; now rewrite Hm', H2.
  - destruct (pause_state (start i c w)) as (_ & _ & _ & _ & _ & _ & Hmp & _).
    unfold dispatch_media_action; rewrite Hmp, Hm'; cbn [option_map].
    change (h_play (ms_set_playbackState ps_paused m')) with (h_play m').
    now rewrite H1.
  - apply media_action_unbound.
    destruct (stop_state (start i c w)) as (_ & _ & _ & _ & _ & _ & Hst & _).
    intros m0 Hm0; rewrite Hst, Hm' in Hm0.
    injection Hm0 as <-; repeat split.
Qed.

Lemma X6_lock_screen_play_pause_witness :
  step (ev_media_action act_play) (pause (start 4 mockConfigs w0)) =
    start 4 mockConfigs (pause (start 4 mockConfigs w0)).
Proof.
  apply (X6_lock_screen_play_pause 4 mockConfigs w0 fresh_ms act_play);
    reflexivity.
Defined.

(** X7.  Lock-screen "next" never leaves the loaded lines.  After a loaded
    line [i] was started, the OS nexttrack action reports
    [onLineEnd(n)] and calls [resume(n, configs)] with
    [n = min(i+1, lines.length-1)]: the next line if it is loaded, else line
    [i] again (it does not ask for more lines).  [n] is a loaded line, and a
    playable one when no more lines are loaded than the book has. *)
Theorem X7_nexttrack_clamped :
  forall (i : Z) (c : SpeechConfigs) (w : World) (m : MediaSession),
    playable i c = true ->
    mediaSession w = Some m ->
    let n := Z.min (i + 1) (Z.of_nat (List.length (lines c)) - 1) in
    step (ev_media_action act_nexttrack) (start i c w) =
      resume n c (emit (onLineEnd n) (start i c w))
    /\ emitted (step (ev_media_action act_nexttrack)) (start i c w) =
         [onLineEnd n; SilentPause; CloudPause; CloudOnended None;
          CloudRemoveSrc; CloudLoad; TtsStop]
    /\ 0 <= n < Z.of_nat (List.length (lines c))
    /\ (i + 1 < Z.of_nat (List.length (lines c)) -> n = i + 1)
    /\ (i + 1 = Z.of_nat (List.length (lines c)) -> n = i)
    /\ (forall total, totalLines c = Some total ->
          Z.of_nat (List.length (lines c)) <= total -> playable n c = true).
Proof.
  intros i c w m Hp Hms n.
  destruct (media_session_after_start i c w m Hp Hms)
    as (m' & Hm' & H1 & H2 & H3 & H4).
  destruct (playable_inv i c Hp) as (total & voice & Hm & Ht & Hv & Hi & Hl).
  assert (Hstep : step (ev_media_action act_nexttrack) (start i c w) =
                  resume n c (emit (onLineEnd n) (start i c w))).
  { cbn [step]; unfold dispatch_media_action; rewrite Hm', H3.
    reflexivity. }
  split; [exact Hstep|]; split; [|split; [subst n; lia|split; [subst n; lia|
    split; [subst n; lia|]]]].
  - apply emitted_of_trace; rewrite Hstep.
    rewrite trace_resume, trace_emit.
    now rewrite <- app_assoc.
  - intros total' Ht' Hle; rewrite Ht in Ht'; injection Ht' as <-.
    unfold playable; rewrite Hm, Ht; cbn [negb andb].
    apply andb_true_iff; split; [apply andb_true_iff; split|].
    + apply Z.leb_le; subst n; lia.
    + apply Z.ltb_lt; subst n; lia.
    + apply Z.ltb_lt; subst n; lia.
Qed.

Lemma X7_nexttrack_clamped_witness :
  emitted (step (ev_media_action act_nexttrack)) (start 1 partlyLoaded w0) =
    [onLineEnd 1; SilentPause; CloudPause; CloudOnended None;
     CloudRemoveSrc; CloudLoad; TtsStop].
Proof.
  apply (X7_nexttrack_clamped 1 partlyLoaded w0 fresh_ms); reflexivity.
Defined.

(** X8.  Lock-screen "previous" stops at the first line.  After a loaded line
    [i] was started, the OS previoustrack action reports [onLineEnd(p)] and
    calls [resume(p, configs)] with [p = max(i-1, 0)]: never negative, and in
    every case a playable line. *)
Theorem X8_previoustrack_clamped :
  forall (i : Z) (c : SpeechConfigs) (w : World) (m : MediaSession),
    playable i c = true ->
    mediaSession w = Some m ->
    let p := Z.max (i - 1) 0 in
    step (ev_media_action act_previoustrack) (start i c w) =
      resume p c (emit (onLineEnd p) (start i c w))
    /\ 0 <= p <= i
    /\ (0 < i -> p = i - 1)
    /\ playable p c = true.
Proof.
  intros i c w m Hp Hms p.
  destruct (media_session_after_start i c w m Hp Hms)
    as (m' & Hm' & H1 & H2 & H3 & H4).
  destruct (playable_inv i c Hp) as (total & voice & Hm & Ht & Hv & Hi & Hl).
  split; [|split; [subst p; lia|split; [subst p; lia|]]].
  - cbn [step]; unfold dispatch_media_action; rewrite Hm', H4.
    reflexivity.
  - unfold playable; rewrite Hm, Ht; cbn [negb andb].
    apply andb_true_iff; split; [apply andb_true_iff; split|].
    + apply Z.leb_le; subst p; lia.
    + apply Z.ltb_lt; subst p; lia.
    + apply Z.ltb_lt; subst p; lia.
Qed.

Lemma X8_previoustrack_clamped_witness :
  step (ev_media_action act_previoustrack) (start 0 mockConfigs w0) =
    resume 0 mockConfigs (emit (onLineEnd 0) (start 0 mockConfigs w0))
  /\ playable (Z.max (0 - 1) 0) mockConfigs = true.
Proof.
  destruct (X8_previoustrack_clamped 0 mockConfigs w0 fresh_ms)
    as (H & _ & _ & Hp); [reflexivity | reflexivity |].
  split; [exact H | exact Hp].
Defined.

(* ------------------------------------------------------------------ *)
(** ** The restart guard *)

Lemma emitted_system_onError (w : World) :
  emitted system_onError w =
    if isRestarting w then [] else [onIsPlayingChange false].
Proof.
  destruct (isRestarting w) eqn:E.
  - apply emitted_nil; unfold system_onError; now rewrite E.
  - apply emitted_of_trace; unfold system_onError; now rewrite E.
Qed.

(** X9.  The restart guard hides on-device errors from [resume] until the
    scheduled play has run.  From any reachable state: right after
    [resume] an on-device synthesis error emits nothing; once the delay has
    elapsed it is surfaced as [onIsPlayingChange(false)] again.  [pause] does
    not lower the guard (an error after [resume] then [pause] stays hidden
    although no timer is pending any more); [stop] does. *)
Theorem X9_restart_guard_window :
  forall (i : Z) (c : SpeechConfigs) (w : World) (d : N),
    reachable w ->
    (RESUME_DELAY <= d)%N ->
    emitted system_onError (resume i c w) = []
    /\ emitted system_onError (advance d (resume i c w)) = [onIsPlayingChange false]
    /\ (pending (pause (resume i c w)) = []
        /\ emitted system_onError (pause (resume i c w)) = [])
    /\ emitted system_onError (stop (resume i c w)) = [onIsPlayingChange false].
Proof.
  intros i c w d Hr Hd.
  apply reachable_timer_inv in Hr.
  destruct (resume_sched i c w Hr) as (Hp & _ & Hg & _ & Hc).
  assert (Hinv : timer_inv (resume i c w)) by now apply timer_inv_resume.
  rewrite !emitted_system_onError.
  split; [now rewrite Hg|]; split; [|split; [split|]].
  - rewrite (advance_due d _ _ Hp) by (rewrite Hc; cbn [t_due]; lia).
    destruct (fire_single_sched _ _ Hp) as [_ Hf].
    destruct (set_clock_fields (clock (resume i c w) + d)
                (fire {| t_id := next_id w; t_due := clock w + RESUME_DELAY;
                         t_closure := mkClosure i c |} (resume i c w)))
      as (_ & _ & -> & _).
    now rewrite Hf.
  - now apply pause_pending.
  - destruct (pause_state (resume i c w)) as (_ & _ & _ & -> & _).
    now rewrite Hg.
  - destruct (stop_sched (resume i c w) Hinv) as [_ ->]. reflexivity.
Qed.

Lemma X9_restart_guard_window_witness :
  emitted system_onError (resume 1 mockConfigs w0) = []
  /\ emitted system_onError (advance 1000 (resume 1 mockConfigs w0)) =
       [onIsPlayingChange false].
Proof.
  destruct (X9_restart_guard_window 1 mockConfigs w0 1000%N) as (H1 & H2 & _).
  - exists (Some fresh_ms), []; reflexivity.
  - reflexivity.
  - split; [exact H1 | exact H2].
Defined.

(* ------------------------------------------------------------------ *)
(** ** Calling twice *)

Lemma pending_clear_timer_field (w : World) :
  pending (clear_timer_field w) =
    match timer w with
    | Some id => filter (fun t => negb (Nat.eqb (t_id t) id)) (pending w)
    | None => pending w
    end.
Proof. unfold clear_timer_field; destruct (timer w); reflexivity. Qed.

Lemma filter_twice {A : Type} (f : A -> bool) (l : list A) :
  filter f (filter f l) = filter f l.
Proof.
  induction l as [|x l IH]; [reflexivity|].
  simpl; destruct (f x) eqn:E; simpl; rewrite ?E, IH; reflexivity.
Qed.

Lemma clear_timer_field_twice (w w' : World) :
  timer w' = timer w ->
  pending w' = pending (clear_timer_field w) ->
  pending (clear_timer_field w') = pending (clear_timer_field w).
Proof.
  intros Ht Hp.
  rewrite (pending_clear_timer_field w'), Ht, Hp, pending_clear_timer_field.
  destruct (timer w); [apply filter_twice | reflexivity].
Qed.

(** X10.  [pause] and [stop] are idempotent.  A second call in a row sends
    the same stop commands again and leaves every field of the engine and of
    the platform exactly as the first call left it. *)
Theorem X10_pause_stop_idempotent :
  forall w : World,
    same_state (pause (pause w)) (pause w)
    /\ emitted pause (pause w) = emitted pause w
    /\ same_state (stop (stop w)) (stop w)
    /\ emitted stop (stop w) = emitted stop w.
Proof.
  intros w.
  assert (Ep : forall x, emitted pause x = pause_commands)
    by (intro; apply emitted_of_trace, trace_pause).
  assert (Es : forall x, emitted stop x = pause_commands ++ [onIsPlayingChange false])
    by (intro; apply emitted_of_trace, trace_stop).
  split; [|split; [now rewrite !Ep|split; [|now rewrite !Es]]].
  - destruct (pause_state w)
      as (Hs & Hc & Hu & Hg & Ht & Hb & Hm & Hp & Hn & Hk).
    destruct (pause_state (pause w))
      as (Hs' & Hc' & Hu' & Hg' & Ht' & Hb' & Hm' & Hp' & Hn' & Hk').
    unfold same_state.
    rewrite Hs', Hc', Hu', Hg', Ht', Hb', Hm', Hp', Hn', Hk'.
    rewrite (clear_timer_field_twice w (pause w) Ht Hp).
    rewrite Hs, Hc, Hu, Hg, Ht, Hb, Hm, Hp, Hn, Hk.
    repeat split.
    destruct (mediaSession w) as [m|]; [|reflexivity].
    now destruct m.
  - destruct (stop_state w)
      as (Hs & Hc & Hu & Hg & Ht & Hb & Hm & Hp & Hn & Hk).
    destruct (stop_state (stop w))
      as (Hs' & Hc' & Hu' & Hg' & Ht' & Hb' & Hm' & Hp' & Hn' & Hk').
    unfold same_state.
    rewrite Hs', Hc', Hu', Hg', Ht', Hb', Hm', Hp', Hn', Hk'.
    rewrite (clear_timer_field_twice w (stop w) Ht Hp).
    rewrite Hs, Hc, Hu, Hg, Ht, Hb, Hm, Hp, Hn, Hk.
    repeat split.
    destruct (mediaSession w) as [m|]; [|reflexivity].
    now destruct m.
Qed.

(* ------------------------------------------------------------------ *)
(** ** Reading on to the end of the book *)

Lemma natural_end_step (i : Z) (configs : SpeechConfigs) (total : Z)
    (voice : VoiceOption) (w : World) :
  missing configs = false ->
  totalLines configs = Some total ->
  selectedVoice configs = Some voice ->
  0 <= i < total ->
  i < Z.of_nat (List.length (lines configs)) ->
  exists w',
    clock w' = clock w
    /\ trace w' = trace (start i configs w) ++ [onLineEnd (i + 1)]
    /\ step (natural_end voice) (start i configs w) = start (i + 1) configs w'.
Proof.
  intros Hm Ht Hv Hi Hl.
  assert (Hclock : clock (start i configs w) = clock w).
  { rewrite start_unfold.
    now destruct (play_sched i configs (emit (onIsPlayingChange true) w))
      as (_ & _ & _ & -> & _). }
  destruct (play_loaded_line_audio i configs total voice
              (emit (onIsPlayingChange true) w) Hm Ht Hv Hi Hl) as [Hc Hu].
  rewrite <- start_unfold in Hc, Hu.
  unfold natural_end, cloud_after_play, tts_after_play in *.
  destruct (vtype voice).
  - exists (emit (onLineEnd (i + 1)) (set_ttsNative None (start i configs w))).
    split; [exact Hclock|]; split; [reflexivity|].
    cbn [step]; unfold dispatch_tts_end; rewrite Hu. reflexivity.
  - exists (emit (onLineEnd (i + 1)) (cloud_finished (start i configs w))).
    split; [exact Hclock|]; split; [reflexivity|].
    cbn [step]; unfold dispatch_cloud_ended; rewrite Hc. reflexivity.
Qed.

Lemma emitted_natural_end_step (i : Z) (configs : SpeechConfigs)
    (voice : VoiceOption) (w w' : World) :
  trace w' = trace (start i configs w) ++ [onLineEnd (i + 1)] ->
  step (natural_end voice) (start i configs w) = start (i + 1) configs w' ->
  emitted (step (natural_end voice)) (start i configs w) =
    onLineEnd (i + 1) :: emitted (start (i + 1) configs) w'.
Proof.
  intros Htr Hstep; apply emitted_of_trace.
  rewrite Hstep, trace_start_emitted, Htr.
  now rewrite <- app_assoc.
Qed.

Lemma filter_completed_position_log (w : World) (l : list Action) :
  filter is_completed (position_log w ++ l) = filter is_completed l.
Proof.
  unfold position_log.
  destruct (mediaSession w) as [m|]; [|reflexivity].
  destruct (ms_hasSetPositionState m && ms_setPositionState_throws m); reflexivity.
Qed.

(** What a [start] of a loaded line contributes to the three counts. *)
Lemma loaded_start_counts (i : Z) (c : SpeechConfigs) (total : Z)
    (voice : VoiceOption) (w : World) :
  missing c = false ->
  totalLines c = Some total ->
  selectedVoice c = Some voice ->
  0 <= i < total ->
  i < Z.of_nat (List.length (lines c)) ->
  filter is_lineEnd (emitted (start i c) w) = []
  /\ List.length (filter starts_adapter (emitted (start i c) w)) = 1%nat
  /\ filter is_completed (emitted (start i c) w) = [].
Proof.
  intros Hm Ht Hv Hi Hl.
  split; [apply no_lineEnd_in_start|].
  rewrite (emitted_start_loaded_line i c total voice w Hm Ht Hv Hi Hl).
  cbn [filter starts_adapter is_completed].
  rewrite filter_starts_position_log, filter_completed_position_log.
  unfold adapter_commands; destruct (vtype voice); split; reflexivity.
Qed.

Lemma line_ends_step (j : Z) (n : nat) :
  line_ends j (S n) = onLineEnd (j + 1) :: line_ends (j + 1) n.
Proof.
  unfold line_ends.
  change (List.seq 1%nat (S n)) with (1%nat :: List.seq 2%nat n).
  cbn [map]. rewrite <- seq_shift, map_map.
  f_equal. apply map_ext; intros d.
  f_equal; lia.
Qed.

(** X11.  Reading on to the end of the book.  With every line of the book
    loaded, a [start] at line [j] followed by as many natural completions as
    there are lines left reports [onLineEnd(j+1)], ..., [onLineEnd(totalLines)]
    in that order, starts an adapter once for each following line and no
    more, and ends with exactly one [onBookCompleted]. *)
Theorem X11_reading_to_the_end :
  forall (c : SpeechConfigs) (total : Z) (voice : VoiceOption),
    missing c = false ->
    totalLines c = Some total ->
    selectedVoice c = Some voice ->
    total <= Z.of_nat (List.length (lines c)) ->
    forall (k : nat) (j : Z) (w : World),
      0 <= j ->
      j + Z.of_nat (S k) = total ->
      filter is_lineEnd
        (emitted (run (repeat (natural_end voice) (S k))) (start j c w))
        = line_ends j (S k)
      /\ List.length
           (filter starts_adapter
              (emitted (run (repeat (natural_end voice) (S k))) (start j c w)))
         = k
      /\ filter is_completed
           (emitted (run (repeat (natural_end voice) (S k))) (start j c w))
         = [onBookCompleted (clock w)]
      /\ exists before,
           emitted (run (repeat (natural_end voice) (S k))) (start j c w)
           = before ++ [onBookCompleted (clock w)].
Proof.
  intros c total voice Hm Ht Hv Hall.
  induction k as [|k IH]; intros j w Hj Hk.
  - destruct (natural_end_step j c total voice w Hm Ht Hv) as (w' & Hck & Htr & Hst);
      [lia | lia |].
    cbn [repeat]. rewrite emitted_run_cons.
    rewrite (emitted_natural_end_step j c voice w w' Htr Hst).
    assert (He : emitted (run []) (step (natural_end voice) (start j c w)) = [])
      by (apply emitted_nil; reflexivity).
    rewrite He, app_nil_r.
    rewrite (emitted_start_end_of_book (j + 1) c total) by (auto; lia).
    rewrite Hck.
    split; [reflexivity|]; split; [reflexivity|]; split; [reflexivity|].
    exists [onLineEnd (j + 1); onIsPlayingChange true; onIsPlayingChange false].
    reflexivity.
  - destruct (natural_end_step j c total voice w Hm Ht Hv) as (w' & Hck & Htr & Hst);
      [lia | lia |].
    change (repeat (natural_end voice) (S (S k)))
      with (natural_end voice :: repeat (natural_end voice) (S k)).
    rewrite emitted_run_cons.
    rewrite (emitted_natural_end_step j c voice w w' Htr Hst), Hst.
    destruct (IH (j + 1) w') as (I1 & I2 & I3 & (before & I4)); [lia | lia |].
    destruct (loaded_start_counts (j + 1) c total voice w' Hm Ht Hv)
      as (L1 & L2 & L3); [lia | lia |].
    rewrite Hck in *.
    rewrite !filter_app.
    cbn [filter is_lineEnd starts_adapter is_completed].
    rewrite L1, L3, I1, I3. cbn [app List.length].
    rewrite length_app, L2, I2.
    split; [now rewrite (line_ends_step j (S k))|]. split; [reflexivity|].
    split; [reflexivity|].
    exists (onLineEnd (j + 1) :: emitted (start (j + 1) c) w' ++ before).
    rewrite I4; cbn [app]; now rewrite <- app_assoc.
Qed.

Lemma X11_reading_to_the_end_witness :
  filter is_lineEnd
    (emitted (run (repeat (natural_end voice1) 3)) (start 7 mockConfigs w0))
    = line_ends 7 3
  /\ filter is_completed
       (emitted (run (repeat (natural_end voice1) 3)) (start 7 mockConfigs w0))
     = [onBookCompleted (clock w0)].
Proof.
  destruct (X11_reading_to_the_end mockConfigs 10 voice1
              eq_refl eq_refl eq_refl) with (k := 2%nat) (j := 7) (w := w0)
    as (H1 & _ & H3 & _).
  - simpl; lia.
  - lia.
  - reflexivity.
  - split; [exact H1 | exact H3].
Defined.

(* ------------------------------------------------------------------ *)
(** ** The audio URL of a line *)

Lemma append_cancel_l (s a b : string) : (s ++ a = s ++ b)%string -> a = b.
Proof.
  induction s as [|x s IH]; simpl; [easy|].
  intros H; injection H as H; auto.
Qed.

Lemma length_append (a b : string) :
  String.length (a ++ b) = (String.length a + String.length b)%nat.
Proof. induction a as [|x a IH]; simpl; [reflexivity|now rewrite IH]. Qed.

Lemma append_cancel_r (t a b : string) : (a ++ t = b ++ t)%string -> a = b.
Proof.
  revert b; induction a as [|x a IH]; intros [|y b] H; simpl in H.
  - reflexivity.
  - apply (f_equal String.length) in H; simpl in H.
    rewrite length_append in H; lia.
  - apply (f_equal String.length) in H; simpl in H.
    rewrite length_append in H; lia.
  - injection H as -> H; f_equal; auto.
Qed.

Lemma to_int_proper (z : Z) : Z.to_int z <> Decimal.Pos Decimal.Nil
                              /\ Z.to_int z <> Decimal.Neg Decimal.Nil.
Proof.
  destruct z as [|p|p]; simpl; split; intros H; try discriminate;
    injection H as H; now apply Unsigned.to_uint_nonnil in H.
Qed.

(** The digits of an index determine it. *)
Lemma string_of_Z_inj (a b : Z) : string_of_Z a = string_of_Z b -> a = b.
Proof.
  unfold string_of_Z; intros H.
  destruct (to_int_proper a) as [A1 A2], (to_int_proper b) as [B1 B2].
  apply (f_equal NilZero.int_of_string) in H.
  rewrite !NilZero.isi in H by assumption.
  injection H as H.
  apply (f_equal Z.of_int) in H.
  now rewrite !DecimalZ.of_to in H.
Qed.

(** X12.  One URL per line.  For a given book and voice, different line
    indices give different audio URLs; so two cloud starts of different
    loaded lines point the audio element at different sources, and each to
    the source of its own line. *)
Theorem X12_one_url_per_line :
  forall (c : SpeechConfigs) (voice : VoiceOption) (i j : Z) (w w' : World),
    selectedVoice c = Some voice ->
    vtype voice = cloud ->
    playable i c = true ->
    playable j c = true ->
    (cloudSrc i c = cloudSrc j c -> i = j)
    /\ src (cloudAudio (start i c w)) = Some (cloudSrc i c)
    /\ (i <> j ->
        src (cloudAudio (start i c w)) <> src (cloudAudio (start j c w'))).
Proof.
  intros c voice i j w w' Hv Hty Hi Hj.
  assert (Hinj : cloudSrc i c = cloudSrc j c -> i = j).
  { unfold cloudSrc; intros H.
    do 3 apply append_cancel_l in H.
    apply string_of_Z_inj.
    apply (append_cancel_r ("?voice=" ++ voice_id c)).
    exact H. }
  assert (Hsrc : forall k x, playable k c = true ->
                   src (cloudAudio (start k c x)) = Some (cloudSrc k c)).
  { intros k x Hk.
    destruct (playable_inv k c Hk) as (total & v & Hm & Ht & Hv' & Hr & Hl).
    rewrite Hv in Hv'; injection Hv' as <-.
    rewrite start_unfold.
    destruct (play_loaded_line_audio k c total voice
                (emit (onIsPlayingChange true) x) Hm Ht Hv Hr Hl) as [-> _].
    unfold cloud_after_play; now rewrite Hty. }
  split; [exact Hinj|]; split; [now apply Hsrc|].
  intros Hne; rewrite (Hsrc i w Hi), (Hsrc j w' Hj).
  intros H; apply Hne, Hinj.
  set (a := cloudSrc i c) in *; set (b := cloudSrc j c) in *.
  congruence.
Qed.

Lemma X12_one_url_per_line_witness :
  src (cloudAudio (start 3 cloudConfigs w0)) = Some (cloudSrc 3 cloudConfigs)
  /\ src (cloudAudio (start 3 cloudConfigs w0)) <>
     src (cloudAudio (start 4 cloudConfigs w0)).
Proof.
  destruct (X12_one_url_per_line cloudConfigs google1 3 4 w0 w0
              eq_refl eq_refl eq_refl eq_refl) as (_ & H1 & H2).
  split; [exact H1 | apply H2; discriminate].
Defined.

(* ------------------------------------------------------------------ *)
(** ** A platform without media session *)

Lemma absent_seq (c1 c2 : Cmd) :
  keeps_absent c1 -> keeps_absent c2 -> keeps_absent (c1 ;; c2).
Proof.
  intros H1 H2 w Hw; unfold seq.
  destruct (H1 w Hw) as [A1 B1]; destruct (H2 (c1 w) A1) as [A2 B2].
  split; congruence.
Qed.

Lemma absent_neutral (c : Cmd) :
  (forall w, mediaSession (c w) = mediaSession w) ->
  (forall w, currentBookId (c w) = currentBookId w) ->
  keeps_absent c.
Proof. intros Hm Hb w Hw; rewrite Hm, Hb; auto. Qed.

Lemma absent_emit (a : Action) : keeps_absent (emit a).
Proof. apply absent_neutral; reflexivity. Qed.

Lemma absent_pause : keeps_absent pause.
Proof.
  intros w Hw.
  destruct (pause_state w) as (_ & _ & _ & _ & _ & Hb & Hm & _).
  rewrite Hm, Hb, Hw; auto.
Qed.

Lemma absent_stop : keeps_absent stop.
Proof.
  intros w Hw.
  destruct (stop_state w) as (_ & _ & _ & _ & _ & Hb & Hm & _).
  rewrite Hm, Hb, Hw; auto.
Qed.

Lemma absent_play (i : Z) (c : SpeechConfigs) : keeps_absent (play i c).
Proof.
  intros w Hw.
  destruct (play_case_split i c)
    as [Hm|[(total & Hm & Ht & Hi)|[(total & Hm & Ht & Hi & Hl)
        |(total & voice & Hm & Ht & Hv & Hi & Hl)]]].
  - rewrite play_missing; auto.
  - rewrite (play_end_of_book i c total) by assumption.
    now rewrite !mediaSession_emit, !currentBookId_emit.
  - rewrite (play_loading_gap i c total) by assumption.
    rewrite mediaSession_emit, currentBookId_emit.
    now apply absent_pause.
  - destruct (play_loaded_line_ui i c total voice w Hm Ht Hv Hi Hl) as (_ & A & B).
    rewrite A, B, Hw; auto.
Qed.

Lemma absent_start (i : Z) (c : SpeechConfigs) : keeps_absent (start i c).
Proof. unfold start; apply absent_seq; [apply absent_emit | apply absent_play]. Qed.

Lemma absent_resume (i : Z) (c : SpeechConfigs) : keeps_absent (resume i c).
Proof.
  unfold resume.
  apply absent_seq;
    [apply absent_neutral; [apply mediaSession_clear_timer_field
                           | apply currentBookId_clear_timer_field]|].
  apply absent_seq; [apply absent_pause|].
  apply absent_seq; apply absent_neutral; reflexivity.
Qed.

Lemma absent_on_line_ended (c : Closure) : keeps_absent (on_line_ended c).
Proof.
  unfold on_line_ended; apply absent_seq; [apply absent_emit | apply absent_start].
Qed.

Lemma absent_fire (t : Timer) : keeps_absent (fire t).
Proof.
  unfold fire, timer_callback.
  apply absent_seq; [apply absent_neutral; reflexivity|].
  apply absent_seq; [apply absent_neutral; reflexivity|].
  apply absent_seq; [apply absent_play | apply absent_neutral; reflexivity].
Qed.

Lemma absent_run_due (fuel : nat) (target : N) : keeps_absent (run_due fuel target).
Proof.
  induction fuel as [|k IH]; intros w Hw; [auto|].
  change (run_due (S k) target w) with
    (match due_timer target w with
     | Some t => run_due k target (fire t w)
     | None => w
     end).
  destruct (due_timer target w) as [t|]; [|auto].
  destruct (absent_fire t w Hw) as [A B].
  destruct (IH (fire t w) A) as [A' B']. split; congruence.
Qed.

Lemma absent_step (s : Stimulus) : keeps_absent (step s).
Proof.
  destruct s; cbn [step].
  - apply absent_start.
  - apply absent_pause.
  - apply absent_stop.
  - apply absent_resume.
  - intros w Hw; unfold dispatch_cloud_ended.
    destruct (onended (cloudAudio w)) as [c|]; [|auto].
    exact (absent_on_line_ended c (cloud_finished w) Hw).
  - apply absent_emit.
  - unfold cloud_play_catch.
    destruct (negb (String.eqb name "AbortError")); apply absent_emit.
  - apply absent_emit.
  - intros w Hw; unfold dispatch_tts_end.
    destruct (ttsNative w) as [u|]; [|auto].
    exact (absent_on_line_ended (u_closure u) (set_ttsNative None w) Hw).
  - intros w Hw; unfold dispatch_tts_error.
    destruct (ttsNative w) as [u|]; [|auto].
    unfold seq, system_onError.
    destruct (negb (isRestarting (set_ttsNative None w))); auto.
  - intros w Hw; unfold dispatch_media_action; rewrite Hw; auto.
  - intros w Hw; unfold advance.
    destruct (absent_run_due (List.length (pending w)) (clock w + dt) w Hw) as [A B].
    split; [exact A | exact B].
Qed.

(** X13.  Without a media session the bridge stays out of the way.  On a
    platform that has none, no sequence of calls and events ever creates one
    or writes the cached book id, the lock-screen actions do nothing, and a
    loaded line is played with no console output from the bridge. *)
Theorem X13_no_media_session :
  forall (l : list Stimulus) (i : Z) (c : SpeechConfigs) (a : MediaSessionAction),
    playable i c = true ->
    mediaSession (run l (init None)) = None
    /\ currentBookId (run l (init None)) = None
    /\ step (ev_media_action a) (run l (init None)) = run l (init None)
    /\ exists voice,
         selectedVoice c = Some voice
         /\ emitted (start i c) (run l (init None)) =
              onIsPlayingChange true :: SilentPlay :: adapter_commands i c voice.
Proof.
  intros l i c a Hp.
  assert (H : forall l w, mediaSession w = None ->
                mediaSession (run l w) = None
                /\ currentBookId (run l w) = currentBookId w).
  { clear; induction l as [|s l IH]; intros w Hw; [auto|].
    change (run (s :: l) w) with (run l (step s w)).
    destruct (absent_step s w Hw) as [A B].
    destruct (IH (step s w) A) as [A' B']. split; congruence. }
  destruct (H l (init None) eq_refl) as [A B].
  split; [exact A|]; split; [exact B|]; split.
  - cbn [step]; unfold dispatch_media_action; now rewrite A.
  - destruct (playable_inv i c Hp) as (total & voice & Hm & Ht & Hv & Hi & Hl).
    exists voice; split; [exact Hv|].
    rewrite (emitted_start_loaded_line i c total voice _ Hm Ht Hv Hi Hl).
    unfold position_log; now rewrite A.
Qed.

Lemma X13_no_media_session_witness :
  mediaSession (run [call_start 0 mockConfigs; ev_tts_end] (init None)) = None
  /\ currentBookId (run [call_start 0 mockConfigs; ev_tts_end] (init None)) = None.
Proof.
  destruct (X13_no_media_session [call_start 0 mockConfigs; ev_tts_end]
              1 mockConfigs act_play eq_refl) as (A & B & _).
  split; [exact A | exact B].
Defined.

(* ------------------------------------------------------------------ *)
(** ** useDebounceCallback *)

Section Debounce.

Context {A C : Type}.
Implicit Types (h : Hook A C) (a : A) (d dt : N).

Lemma debouncedFn_spec h d a :
  hk_inv h ->
  debouncedFn d a h =
    mkHook (Some (hk_next_id h)) (Some a) (callbackRef h)
           [mkHTimer (hk_next_id h) (hk_clock h + d) a]
           (S (hk_next_id h)) (hk_clock h) (calls h).
Proof.
  destruct h as [tr ar cb p n ck cs]; unfold hk_inv, debouncedFn; simpl.
  destruct p as [|t [|t' p]]; simpl.
  - now intros [-> ->].
  - intros [-> ->]; simpl. now rewrite Nat.eqb_refl.
  - intros [].
Qed.

Lemma flush_spec h :
  hk_inv h ->
  flush h =
    match hk_pending h with
    | t :: _ => settled h (ht_args t)
    | [] => h
    end.
Proof.
  destruct h as [tr ar cb p n ck cs]; unfold hk_inv, flush, settled; simpl.
  destruct p as [|t [|t' p]]; simpl.
  - now intros [-> ->].
  - intros [-> ->]; simpl. now rewrite Nat.eqb_refl.
  - intros [].
Qed.

Lemma hk_fire_spec h (t : HTimer A) :
  hk_pending h = [t] ->
  hk_fire t h = at_time (N.max (hk_clock h) (ht_due t)) (settled h (ht_args t)).
Proof.
  destruct h as [tr ar cb p n ck cs]; simpl; intros ->.
  unfold hk_fire, hk_timeout, invoke, hk_clearTimeout, settled, at_time; simpl.
  now rewrite Nat.eqb_refl.
Qed.

Lemma hk_advance_spec h dt :
  hk_inv h ->
  hk_advance dt h =
    match hk_pending h with
    | t :: _ =>
        if (ht_due t <=? hk_clock h + dt)%N
        then at_time (hk_clock h + dt) (settled h (ht_args t))
        else at_time (hk_clock h + dt) h
    | [] => at_time (hk_clock h + dt) h
    end.
Proof.
  intros Hi. unfold hk_inv in Hi.
  destruct (hk_pending h) as [|t [|t' p]] eqn:Ep.
  - unfold hk_advance; rewrite Ep; reflexivity.
  - unfold hk_advance; rewrite Ep.
    change (List.length [t]) with 1%nat.
    unfold hk_run_due, hk_due; rewrite Ep; unfold find.
    destruct (ht_due t <=? hk_clock h + dt)%N; [|reflexivity].
    rewrite (hk_fire_spec h t Ep); reflexivity.
  - destruct Hi.
Qed.

Lemma hk_inv_step (e : HookEvent A C) h : hk_inv h -> hk_inv (hk_step e h).
Proof.
  intros Hi; destruct e; cbn [hk_step].
  - rewrite debouncedFn_spec by assumption. unfold hk_inv; simpl; auto.
  - rewrite flush_spec by assumption.
    destruct (hk_pending h) as [|t p] eqn:Ep; [exact Hi|].
    unfold hk_inv; simpl; auto.
  - exact Hi.
  - rewrite hk_advance_spec by assumption.
    destruct (hk_pending h) as [|t p] eqn:Ep.
    + unfold hk_inv in *; simpl; now rewrite Ep in *.
    + destruct (ht_due t <=? hk_clock h + dt)%N.
      * unfold hk_inv; simpl; auto.
      * unfold hk_inv in *; simpl; now rewrite Ep in *.
Qed.

Lemma hk_inv_runs (l : list (HookEvent A C)) h : hk_inv h -> hk_inv (hk_runs l h).
Proof.
  revert h; induction l as [|e l IH]; intros h Hi; [exact Hi|].
  apply (IH (hk_step e h)), hk_inv_step, Hi.
Qed.

Lemma hk_reachable_inv h : hk_reachable h -> hk_inv h.
Proof.
  intros (cb & l & ->); apply hk_inv_runs.
  unfold hk_inv; simpl; auto.
Qed.

(** X14.  The latest call wins.  In any state the hook can reach, a call of
    the debounced function cancels whatever was pending and leaves one timer,
    for its own arguments.  The callback is not called before the delay has
    elapsed, and when it has it is called once, with those arguments; the
    refs are then both [null] again. *)
Theorem X14_debounce_latest_wins :
  forall h d a,
    hk_reachable h ->
    hk_pending (debouncedFn d a h) =
      [mkHTimer (hk_next_id h) (hk_clock h + d) a]
    /\ calls (debouncedFn d a h) = calls h
    /\ (forall dt, (dt < d)%N ->
          calls (hk_advance dt (debouncedFn d a h)) = calls h)
    /\ (forall dt, (d <= dt)%N ->
          calls (hk_advance dt (debouncedFn d a h)) =
            calls h ++ [(callbackRef h, a)]
          /\ hk_pending (hk_advance dt (debouncedFn d a h)) = []
          /\ timeoutRef (hk_advance dt (debouncedFn d a h)) = None
          /\ argsRef (hk_advance dt (debouncedFn d a h)) = None).
Proof.
  intros h d a Hr; apply hk_reachable_inv in Hr.
  assert (Hi : hk_inv (debouncedFn d a h))
    by apply (hk_inv_step (hk_run d a)), Hr.
  split; [now rewrite debouncedFn_spec|].
  split; [now rewrite debouncedFn_spec|]; split.
  - intros dt Hlt; rewrite hk_advance_spec by assumption.
    rewrite debouncedFn_spec by assumption; simpl.
    now replace (hk_clock h + d <=? hk_clock h + dt)%N with false
      by (symmetry; apply N.leb_gt; lia).
  - intros dt Hle; rewrite hk_advance_spec by assumption.
    rewrite debouncedFn_spec by assumption; simpl.
    replace (hk_clock h + d <=? hk_clock h + dt)%N with true
      by (symmetry; apply N.leb_le; lia).
    simpl; auto.
Qed.

(** X15.  [flush] calls now, and only once.  With nothing pending it does
    nothing at all.  With a call pending it cancels the timer and calls the
    callback at once with the latest arguments; the cancelled timer never
    fires afterwards, and a second [flush] changes nothing. *)
Theorem X15_flush :
  forall h d a dt,
    hk_reachable h ->
    (timeoutRef h = None -> flush h = h)
    /\ calls (flush (debouncedFn d a h)) = calls h ++ [(callbackRef h, a)]
    /\ hk_pending (flush (debouncedFn d a h)) = []
    /\ calls (hk_advance dt (flush (debouncedFn d a h))) =
         calls h ++ [(callbackRef h, a)]
    /\ flush (flush h) = flush h.
Proof.
  intros h d a dt Hr; apply hk_reachable_inv in Hr.
  assert (Hi : hk_inv (debouncedFn d a h))
    by apply (hk_inv_step (hk_run d a)), Hr.
  assert (Hf : hk_inv (flush (debouncedFn d a h)))
    by apply (hk_inv_step hk_flush), Hi.
  assert (E : flush (debouncedFn d a h) =
              mkHook None None (callbackRef h) [] (S (hk_next_id h))
                     (hk_clock h) (calls h ++ [(callbackRef h, a)])).
  { rewrite flush_spec by assumption.
    rewrite debouncedFn_spec by assumption. reflexivity. }
  split; [|split; [|split; [|split]]].
  - intros Hn; rewrite flush_spec by assumption.
    unfold hk_inv in Hr.
    destruct (hk_pending h) as [|t [|t' p]]; [reflexivity| |destruct Hr].
    destruct Hr as [Ht _]; congruence.
  - now rewrite E.
  - now rewrite E.
  - rewrite hk_advance_spec by assumption. now rewrite E.
  - assert (Hff : hk_inv (flush h)) by apply (hk_inv_step hk_flush), Hr.
    rewrite (flush_spec (flush h)) by assumption.
    rewrite (flush_spec h) by assumption.
    destruct (hk_pending h) as [|t p] eqn:Ep; [now rewrite Ep|reflexivity].
Qed.

(** X16.  The callback called is the latest one.  Re-rendering with a new
    callback while a call is pending does not touch the timer; when the
    delay has elapsed, or on [flush], it is the new callback that is called,
    with the pending arguments. *)
Theorem X16_latest_callback :
  forall h d a (cb : C) dt,
    hk_reachable h ->
    (d <= dt)%N ->
    hk_pending (rerender cb (debouncedFn d a h)) = hk_pending (debouncedFn d a h)
    /\ calls (hk_advance dt (rerender cb (debouncedFn d a h))) =
         calls h ++ [(cb, a)]
    /\ calls (flush (rerender cb (debouncedFn d a h))) = calls h ++ [(cb, a)].
Proof.
  intros h d a cb dt Hr Hle; apply hk_reachable_inv in Hr.
  assert (Hi : hk_inv (rerender cb (debouncedFn d a h))).
  { apply (hk_inv_step (hk_rerender cb)), (hk_inv_step (hk_run d a)), Hr. }
  split; [reflexivity|]; split.
  - rewrite hk_advance_spec by assumption.
    rewrite debouncedFn_spec by assumption; simpl.
    now replace (hk_clock h + d <=? hk_clock h + dt)%N with true
      by (symmetry; apply N.leb_le; lia).
  - rewrite flush_spec by assumption.
    rewrite debouncedFn_spec by assumption; reflexivity.
Qed.

Lemma accounted_settled h (t : HTimer A) (L : list A) :
  hk_pending h = [t] -> accounted h L -> accounted (settled h (ht_args t)) L.
Proof.
  intros Ep (Hi & Hn & Hc & Hp); rewrite Ep in *.
  unfold accounted, hk_inv, settled; simpl.
  split; [auto|]; split; [|split].
  - rewrite length_app; simpl in *; lia.
  - intros c a Hin; apply in_app_or in Hin as [Hin|[Hin|[]]]; [eauto|].
    injection Hin as _ <-. apply Hp; now left.
  - intros x [].
Qed.

Lemma accounted_at_time h (t : N) (L : list A) :
  accounted h L -> accounted (at_time t h) L.
Proof. intros H; exact H. Qed.

Lemma accounted_step (e : HookEvent A C) h (L : list A) :
  accounted h L -> accounted (hk_step e h) (L ++ requested [e]).
Proof.
  intros Hacc; pose proof Hacc as (Hi & Hn & Hc & Hp).
  destruct e; cbn [hk_step requested].
  - rewrite debouncedFn_spec by assumption.
    unfold accounted, hk_inv; simpl.
    split; [auto|]; split; [|split].
    + rewrite length_app; simpl.
      destruct (hk_pending h); simpl in *; lia.
    + intros c a Hin; apply in_or_app; left; eauto.
    + intros t [<-|[]]; simpl. apply in_or_app; right; now left.
  - rewrite app_nil_r, flush_spec by assumption.
    destruct (hk_pending h) as [|t [|t' p]] eqn:Ep; [exact Hacc| |].
    + now apply accounted_settled.
    + unfold hk_inv in Hi; rewrite Ep in Hi; destruct Hi.
  - rewrite app_nil_r. exact Hacc.
  - rewrite app_nil_r, hk_advance_spec by assumption.
    destruct (hk_pending h) as [|t [|t' p]] eqn:Ep.
    + now apply accounted_at_time.
    + destruct (ht_due t <=? hk_clock h + dt)%N; apply accounted_at_time;
        [now apply accounted_settled | exact Hacc].
    + unfold hk_inv in Hi; rewrite Ep in Hi; destruct Hi.
Qed.

Lemma requested_app (l1 l2 : list (HookEvent A C)) :
  requested (l1 ++ l2) = requested l1 ++ requested l2.
Proof.
  induction l1 as [|e l1 IH]; [reflexivity|].
  destruct e; simpl; now rewrite IH.
Qed.

Lemma accounted_runs (l : list (HookEvent A C)) h (L : list A) :
  accounted h L -> accounted (hk_runs l h) (L ++ requested l).
Proof.
  revert h L; induction l as [|e l IH]; intros h L Hacc.
  - simpl; now rewrite app_nil_r.
  - change (hk_runs (e :: l) h) with (hk_runs l (hk_step e h)).
    change (e :: l) with ([e] ++ l).
    rewrite requested_app, app_assoc.
    apply IH, accounted_step, Hacc.
Qed.

(** X17.  No call without a request.  Over any history of a mounted hook
    (calls of the debounced function, flushes, re-renders, time passing) the
    callback is called at most as often as the debounced function was, and
    only with arguments that were passed to it; at most one more call is
    still pending. *)
Theorem X17_no_call_without_request :
  forall (cb : C) (l : list (HookEvent A C)),
    (List.length (calls (hk_runs l (useDebounceCallback cb)))
     + List.length (hk_pending (hk_runs l (useDebounceCallback cb)))
     <= List.length (requested l))%nat
    /\ (List.length (hk_pending (hk_runs l (useDebounceCallback cb))) <= 1)%nat
    /\ (forall c a, In (c, a) (calls (hk_runs l (useDebounceCallback cb))) ->
          In a (requested l)).
Proof.
  intros cb l.
  assert (H0 : accounted (useDebounceCallback cb : Hook A C) []).
  { unfold accounted, hk_inv; simpl. repeat split; auto; intros; contradiction. }
  destruct (accounted_runs l _ _ H0) as (Hi & Hn & Hc & _).
  simpl in Hn, Hc.
  split; [exact Hn|]; split; [|exact Hc].
  unfold hk_inv in Hi.
  destruct (hk_pending (hk_runs l (useDebounceCallback cb))) as [|t [|t' p]];
    simpl; try lia.
Qed.

End Debounce.

Lemma X14_debounce_latest_wins_witness :
  calls (hk_advance 1000
           (debouncedFn 1000 "3"
              (hk_runs [hk_run 1000 "1"; hk_run 1000 "2"]
                 (useDebounceCallback "callback")))) =
    [("callback", "3")].
Proof.
  destruct (X14_debounce_latest_wins
              (hk_runs [hk_run 1000%N "1"; hk_run 1000%N "2"]
                 (useDebounceCallback "callback")) 1000%N "3")
    as (_ & _ & _ & H).
  - exists "callback", [hk_run 1000%N "1"; hk_run 1000%N "2"]; reflexivity.
  - destruct (H 1000%N) as (Hc & _); [reflexivity | exact Hc].
Defined.

Lemma X15_flush_witness :
  calls (hk_advance 5000
           (flush (debouncedFn 5000 "instant" (useDebounceCallback "callback")))) =
    [("callback", "instant")].
Proof.
  destruct (X15_flush (useDebounceCallback "callback") 5000%N "instant" 5000%N)
    as (_ & _ & _ & H & _).
  - exists "callback", []; reflexivity.
  - exact H.
Defined.

Lemma X16_latest_callback_witness :
  calls (hk_advance 1000
           (rerender "callback2"
              (debouncedFn 1000 "data" (useDebounceCallback "callback1")))) =
    [("callback2", "data")].
Proof.
  destruct (X16_latest_callback (useDebounceCallback "callback1")
              1000%N "data" "callback2" 1000%N) as (_ & H & _).
  - exists "callback1", []; reflexivity.
  - reflexivity.
  - exact H.
Defined.

Lemma X17_no_call_without_request_witness :
  In "instant"
     (requested [hk_run 5000 "instant"; hk_flush (A:=string) (C:=string)]).
Proof.
  destruct (X17_no_call_without_request "callback"
              [hk_run 5000%N "instant"; hk_flush]) as (_ & _ & H).
  apply (H "callback" "instant"). left; reflexivity.
Defined.

(* ------------------------------------------------------------------ *)
(** ** Bookmarks *)

Lemma find_isBookmarked (index : Z) (l : list BookMark) :
  match find (fun b => Z.eqb (bm_index b) index) l with
  | Some _ => isBookmarked index l = true
  | None => isBookmarked index l = false
  end.
Proof.
  unfold isBookmarked; induction l as [|x l IH]; simpl; [reflexivity|].
  destruct (Z.eqb (bm_index x) index); [reflexivity|exact IH].
Qed.

Lemma isBookmarked_insert (j : Z) (b : BookMark) (l : list BookMark) :
  isBookmarked j (insert_bookmark b l) =
    Z.eqb (bm_index b) j || isBookmarked j l.
Proof.
  unfold isBookmarked; induction l as [|x l IH]; simpl; [reflexivity|].
  destruct (Z.leb (bm_index b) (bm_index x)); simpl; [reflexivity|].
  rewrite IH. now rewrite !orb_assoc, (orb_comm (Z.eqb (bm_index x) j)).
Qed.

Lemma isBookmarked_sort (j : Z) (l : list BookMark) :
  isBookmarked j (sort_bookmarks l) = isBookmarked j l.
Proof.
  induction l as [|x l IH]; [reflexivity|].
  change (sort_bookmarks (x :: l)) with (insert_bookmark x (sort_bookmarks l)).
  now rewrite isBookmarked_insert, IH.
Qed.

Lemma isBookmarked_app (j : Z) (l1 l2 : list BookMark) :
  isBookmarked j (l1 ++ l2) = isBookmarked j l1 || isBookmarked j l2.
Proof. apply existsb_app. Qed.

Lemma isBookmarked_filter (j index : Z) (l : list BookMark) :
  isBookmarked j (filter (fun b => negb (Z.eqb (bm_index b) index)) l) =
    negb (Z.eqb j index) && isBookmarked j l.
Proof.
  unfold isBookmarked; induction l as [|x l IH]; simpl; [now rewrite andb_false_r|].
  destruct (Z.eqb_spec (bm_index x) index) as [E|E]; simpl.
  - rewrite IH. destruct (Z.eqb_spec (bm_index x) j) as [F|F]; simpl; [|reflexivity].
    replace (Z.eqb j index) with true by (symmetry; apply Z.eqb_eq; lia).
    reflexivity.
  - rewrite IH. destruct (Z.eqb_spec (bm_index x) j) as [F|F]; simpl; [|reflexivity].
    replace (Z.eqb j index) with false by (symmetry; apply Z.eqb_neq; lia).
    reflexivity.
Qed.

Lemma insert_bookmark_perm (b : BookMark) (l : list BookMark) :
  Permutation (insert_bookmark b l) (b :: l).
Proof.
  induction l as [|x l IH]; simpl; [reflexivity|].
  destruct (Z.leb (bm_index b) (bm_index x)); [reflexivity|].
  rewrite IH; apply perm_swap.
Qed.

Lemma sort_bookmarks_perm (l : list BookMark) : Permutation (sort_bookmarks l) l.
Proof.
  induction l as [|x l IH]; [reflexivity|].
  change (sort_bookmarks (x :: l)) with (insert_bookmark x (sort_bookmarks l)).
  rewrite insert_bookmark_perm; now constructor.
Qed.

Lemma insert_bookmark_sorted (b : BookMark) (l : list BookMark) :
  le_sorted l -> le_sorted (insert_bookmark b l).
Proof.
  unfold le_sorted; induction 1 as [|x l Hs IH Hf]; simpl.
  - repeat constructor.
  - destruct (Z.leb_spec (bm_index b) (bm_index x)) as [Hle|Hgt].
    + constructor; [now constructor|].
      constructor; [exact Hle|].
      eapply Forall_impl; [|exact Hf]. simpl; intros; lia.
    + constructor; [exact IH|].
      rewrite Forall_forall; intros y Hy.
      apply (Permutation_in _ (insert_bookmark_perm b l)) in Hy.
      destruct Hy as [<-|Hy]; [lia|].
      rewrite Forall_forall in Hf; now apply Hf.
Qed.

Lemma sort_bookmarks_sorted (l : list BookMark) : le_sorted (sort_bookmarks l).
Proof.
  induction l as [|x l IH]; [constructor|].
  now apply insert_bookmark_sorted.
Qed.

Lemma insert_bookmark_front (b : BookMark) (l : list BookMark) :
  Forall (fun y => bm_index b <= bm_index y) l -> insert_bookmark b l = b :: l.
Proof.
  destruct 1 as [|y l Hy Hl]; simpl; [reflexivity|].
  now replace (Z.leb (bm_index b) (bm_index y)) with true
    by (symmetry; apply Z.leb_le; exact Hy).
Qed.

Lemma sort_bookmarks_id (l : list BookMark) : le_sorted l -> sort_bookmarks l = l.
Proof.
  unfold le_sorted; induction 1 as [|x l Hs IH Hf]; [reflexivity|].
  change (sort_bookmarks (x :: l)) with (insert_bookmark x (sort_bookmarks l)).
  rewrite IH. now apply insert_bookmark_front.
Qed.

Lemma Forall_filter_keep {X : Type} (P : X -> Prop) (f : X -> bool) (l : list X) :
  Forall P l -> Forall P (filter f l).
Proof.
  induction 1 as [|x l Hx Hl IH]; simpl; [constructor|].
  destruct (f x); [now constructor|exact IH].
Qed.

Lemma sorted_filter {X : Type} (R : X -> X -> Prop) (f : X -> bool) (l : list X) :
  StronglySorted R l -> StronglySorted R (filter f l).
Proof.
  induction 1 as [|x l Hs IH Hf]; simpl; [constructor|].
  destruct (f x); [|exact IH].
  constructor; [exact IH|now apply Forall_filter_keep].
Qed.

Lemma filter_insert_bookmark (f : BookMark -> bool) (b : BookMark)
    (l : list BookMark) :
  le_sorted l ->
  filter f (insert_bookmark b l) =
    if f b then insert_bookmark b (filter f l) else filter f l.
Proof.
  unfold le_sorted; induction 1 as [|x l Hs IH Hf]; simpl.
  - now destruct (f b).
  - destruct (Z.leb_spec (bm_index b) (bm_index x)) as [Hle|Hgt]; simpl.
    + destruct (f b) eqn:Eb; [|reflexivity].
      rewrite insert_bookmark_front; [reflexivity|].
      apply (Forall_filter_keep _ f (x :: l)).
      constructor; [exact Hle|].
      eapply Forall_impl; [|exact Hf]. simpl; intros; lia.
    + rewrite IH.
      destruct (f x) eqn:Ex, (f b) eqn:Eb; simpl; try reflexivity.
      now replace (Z.leb (bm_index b) (bm_index x)) with false
        by (symmetry; apply Z.leb_gt; exact Hgt).
Qed.

Lemma filter_sort_bookmarks (f : BookMark -> bool) (l : list BookMark) :
  filter f (sort_bookmarks l) = sort_bookmarks (filter f l).
Proof.
  induction l as [|x l IH]; [reflexivity|].
  change (sort_bookmarks (x :: l)) with (insert_bookmark x (sort_bookmarks l)).
  rewrite filter_insert_bookmark by apply sort_bookmarks_sorted.
  simpl; destruct (f x); [|exact IH].
  change (sort_bookmarks (x :: filter f l))
    with (insert_bookmark x (sort_bookmarks (filter f l))).
  now rewrite IH.
Qed.

Lemma ordered_le_sorted (l : list BookMark) : ordered l -> le_sorted l.
Proof.
  unfold ordered, le_sorted; induction 1 as [|x l Hs IH Hf]; constructor; auto.
  eapply Forall_impl; [|exact Hf]. simpl; intros; lia.
Qed.

Lemma ordered_NoDup (l : list BookMark) : ordered l -> NoDup (map bm_index l).
Proof.
  unfold ordered; induction 1 as [|x l Hs IH Hf]; simpl; constructor; auto.
  intros Hin; apply in_map_iff in Hin as (y & Ey & Hy).
  rewrite Forall_forall in Hf. specialize (Hf y Hy). lia.
Qed.

Lemma le_sorted_NoDup_ordered (l : list BookMark) :
  le_sorted l -> NoDup (map bm_index l) -> ordered l.
Proof.
  unfold ordered, le_sorted; induction 1 as [|x l Hs IH Hf]; intros Hn.
  - constructor.
  - simpl in Hn; inversion Hn as [|? ? Hnot Hn']; subst.
    constructor; [now apply IH|].
    rewrite Forall_forall in *; intros y Hy.
    specialize (Hf y Hy).
    assert (bm_index x <> bm_index y).
    { intros E; apply Hnot; rewrite E; now apply in_map. }
    lia.
Qed.

Lemma not_bookmarked_filter (index : Z) (l : list BookMark) :
  isBookmarked index l = false ->
  filter (fun b => negb (Z.eqb (bm_index b) index)) l = l.
Proof.
  unfold isBookmarked; induction l as [|x l IH]; simpl; [reflexivity|].
  intros H; apply orb_false_iff in H as [Hx Hl].
  rewrite Hx; simpl; now rewrite IH.
Qed.

Lemma not_bookmarked_not_in (index : Z) (l : list BookMark) :
  isBookmarked index l = false -> ~ In index (map bm_index l).
Proof.
  unfold isBookmarked; induction l as [|x l IH]; simpl; [tauto|].
  intros H; apply orb_false_iff in H as [Hx Hl].
  apply Z.eqb_neq in Hx. intros [E|Hin]; [congruence|now apply IH].
Qed.

Lemma toggleBookmark_remove (index : Z) (text : string) (prev : list BookMark) :
  isBookmarked index prev = true ->
  toggleBookmark index text prev =
    filter (fun b => negb (Z.eqb (bm_index b) index)) prev.
Proof.
  intros H; pose proof (find_isBookmarked index prev) as Hf.
  unfold toggleBookmark.
  destruct (find (fun b => Z.eqb (bm_index b) index) prev); [reflexivity|congruence].
Qed.

Lemma toggleBookmark_add (index : Z) (text : string) (prev : list BookMark) :
  isBookmarked index prev = false ->
  toggleBookmark index text prev =
    sort_bookmarks (prev ++ [mkBookMark index (truncatedText text)]).
Proof.
  intros H; pose proof (find_isBookmarked index prev) as Hf.
  unfold toggleBookmark.
  destruct (find (fun b => Z.eqb (bm_index b) index) prev); [congruence|reflexivity].
Qed.

(** X18.  Toggling a bookmark.  [toggleBookmark(index, text)] flips whether
    line [index] is bookmarked and leaves every other line as it was.  A list
    kept in increasing order of line, one bookmark per line, stays so.  On
    such a list, bookmarking a line and toggling it again gives back the
    list exactly. *)
Theorem X18_toggle_bookmark :
  forall (index j : Z) (text text' : string) (prev : list BookMark),
    isBookmarked index (toggleBookmark index text prev) =
      negb (isBookmarked index prev)
    /\ (j <> index ->
        isBookmarked j (toggleBookmark index text prev) = isBookmarked j prev)
    /\ (ordered prev -> ordered (toggleBookmark index text prev))
    /\ (ordered prev -> isBookmarked index prev = false ->
        toggleBookmark index text' (toggleBookmark index text prev) = prev).
Proof.
  intros index j text text' prev.
  destruct (isBookmarked index prev) eqn:Hb.
  - rewrite (toggleBookmark_remove index text prev Hb).
    split; [|split; [|split]].
    + rewrite isBookmarked_filter, Z.eqb_refl; reflexivity.
    + intros Hne; rewrite isBookmarked_filter.
      now replace (Z.eqb j index) with false by (symmetry; apply Z.eqb_neq; exact Hne).
    + apply sorted_filter.
    + intros _ H; discriminate H.
  - rewrite (toggleBookmark_add index text prev Hb).
    assert (Hin : isBookmarked index
              (sort_bookmarks (prev ++ [mkBookMark index (truncatedText text)]))
              = true).
    { rewrite isBookmarked_sort, isBookmarked_app; simpl.
      now rewrite Z.eqb_refl, orb_true_r. }
    split; [|split; [|split]].
    + exact Hin.
    + intros Hne; rewrite isBookmarked_sort, isBookmarked_app; simpl.
      replace (Z.eqb index j) with false by (symmetry; apply Z.eqb_neq; lia).
      now rewrite !orb_false_r.
    + intros Ho; apply le_sorted_NoDup_ordered; [apply sort_bookmarks_sorted|].
      apply (Permutation_NoDup
               (l := index :: map bm_index prev)).
      * change (index :: map bm_index prev)
          with (map bm_index (mkBookMark index (truncatedText text) :: prev)).
        apply Permutation_map, Permutation_sym.
        rewrite sort_bookmarks_perm.
        apply Permutation_sym, Permutation_cons_append.
      * constructor; [now apply not_bookmarked_not_in|now apply ordered_NoDup].
    + intros Ho _.
      rewrite (toggleBookmark_remove index text' _ Hin).
      rewrite filter_sort_bookmarks, filter_app; simpl.
      rewrite Z.eqb_refl; simpl; rewrite app_nil_r.
      rewrite not_bookmarked_filter by exact Hb.
      now apply sort_bookmarks_id, ordered_le_sorted.
Qed.

Lemma X18_toggle_bookmark_witness :
  toggleBookmark 5 "again"
    (toggleBookmark 5 "Call me Ishmael. Some years ago"
       [mkBookMark 2 "two"; mkBookMark 9 "nine"]) =
  [mkBookMark 2 "two"; mkBookMark 9 "nine"].
Proof.
  destruct (X18_toggle_bookmark 5 2 "Call me Ishmael. Some years ago" "again"
              [mkBookMark 2 "two"; mkBookMark 9 "nine"]) as (_ & _ & _ & H).
  apply H; [|reflexivity].
  repeat constructor.
Defined.







(* ------------------------------------------------------------------ *)
(** ** The voices offered and the saved voice *)

Lemma availableVoices_length (nativeVoices : list string) :
  List.length (availableVoices nativeVoices) =
    S (Nat.max 1 (List.length nativeVoices)).
Proof.
  unfold availableVoices; rewrite length_map.
  destruct nativeVoices as [|n l]; simpl; [reflexivity|].
  rewrite length_app, length_map; simpl; lia.
Qed.

(** X20.  The voices offered and the saved voice.  The list of voices ends
    with the cloud voice and is never empty: the voices of the device come
    first, or the fallback entry when the device reports none.  The effect
    that restores the saved voice does nothing unless the device reports at
    least two voices: with one or none, the selection stays what it was,
    whatever voice was saved, the cloud voice included.  With two or more,
    a saved voice that is offered becomes the selection, and one that is
    not offered leaves the selection as it was. *)
Theorem X20_saved_voice :
  forall (nativeVoices : list string) (saved : string) (selected : VoiceOption),
    List.length (availableVoices nativeVoices) =
      S (Nat.max 1 (List.length nativeVoices))
    /\ last (availableVoices nativeVoices) VOICE_FALLBACK = CLOUD_VOICE
    /\ ((List.length nativeVoices <= 1)%nat ->
        forall voice,
          restoreVoice voice (availableVoices nativeVoices) selected = selected)
    /\ ((2 <= List.length nativeVoices)%nat ->
        saved <> "" ->
        ((exists v, In v (availableVoices nativeVoices) /\ vid v = saved) ->
           In (restoreVoice (Some saved) (availableVoices nativeVoices) selected)
              (availableVoices nativeVoices)
           /\ vid (restoreVoice (Some saved) (availableVoices nativeVoices) selected)
              = saved)
        /\ ((forall v, In v (availableVoices nativeVoices) -> vid v <> saved) ->
            restoreVoice (Some saved) (availableVoices nativeVoices) selected
              = selected)).
Proof.
  intros nativeVoices saved selected.
  pose proof (availableVoices_length nativeVoices) as Hlen.
  split; [exact Hlen|].
  split; [unfold availableVoices; apply last_last|].
  split.
  - intros Hn voice; unfold restoreVoice.
    replace (Nat.leb (List.length (availableVoices nativeVoices)) 2) with true
      by (symmetry; apply Nat.leb_le; lia).
    now rewrite orb_true_r.
  - intros Hn Hs; unfold restoreVoice.
    replace (Nat.leb (List.length (availableVoices nativeVoices)) 2) with false
      by (symmetry; apply Nat.leb_gt; lia).
    assert (Ht : truthy_string (Some saved) = true).
    { simpl. destruct (String.eqb_spec saved ""); [contradiction|reflexivity]. }
    rewrite Ht; cbn [negb orb template].
    destruct (find (fun v => String.eqb (vid v) saved) (availableVoices nativeVoices))
      as [found|] eqn:Ef.
    + apply find_some in Ef as [Hin He]. apply String.eqb_eq in He.
      split; [intros _; split; assumption|].
      intros Hno; elim (Hno found Hin He).
    + split; [|reflexivity].
      intros (v & Hin & Hv).
      pose proof (find_none _ _ Ef v Hin) as Hf; simpl in Hf.
      rewrite Hv, String.eqb_refl in Hf; discriminate Hf.
Qed.

Lemma X20_saved_voice_witness :
  restoreVoice (Some "google-neural2") (availableVoices ["Samantha"]) VOICE_FALLBACK
    = VOICE_FALLBACK
  /\ vid (restoreVoice (Some "Daniel") (availableVoices ["Samantha"; "Daniel"])
            VOICE_FALLBACK) = "Daniel".
Proof.
  split.
  - destruct (X20_saved_voice ["Samantha"] "google-neural2" VOICE_FALLBACK)
      as (_ & _ & H & _).
    apply H; simpl; lia.
  - destruct (X20_saved_voice ["Samantha"; "Daniel"] "Daniel" VOICE_FALLBACK)
      as (_ & _ & _ & H).
    destruct H as [H _]; [simpl; lia|discriminate|].
    apply H. exists (mkVoice system "Daniel" "Daniel" true).
    split; [simpl; tauto|reflexivity].
Defined.

(* ------------------------------------------------------------------ *)
(** ** The play/pause button of the reader *)






